(** * Gmail Rechnungs-Manager: attachment scanner and transfer reconciler

    A shallow embedding of the storage wrapper ([utils/storage]), of the
    service-worker message handlers and of the content script
    ([content/gmail_content.ts]), with the properties of the
    reconciliation logic proved over it.

    JavaScript strings are sequences of UTF-16 code units.  The model keeps
    the code units U+0000..U+00FF, one [ascii] each; [toLowerCase] and
    [trim] are the restrictions of the JavaScript operations to that
    range. *)

From Stdlib Require Import Strings.Ascii Numbers.DecimalString.
From Stdlib Require Import Sorting.Permutation.
From stdpp Require Import base list strings.

Local Set Warnings "-register-all".

(** ** JavaScript string operations *)

Module JsString.

(** [String.prototype.toLowerCase] on one code unit: A-Z, and the Latin-1
    capitals U+00C0..U+00DE apart from the multiplication sign U+00D7. *)
Definition lowerChar (c : ascii) : ascii :=
  let n := nat_of_ascii c in
  if (((65 <=? n) && (n <=? 90))
      || ((192 <=? n) && (n <=? 222) && negb (n =? 215)))%nat
  then ascii_of_nat (n + 32) else c.

Fixpoint toLowerCase (s : string) : string :=
  match s with
  | EmptyString => EmptyString
  | String c s' => String (lowerChar c) (toLowerCase s')
  end.

(** White space and line terminators below U+0100: TAB, LF, VT, FF, CR,
    SPACE and NO-BREAK SPACE. *)
Definition isWhiteSpace (c : ascii) : bool :=
  let n := nat_of_ascii c in
  (((9 <=? n) && (n <=? 13)) || (n =? 32) || (n =? 160))%nat.

Fixpoint trimStart (s : string) : string :=
  match s with
  | EmptyString => EmptyString
  | String c s' => if isWhiteSpace c then trimStart s' else s
  end.

Fixpoint trimEnd (s : string) : string :=
  match s with
  | EmptyString => EmptyString
  | String c s' =>
      match trimEnd s' with
      | EmptyString => if isWhiteSpace c then EmptyString else String c EmptyString
      | t => String c t
      end
  end.

Definition trim (s : string) : string := trimEnd (trimStart s).

(** [s.startsWith(p)] *)
Fixpoint startsWith (p s : string) : bool :=
  match p, s with
  | EmptyString, _ => true
  | String a p', String b s' => Ascii.eqb a b && startsWith p' s'
  | String _ _, EmptyString => false
  end.

(** [s.includes(p)] *)
Fixpoint includes (p s : string) : bool :=
  startsWith p s ||
  match s with
  | EmptyString => false
  | String _ s' => includes p s'
  end.

(** [s.endsWith(p)] *)
Fixpoint endsWith (p s : string) : bool :=
  String.eqb p s ||
  match s with
  | EmptyString => false
  | String _ s' => endsWith p s'
  end.

(** Truthiness of a string: the empty string is falsy. *)
Definition truthy (s : string) : bool := negb (String.eqb s "").

(** Template-literal rendering of a non-negative integer. *)
Definition ofN (n : N) : string := NilEmpty.string_of_uint (N.to_uint n).

End JsString.

Import JsString.

(** ** Persistent storage ([utils/storage]) *)

Record TransferredEmail := mkTransferredEmail {
  emailId : string;
  fileName : string;
  uploadedFileId : string;
  transferDate : string;
  subject : option string
}.

(** The five keys of [chrome.storage.local]; a key that was never written
    reads as its [DEFAULT_STORAGE] value. *)
Record ExtendedStorageData := mkStorage {
  apiKey : string;
  orgId : string;
  transferredEmails : list TransferredEmail;
  boringTaxFiles : list string;
  boringTaxLastSync : string
}.


(** [chrome.storage.local.set({transferredEmails: l})] *)
Definition setTransferredEmails (l : list TransferredEmail)
    (st : ExtendedStorageData) : ExtendedStorageData :=
  {| apiKey := apiKey st; orgId := orgId st; transferredEmails := l;
     boringTaxFiles := boringTaxFiles st;
     boringTaxLastSync := boringTaxLastSync st |}.

(** [Array.prototype.findIndex] and [Array.prototype.find]: [None] stands
    for the results -1 and [undefined]. *)
Definition findIndex {A} (P : A -> Prop) `{!forall x, Decision (P x)}
    (l : list A) : option nat := fst <$> list_find P l.

Definition find {A} (P : A -> Prop) `{!forall x, Decision (P x)}
    (l : list A) : option A := snd <$> list_find P l.

(** The filename comparison key of the storage layer:
    [fileName.toLowerCase().trim()]. *)
Definition normalizedFileName (f : string) : string := trim (toLowerCase f).

Module storage.

Definition getAll (st : ExtendedStorageData) : ExtendedStorageData := st.

Definition saveSettings (key org : string) (st : ExtendedStorageData)
    : ExtendedStorageData :=
  {| apiKey := key; orgId := org; transferredEmails := transferredEmails st;
     boringTaxFiles := boringTaxFiles st;
     boringTaxLastSync := boringTaxLastSync st |}.

Record Settings := mkSettings {
  settingsApiKey : string;
  settingsOrgId : string;
  isConfigured : bool
}.

Definition getSettings (st : ExtendedStorageData) : Settings :=
  let data := getAll st in
  {| settingsApiKey := apiKey data; settingsOrgId := orgId data;
     isConfigured := truthy (apiKey data) && truthy (orgId data) |}.

Definition addTransferredEmail (email : TransferredEmail)
    (st : ExtendedStorageData) : ExtendedStorageData :=
  let data := getAll st in
  match findIndex (fun e => emailId e = emailId email) (transferredEmails data) with
  | Some existingIndex =>
      setTransferredEmails (<[existingIndex := email]> (transferredEmails data)) st
  | None =>
      setTransferredEmails (transferredEmails data ++ [email]) st
  end.

Definition removeTransferredEmail (id : string) (st : ExtendedStorageData)
    : ExtendedStorageData :=
  let data := getAll st in
  setTransferredEmails
    (filter (fun e => emailId e <> id) (transferredEmails data)) st.

Definition isEmailTransferred (id : string) (st : ExtendedStorageData) : bool :=
  existsb (fun e => String.eqb (emailId e) id) (transferredEmails (getAll st)).

Definition getTransferredEmail (id : string) (st : ExtendedStorageData)
    : option TransferredEmail :=
  find (fun e => emailId e = id) (transferredEmails (getAll st)).



(** [now] is [new Date().toISOString()] at the time of the call. *)
Definition saveBoringTaxFiles (fileNames : list string) (now : string)
    (st : ExtendedStorageData) : ExtendedStorageData :=
  {| apiKey := apiKey st; orgId := orgId st;
     transferredEmails := transferredEmails st;
     boringTaxFiles := fileNames; boringTaxLastSync := now |}.

Definition getBoringTaxFiles (st : ExtendedStorageData) : list string * string :=
  (boringTaxFiles st, boringTaxLastSync st).

Definition isFileInBoringTax (name : string) (st : ExtendedStorageData) : bool :=
  let fileNames := fst (getBoringTaxFiles st) in
  let normalized := normalizedFileName name in
  existsb (fun f => String.eqb (normalizedFileName f) normalized) fileNames.

Definition isFileTransferredByName (name : string) (st : ExtendedStorageData)
    : option TransferredEmail :=
  let data := getAll st in
  let normalized := normalizedFileName name in
  find (fun e => normalizedFileName (fileName e) = normalized)
       (transferredEmails data).

(** [getTransferredEmails] sorts a copy of the list, newest first, with the
    comparator [new Date(b.transferDate) - new Date(a.transferDate)].  Date
    parsing belongs to the host; the sort is taken as [sortByDateDesc]. *)
Section Sorted.
Variable sortByDateDesc : list TransferredEmail -> list TransferredEmail.

Definition getTransferredEmails (st : ExtendedStorageData)
    : list TransferredEmail :=
  sortByDateDesc (transferredEmails (getAll st)).

End Sorted.

End storage.

(** ** API client: the part that feeds the sync *)

Record FileDTO := mkFileDTO { orgFileName : string }.

Record FileSystemEntityDTO := mkEntity {
  entityName : string;
  entityFile : option FileDTO
}.

(** [getFileNames], applied to what [getFiles] returned ([getFiles] yields the
    empty list on every failure). *)
Definition getFileNames (files : list FileSystemEntityDTO) : list string :=
  List.filter truthy
    (List.map
       (fun f =>
          match entityFile f with
          | Some d => if truthy (orgFileName d) then orgFileName d else entityName f
          | None => entityName f
          end)
       (List.filter (fun f => bool_decide (entityFile f <> None)) files)).

(** ** Service worker message handlers *)

Record CheckStatusResponse := mkCheckStatus {
  isTransferred : bool;
  statusTransferInfo : option TransferredEmail
}.

Record CheckStatusByFilenameResponse := mkCheckStatusByFilename {
  isInBoringTax : bool;
  isTransferredByExtension : bool;
  transferInfo : option TransferredEmail
}.

Record GenericResponse := mkGeneric {
  success : bool;
  error : option string
}.

(** [new Set(xs)] followed by spreading: insertion order, first occurrence
    kept. *)
Fixpoint setAddAll (seen xs : list string) : list string :=
  match xs with
  | [] => seen
  | x :: rest =>
      setAddAll (if bool_decide (x ∈ seen) then seen else seen ++ [x]) rest
  end.

Definition setSpread (xs : list string) : list string := setAddAll [] xs.

Module worker.

Definition handleCheckStatus (id : string) (st : ExtendedStorageData)
    : CheckStatusResponse :=
  let info := storage.getTransferredEmail id st in
  {| isTransferred := bool_decide (info <> None); statusTransferInfo := info |}.


Definition handleRemoveTransferred (id : string) (st : ExtendedStorageData)
    : ExtendedStorageData * GenericResponse :=
  (storage.removeTransferredEmail id st, {| success := true; error := None |}).

Definition handleCheckStatusByFilename (name : string)
    (st : ExtendedStorageData) : CheckStatusByFilenameResponse :=
  let info := storage.isFileTransferredByName name st in
  let inBoringTax := storage.isFileInBoringTax name st in
  {| isInBoringTax := inBoringTax || bool_decide (info <> None);
     isTransferredByExtension := bool_decide (info <> None);
     transferInfo := info |}.

Definition handleGetBoringTaxFiles (st : ExtendedStorageData)
    : list string * string := storage.getBoringTaxFiles st.

Section Sorted.
Variable sortByDateDesc : list TransferredEmail -> list TransferredEmail.

Definition handleGetTransferredList (st : ExtendedStorageData)
    : list TransferredEmail := storage.getTransferredEmails sortByDateDesc st.

(** [files] is the result of [apiClient.getFiles()], [now] the time stamp
    taken by [saveBoringTaxFiles]. *)
Definition handleSyncBoringTaxFiles (files : list FileSystemEntityDTO)
    (now : string) (st : ExtendedStorageData)
    : ExtendedStorageData * GenericResponse :=
  let settings := storage.getSettings st in
  if negb (storage.isConfigured settings) then
    (st, {| success := false; error := Some "API nicht konfiguriert" |})
  else
    let fileNames := getFileNames files in
    let transferred := storage.getTransferredEmails sortByDateDesc st in
    let allFileNames := setSpread (fileNames ++ List.map fileName transferred) in
    (storage.saveBoringTaxFiles allFileNames now st,
     {| success := true; error := None |}).

End Sorted.

End worker.

(** ** The host document *)

(** A DOM node: a text node or an element with its tag (lower case), its
    class list, its other attributes and its child nodes. *)
Inductive Node :=
| Text (data : string)
| Elem (tag : string) (classes : list string)
       (attrs : list (string * string)) (children : list Node).

(** A node of the live document is addressed by the child indices that lead
    to it from the root. *)
Definition path := list nat.

Module Dom.

Fixpoint textContent (n : Node) : string :=
  match n with
  | Text s => s
  | Elem _ _ _ cs =>
      (fix all (l : list Node) : string :=
         match l with
         | [] => ""
         | c :: l' => textContent c +:+ all l'
         end) cs
  end.

Fixpoint lookupAttr (name : string) (l : list (string * string)) : option string :=
  match l with
  | [] => None
  | (k, v) :: l' => if String.eqb k name then Some v else lookupAttr name l'
  end.

Definition getAttribute (name : string) (n : Node) : option string :=
  match n with
  | Text _ => None
  | Elem _ _ attrs _ => lookupAttr name attrs
  end.

Fixpoint storeAttr (name value : string) (l : list (string * string))
    : list (string * string) :=
  match l with
  | [] => [(name, value)]
  | (k, v) :: l' =>
      if String.eqb k name then (k, value) :: l' else (k, v) :: storeAttr name value l'
  end.

Definition setAttribute (name value : string) (n : Node) : Node :=
  match n with
  | Text _ => n
  | Elem t cl attrs cs => Elem t cl (storeAttr name value attrs) cs
  end.

Definition classListContains (c : string) (n : Node) : bool :=
  match n with
  | Text _ => false
  | Elem _ cl _ _ => existsb (String.eqb c) cl
  end.

Definition classListAdd (c : string) (n : Node) : Node :=
  match n with
  | Text _ => n
  | Elem t cl attrs cs =>
      if existsb (String.eqb c) cl then n else Elem t (cl ++ [c]) attrs cs
  end.

Definition appendChild (child : Node) (n : Node) : Node :=
  match n with
  | Text _ => n
  | Elem t cl attrs cs => Elem t cl attrs (cs ++ [child])
  end.

Definition isElement (n : Node) : bool :=
  match n with Text _ => false | Elem _ _ _ _ => true end.

Fixpoint nodeAt (p : path) (n : Node) : option Node :=
  match p with
  | [] => Some n
  | i :: p' =>
      match n with
      | Text _ => None
      | Elem _ _ _ cs => cs !! i ≫= nodeAt p'
      end
  end.

(** The ancestor elements of the node at [p], nearest first. *)
Fixpoint ancestorsAt (acc : list Node) (p : path) (n : Node) : list Node :=
  match p with
  | [] => acc
  | i :: p' =>
      match n with
      | Text _ => acc
      | Elem _ _ _ cs =>
          match cs !! i with
          | Some c => ancestorsAt (n :: acc) p' c
          | None => acc
          end
      end
  end.

Fixpoint updateAt (p : path) (f : Node -> Node) (n : Node) : Node :=
  match p with
  | [] => f n
  | i :: p' =>
      match n with
      | Text _ => n
      | Elem t cl attrs cs => Elem t cl attrs (alter (updateAt p' f) i cs)
      end
  end.

(** [parent.insertBefore(new, ref.nextSibling)] for the node [ref] at [p];
    the root has no parent. *)
Fixpoint insertAfter (p : path) (new : Node) (n : Node) : Node :=
  match p with
  | [] => n
  | [i] =>
      match n with
      | Text _ => n
      | Elem t cl attrs cs => Elem t cl attrs (take (S i) cs ++ new :: drop (S i) cs)
      end
  | i :: p' =>
      match n with
      | Text _ => n
      | Elem t cl attrs cs => Elem t cl attrs (alter (insertAfter p' new) i cs)
      end
  end.

(** *** Selectors *)

Inductive simple :=
| byClass (c : string)
| byTag (t : string)
| hasAttr (name : string)
| attrContains (name value : string).

(** A compound selector is a conjunction of simple ones; a complex selector
    is a chain of compounds joined by descendant combinators, written left
    to right; a selector list is a comma-separated list of those. *)
Definition compound := list simple.
Definition complex := list compound.
Definition selector := list complex.

Definition matchSimple (n : Node) (s : simple) : bool :=
  match n with
  | Text _ => false
  | Elem t cl attrs _ =>
      match s with
      | byClass c => existsb (String.eqb c) cl
      | byTag t' => String.eqb t t'
      | hasAttr a => bool_decide (lookupAttr a attrs <> None)
      | attrContains a v =>
          match lookupAttr a attrs with
          | Some x => includes v x
          | None => false
          end
      end
  end.

Definition matchCompound (n : Node) (c : compound) : bool :=
  isElement n && forallb (matchSimple n) c.

(** [ups] are the compounds that remain to be found among the ancestors
    [anc], nearest first. *)
Fixpoint matchAncestors (anc : list Node) (ups : list compound) : bool :=
  match ups with
  | [] => true
  | u :: ups' =>
      match anc with
      | [] => false
      | a :: anc' =>
          if matchCompound a u then matchAncestors anc' ups'
          else matchAncestors anc' ups
      end
  end.

Definition matchComplex (anc : list Node) (n : Node) (s : complex) : bool :=
  match rev s with
  | [] => false
  | key :: ups => matchCompound n key && matchAncestors anc ups
  end.

Definition matches (sel : selector) (anc : list Node) (n : Node) : bool :=
  existsb (matchComplex anc n) sel.

(** A node found in the tree: its path, its ancestors and the node. *)
Record Located := mkLocated {
  locPath : path;
  locAncestors : list Node;
  locNode : Node
}.

(** The subtree rooted at [n] in document order, [n] first. *)
Fixpoint walk (anc : list Node) (here : path) (n : Node) : list Located :=
  mkLocated here anc n ::
  match n with
  | Text _ => []
  | Elem _ _ _ cs =>
      (fix kids (i : nat) (l : list Node) : list Located :=
         match l with
         | [] => []
         | c :: l' => (walk (n :: anc) (here ++ [i]) c ++ kids (S i) l')%list
         end) 0 cs
  end.

(** [element.querySelectorAll(sel)]: proper descendants only. *)
Definition querySelectorAll (sel : selector) (anc : list Node) (n : Node)
    : list Located :=
  List.filter (fun l => matches sel (locAncestors l) (locNode l))
              (tail (walk anc [] n)).

Definition querySelector (sel : selector) (anc : list Node) (n : Node)
    : option Located := head (querySelectorAll sel anc n).

(** [document.querySelectorAll(sel)]: the root element included. *)
Definition documentQuerySelectorAll (sel : selector) (doc : Node) : list Located :=
  List.filter (fun l => matches sel (locAncestors l) (locNode l)) (walk [] [] doc).

Definition documentQuerySelector (sel : selector) (doc : Node) : option Located :=
  head (documentQuerySelectorAll sel doc).

(** The number of nodes of the tree that satisfy [P]. *)
Fixpoint count (P : Node -> bool) (n : Node) : nat :=
  (if P n then 1 else 0) +
  match n with
  | Text _ => 0
  | Elem _ _ _ cs =>
      (fix sum (l : list Node) : nat :=
         match l with
         | [] => 0
         | c :: l' => count P c + sum l'
         end) cs
  end.

End Dom.

(** ** Content script ([content/gmail_content.ts]) *)

(** What the page and the browser supply to the content script. *)
Record Host := mkHost {
  (** [window.location.hash] *)
  location_hash : string;
  (** [Date.now()] *)
  Date_now : N;
  (** [new Date(d).toLocaleString('de-DE')] *)
  toLocaleString_deDE : string -> string;
  (** whether [getBoundingClientRect()] of the node at the given path of the
      given document has zero width or height *)
  zeroSized : Node -> path -> bool
}.

(** The outcome of a [sendMessage] round trip. *)
Inductive Result (A : Type) :=
| Resolved (response : A)
| Rejected (reason : string).
Arguments Resolved {A} response.
Arguments Rejected {A} reason.

(** The two status queries of the reconciler, as seen from the page. *)
Record Channel := mkChannel {
  CHECK_STATUS_BY_FILENAME : string -> Result CheckStatusByFilenameResponse;
  CHECK_STATUS : string -> Result CheckStatusResponse
}.

Module content.
Import Dom.

Definition ATTACHMENT_NAME : selector :=
  [ [[byClass "aV3"]];
    [[byClass "aQA"]; [byTag "span"]];
    [[attrContains "data-tooltip" ".pdf"]];
    [[byClass "aZi"]; [byTag "span"]];
    [[byTag "span"; attrContains "title" ".pdf"]];
    [[byClass "aQA"]];
    [[byClass "aSG"]; [byTag "span"]];
    [[byClass "aZc"]] ].

Definition EMAIL_SUBJECT : selector :=
  [ [[byClass "hP"]];
    [[hasAttr "data-thread-perm-id"]; [byTag "h2"]];
    [[byClass "ha"]; [byTag "h2"]] ].

Definition MESSAGE_CONTAINER : selector :=
  [ [[hasAttr "data-message-id"]]; [[hasAttr "data-legacy-message-id"]] ].

Definition UPLOAD_BUTTON : string := "grm-upload-btn".
Definition STATUS_BADGE : string := "grm-status-badge".
Definition PROCESSED : string := "grm-processed".

(** *** Regular expressions *)

(** The longest prefix of [s] whose characters satisfy [P], and the rest. *)
Fixpoint span (P : ascii -> bool) (s : string) : string * string :=
  match s with
  | EmptyString => (EmptyString, EmptyString)
  | String c s' =>
      if P c then let '(a, b) := span P s' in (String c a, b)
      else (EmptyString, s)
  end.

Definition notSlash (c : ascii) : bool := negb (Ascii.eqb c "/").

(** [/#[^/]+\/([^/]+)/] tried right after a ["#"]: the capture group. *)
Definition hashMatchHere (s : string) : option string :=
  let '(run, rest) := span notSlash s in
  if truthy run then
    match rest with
    | String "/" r =>
        let '(group, _) := span notSlash r in
        if truthy group then Some group else None
    | _ => None
    end
  else None.

(** [hash.match(/#[^/]+\/([^/]+)/)]: group 1 of the leftmost match. *)
Fixpoint hashMatch (s : string) : option string :=
  match s with
  | EmptyString => None
  | String c s' =>
      if Ascii.eqb c "#" then
        match hashMatchHere s' with
        | Some g => Some g
        | None => hashMatch s'
        end
      else hashMatch s'
  end.

Definition isAlnum (c : ascii) : bool :=
  let n := nat_of_ascii c in
  (((48 <=? n) && (n <=? 57)) || ((65 <=? n) && (n <=? 90))
   || ((97 <=? n) && (n <=? 122)))%nat.

(** [s.replace(/[^a-zA-Z0-9]/g, '')] *)
Fixpoint keepAlnum (s : string) : string :=
  match s with
  | EmptyString => EmptyString
  | String c s' => if isAlnum c then String c (keepAlnum s') else keepAlnum s'
  end.

(** The class [[\w\-_.]]. *)
Definition isNameChar (c : ascii) : bool :=
  isAlnum c || Ascii.eqb c "_" || Ascii.eqb c "-" || Ascii.eqb c ".".

(** [\.pdf] under the [i] flag, at the start of [s]: the four characters
    read. *)
Definition dotPdfHere (s : string) : option string :=
  match s with
  | String a (String b (String c (String d _))) =>
      if String.eqb (toLowerCase (String a (String b (String c (String d ""))))) ".pdf"
      then Some (String a (String b (String c (String d ""))))
      else None
  | _ => None
  end.

(** The longest prefix of [s] that ends with [.pdf] (any letter case). *)
Fixpoint longestPdfPrefix (s : string) : option string :=
  match s with
  | EmptyString => None
  | String c s' =>
      match longestPdfPrefix s' with
      | Some m => Some (String c m)
      | None => dotPdfHere s
      end
  end.

(** [/[\w\-_.]+\.pdf/i] tried at the start of [s]: the greedy run of name
    characters, given back until [.pdf] follows at least one of them. *)
Definition pdfMatchHere (s : string) : option string :=
  match fst (span isNameChar s) with
  | EmptyString => None
  | String c run => String c <$> longestPdfPrefix run
  end.

(** [s.match(/[\w\-_.]+\.pdf/i)]: the text of the leftmost match. *)
Fixpoint pdfMatch (s : string) : option string :=
  match s with
  | EmptyString => None
  | String _ s' =>
      match pdfMatchHere s with
      | Some m => Some m
      | None => pdfMatch s'
      end
  end.

(** *** Identity of the open message *)

Definition extractEmailId (h : Host) (doc : Node) : option string :=
  match hashMatch (location_hash h) with
  | Some id => Some id
  | None =>
      match documentQuerySelector MESSAGE_CONTAINER doc with
      | Some messageContainer =>
          getAttribute "data-message-id" (locNode messageContainer)
      | None =>
          Some ("gmail-" +:+ ofN (Date_now h) +:+ "-"
                +:+ keepAlnum (location_hash h))
      end
  end.

Definition extractEmailSubject (doc : Node) : option string :=
  match documentQuerySelector EMAIL_SUBJECT doc with
  | Some subjectElement =>
      let t := textContent (locNode subjectElement) in
      if truthy t then Some t else None
  | None => None
  end.

(** *** Classification and filename extraction *)

(** The five signals an attachment element can expose. *)
Inductive Signal := NameElement | DataTooltip | TitleAttr | AriaLabel | AllText.

Definition attributeOf (s : Signal) : string :=
  match s with
  | DataTooltip => "data-tooltip"
  | TitleAttr => "title"
  | AriaLabel => "aria-label"
  | _ => ""
  end.

(** The raw text of a signal, [None] when the element does not expose it. *)
Definition signalText (s : Signal) (anc : list Node) (attachment : Node)
    : option string :=
  match s with
  | NameElement =>
      (fun l => textContent (locNode l)) <$> querySelector ATTACHMENT_NAME anc attachment
  | AllText => Some (textContent attachment)
  | _ => getAttribute (attributeOf s) attachment
  end.

(** The test each method of [isPdfAttachment] performs on its signal. *)
Definition pdfSignal (s : Signal) (anc : list Node) (attachment : Node) : bool :=
  let text := toLowerCase (default "" (signalText s anc attachment)) in
  match s with
  | NameElement => endsWith ".pdf" text
  | AllText => includes ".pdf" text
  | _ => endsWith ".pdf" text || includes ".pdf" text
  end.

(** Methode 1 to 5 of [isPdfAttachment], in the order of the source. *)
Definition isPdfAttachment_methods : list Signal :=
  [NameElement; DataTooltip; TitleAttr; AllText; AriaLabel].

Definition isPdfAttachment (anc : list Node) (attachment : Node) : bool :=
  existsb (fun s => pdfSignal s anc attachment) isPdfAttachment_methods.

(** What each method of [getAttachmentFileName] returns when it applies. *)
Definition nameSignal (s : Signal) (anc : list Node) (attachment : Node)
    : option string :=
  match s with
  | AllText => pdfMatch (default "" (signalText s anc attachment))
  | _ =>
      match signalText s anc attachment with
      | Some text => if includes ".pdf" text then Some (trim text) else None
      | None => None
      end
  end.

(** Methode 1 to 5 of [getAttachmentFileName], in the order of the source. *)
Definition getAttachmentFileName_methods : list Signal :=
  [NameElement; DataTooltip; TitleAttr; AriaLabel; AllText].

Fixpoint firstResult {A} (probe : Signal -> option A) (l : list Signal)
    : option (Signal * A) :=
  match l with
  | [] => None
  | s :: l' =>
      match probe s with
      | Some r => Some (s, r)
      | None => firstResult probe l'
      end
  end.

Definition getAttachmentFileName (anc : list Node) (attachment : Node) : string :=
  match firstResult (fun s => nameSignal s anc attachment)
                    getAttachmentFileName_methods with
  | Some (_, name) => name
  | None => "document.pdf"
  end.

(** The method whose [return] decides each function, [None] for the final
    [return] after the cascade. *)
Definition isPdfAttachment_decidedBy (anc : list Node) (attachment : Node)
    : option Signal :=
  List.find (fun s => pdfSignal s anc attachment) isPdfAttachment_methods.

Definition getAttachmentFileName_decidedBy (anc : list Node) (attachment : Node)
    : option Signal :=
  fst <$> firstResult (fun s => nameSignal s anc attachment)
                      getAttachmentFileName_methods.

(** *** Injected nodes *)

(** A line break followed by [k] spaces, as the template literals of the
    source lay out their markup. *)
Definition indent (k : nat) : string :=
  String (ascii_of_nat 10) (String.string_of_list_ascii (replicate k " "%char)).

Definition svgIcon (size : string) (shapes : list Node) (close : nat) : Node :=
  Elem "svg" []
    [("width", size); ("height", size); ("viewBox", "0 0 24 24");
     ("fill", "none"); ("stroke", "currentColor"); ("stroke-width", "2")]
    (flat_map (fun sh => [Text (indent (close + 2)); sh]) shapes
       ++ [Text (indent close)]).

Definition uploadIcon : Node :=
  svgIcon "16"
    [ Elem "path" [] [("d", "M21 15v4a2 2 0 0 1-2 2H5a2 2 0 0 1-2-2v-4")] [];
      Elem "polyline" [] [("points", "17 8 12 3 7 8")] [];
      Elem "line" [] [("x1", "12"); ("y1", "3"); ("x2", "12"); ("y2", "15")] [] ]
    4.

Definition checkIcon : Node :=
  svgIcon "14" [ Elem "polyline" [] [("points", "20 6 9 17 4 12")] [] ] 4.

(** [createUploadButton]: the button element; its click and key handlers
    start the upload and are not part of the node. *)
Definition createUploadButton (anc : list Node) (attachment : Node)
    (id : string) (subj : option string) : Node :=
  let name := getAttachmentFileName anc attachment in
  Elem "button" [UPLOAD_BUTTON]
    [("data-filename", name);
     ("data-email-id", id);
     ("title", "An Buchhaltung senden");
     ("aria-label", "Rechnung an Buchhaltung senden");
     ("tabindex", "0")]
    [Text (indent 4); uploadIcon; Text (indent 4);
     Elem "span" [] [] [Text "Senden"]; Text (indent 2)].

(** [createStatusBadge]; U+00DC and U+00FC are the umlauts of the labels. *)
Definition createStatusBadge (h : Host) (date : option string) : Node :=
  let U := String (ascii_of_nat 220) "" in
  let u := String (ascii_of_nat 252) "" in
  Elem "span" [STATUS_BADGE]
    [("title",
      match date with
      | Some d =>
          if truthy d then U +:+ "bertragen am " +:+ toLocaleString_deDE h d
          else "Bereits an Buchhaltung " +:+ u +:+ "bertragen"
      | None => "Bereits an Buchhaltung " +:+ u +:+ "bertragen"
      end)]
    [Text (indent 4); checkIcon; Text (indent 4);
     Elem "span" [] [] [Text (U +:+ "bertragen")]; Text (indent 2)].

(** *** Processing one attachment element *)

Inductive Outcome :=
| AlreadyProcessed      (* the node carries the processed marker *)
| AlreadyDecorated      (* a button or badge sits inside the node *)
| NotPdf
| ButtonExistsForFile   (* a button elsewhere carries the same file name *)
| NoEmailId
| BadgeAdded
| ButtonAdded
| ButtonAddedFallback.  (* the status check was rejected *)

(** [findButtonContainer]: the path, below the attachment, of the node that
    receives the injected element. *)
Definition findButtonContainer (anc : list Node) (attachment : Node) : path :=
  let containerSelectors := ["aQy"; "aZi"; "aQA"; "aSG"] in
  default []
    (head (omap (fun c => locPath <$> querySelector [[[byClass c]]] anc attachment)
                containerSelectors)).

(** [insertElement]: append to the container; when the appended node has no
    rendered size and the attachment has a parent, move it right after the
    attachment. *)
Definition insertElement (h : Host) (element : Node) (p : path)
    (anc : list Node) (attachment : Node) (doc : Node) : Node :=
  let target := (p ++ findButtonContainer anc attachment)%list in
  let appended := updateAt target (appendChild element) doc in
  let position :=
    (target ++ [length (match nodeAt target doc with
                        | Some (Elem _ _ _ cs) => cs
                        | _ => []
                        end)])%list in
  if zeroSized h appended position && bool_decide (p <> [])
  then insertAfter p element doc
  else appended.

(** The date shown on a badge:
    [filenameStatus.transferInfo?.transferDate || emailStatus.transferInfo?.transferDate]. *)
Definition badgeDate (byName : CheckStatusByFilenameResponse)
    (byId : CheckStatusResponse) : option string :=
  match transferDate <$> transferInfo byName with
  | Some d => if truthy d then Some d else transferDate <$> statusTransferInfo byId
  | None => transferDate <$> statusTransferInfo byId
  end.

(** The status check of [processAttachment]: both round trips, the second
    only after the first resolved. *)
Definition checkStatus (ch : Channel) (name id : string)
    : Result (CheckStatusByFilenameResponse * CheckStatusResponse) :=
  match CHECK_STATUS_BY_FILENAME ch name with
  | Rejected e => Rejected e
  | Resolved filenameStatus =>
      match CHECK_STATUS ch id with
      | Rejected e => Rejected e
      | Resolved emailStatus => Resolved (filenameStatus, emailStatus)
      end
  end.

(** What [processAttachment] has established about a node when it reaches
    the status check: the document with the node marked, the node and its
    ancestors, the extracted file name, the identity and subject of the open
    message. *)
Record Candidate := mkCandidate {
  candDocument : Node;
  candAncestors : list Node;
  candNode : Node;
  candFileName : string;
  candEmailId : string;
  candSubject : option string
}.

Inductive Prepared :=
| Skipped (doc : Node) (o : Outcome)
| Ready (c : Candidate).

(** The synchronous first half of [processAttachment], for the element at
    path [p]; [None] when [p] does not lead to an element. *)
Definition prepare (h : Host) (p : path) (doc : Node) : option Prepared :=
  match nodeAt p doc with
  | None | Some (Text _) => None
  | Some attachment =>
      let anc := ancestorsAt [] p doc in
      if classListContains PROCESSED attachment then
        Some (Skipped doc AlreadyProcessed)
      else if bool_decide (querySelector [[[byClass UPLOAD_BUTTON]]] anc attachment <> None)
              || bool_decide (querySelector [[[byClass STATUS_BADGE]]] anc attachment <> None)
      then Some (Skipped (updateAt p (classListAdd PROCESSED) doc) AlreadyDecorated)
      else if negb (isPdfAttachment anc attachment) then
        Some (Skipped doc NotPdf)
      else
        let name := getAttachmentFileName anc attachment in
        let existingButtons := documentQuerySelectorAll [[[byClass UPLOAD_BUTTON]]] doc in
        if existsb
             (fun btn => bool_decide (getAttribute "data-filename" (locNode btn) = Some name))
             existingButtons
        then Some (Skipped (updateAt p (classListAdd PROCESSED) doc) ButtonExistsForFile)
        else
          let doc1 := updateAt p (classListAdd PROCESSED) doc in
          match extractEmailId h doc1 with
          | None => Some (Skipped doc1 NoEmailId)
          | Some id =>
              if negb (truthy id) then Some (Skipped doc1 NoEmailId)
              else
                Some (Ready {| candDocument := doc1;
                               candAncestors := anc;
                               candNode := classListAdd PROCESSED attachment;
                               candFileName := name;
                               candEmailId := id;
                               candSubject := extractEmailSubject doc1 |})
          end
  end.

(** The second half: the status check and the injection it leads to. *)
Definition render (h : Host) (ch : Channel) (p : path) (c : Candidate)
    : Node * Outcome :=
  let insert element :=
    insertElement h element p (candAncestors c) (candNode c) (candDocument c) in
  let button :=
    createUploadButton (candAncestors c) (candNode c) (candEmailId c) (candSubject c) in
  match checkStatus ch (candFileName c) (candEmailId c) with
  | Resolved (filenameStatus, emailStatus) =>
      if isInBoringTax filenameStatus || isTransferred emailStatus then
        (insert (createStatusBadge h (badgeDate filenameStatus emailStatus)), BadgeAdded)
      else (insert button, ButtonAdded)
  | Rejected _ => (insert button, ButtonAddedFallback)
  end.

Definition processAttachment (h : Host) (ch : Channel) (p : path) (doc : Node)
    : option (Node * Outcome) :=
  match prepare h p doc with
  | None => None
  | Some (Skipped doc' o) => Some (doc', o)
  | Some (Ready c) => Some (render h ch p c)
  end.

End content.

(** ** The page talking to the service worker over a given storage *)

Definition serviceWorker (st : ExtendedStorageData) : Channel :=
  {| CHECK_STATUS_BY_FILENAME := fun name =>
       Resolved (worker.handleCheckStatusByFilename name st);
     CHECK_STATUS := fun id => Resolved (worker.handleCheckStatus id st) |}.

(** A channel whose round trips are rejected. *)
Definition unreachableWorker (reason : string) : Channel :=
  {| CHECK_STATUS_BY_FILENAME := fun _ => Rejected reason;
     CHECK_STATUS := fun _ => Rejected reason |}.

(** * The rest of the extension *)

(** The umlaut U+00FC of the German messages. *)
Definition uuml : string := String (ascii_of_nat 252) "".

(** ** API client: requests *)

Module apiClient.

(** What a [fetch] came to: it threw, or it produced a response with its
    [ok] flag, its status and the outcome of [response.json()]. *)
Inductive Fetched (A : Type) :=
| NetworkFailure (message : string)
| Responded (ok : bool) (status : N) (json : Result A).
Arguments NetworkFailure {A} message.
Arguments Responded {A} ok status json.

(** [getFiles]: [primary] is the request to [/file/list], [alt] the one to
    [/files], made only when the first response is not ok.  A failing
    [fetch] and two responses that are not ok give the empty list; the
    promise of [response.json()] is returned without [await], so its
    rejection is the rejection of [getFiles]. *)
Definition getFiles (primary alt : Fetched (list FileSystemEntityDTO))
    : Result (list FileSystemEntityDTO) :=
  match primary with
  | NetworkFailure _ => Resolved []
  | Responded true _ json => json
  | Responded false _ _ =>
      match alt with
      | NetworkFailure _ => Resolved []
      | Responded true _ json => json
      | Responded false _ _ => Resolved []
      end
  end.

End apiClient.

(** ** Service worker: handlers that reach the backend *)

Record UploadPayload := mkUploadPayload {
  payloadFileName : string;
  payloadFileData : string;
  payloadEmailId : string;
  payloadSubject : option string
}.

Record UploadResponse := mkUploadResponse {
  uploadSuccess : bool;
  uploadFileId : option string;
  uploadError : option string
}.

Module background.

(** [handleUploadPdf]: [upload] is the outcome of
    [apiClient.uploadFileFromBase64], the [id] of each returned entity
    ([null] as [None]); [now] is [new Date().toISOString()]. *)
Definition handleUploadPdf (payload : UploadPayload)
    (upload : Result (list (option string))) (now : string)
    (st : ExtendedStorageData) : ExtendedStorageData * UploadResponse :=
  let settings := storage.getSettings st in
  if negb (storage.isConfigured settings) then
    (st, {| uploadSuccess := false; uploadFileId := None;
            uploadError := Some ("API nicht konfiguriert. Bitte Einstellungen pr"
                                 +:+ uuml +:+ "fen.") |})
  else
    match upload with
    | Rejected message =>
        (st, {| uploadSuccess := false; uploadFileId := None;
                uploadError := Some message |})
    | Resolved [] =>
        (st, {| uploadSuccess := false; uploadFileId := None;
                uploadError := Some "Upload fehlgeschlagen - keine Antwort vom Server" |})
    | Resolved (uploadedFileId' :: _) =>
        let fileId := default "" uploadedFileId' in
        let transferredEmail :=
          {| emailId := payloadEmailId payload;
             fileName := payloadFileName payload;
             uploadedFileId := fileId;
             transferDate := now;
             subject := payloadSubject payload |} in
        (storage.addTransferredEmail transferredEmail st,
         {| uploadSuccess := true; uploadFileId := Some fileId; uploadError := None |})
    end.

(** [handleSaveSettings]: [connected] is the result of
    [apiClient.testConnection()], asked for only when both values are set. *)
Definition handleSaveSettings (key org : string) (connected : bool)
    (st : ExtendedStorageData) : ExtendedStorageData * GenericResponse :=
  let st' := storage.saveSettings key org st in
  if truthy key && truthy org then
    if negb connected then
      (st', {| success := true;
               error := Some "Einstellungen gespeichert, aber API-Verbindung konnte nicht verifiziert werden." |})
    else (st', {| success := true; error := None |})
  else (st', {| success := true; error := None |}).

Section Sorted.
Variable sortByDateDesc : list TransferredEmail -> list TransferredEmail.

(** [handleSyncBoringTaxFiles] with the two requests of [getFiles] as its
    inputs: a rejection of the listing is caught and reported. *)
Definition handleSyncBoringTaxFiles
    (primary alt : apiClient.Fetched (list FileSystemEntityDTO))
    (now : string) (st : ExtendedStorageData)
    : ExtendedStorageData * GenericResponse :=
  if negb (storage.isConfigured (storage.getSettings st)) then
    (st, {| success := false; error := Some "API nicht konfiguriert" |})
  else
    match apiClient.getFiles primary alt with
    | Rejected message => (st, {| success := false; error := Some message |})
    | Resolved files => worker.handleSyncBoringTaxFiles sortByDateDesc files now st
    end.

End Sorted.

End background.

(** ** Options page *)

Inductive StatusType := StatusSuccess | StatusError | StatusInfo.

Module options.

(** [saveSettings] of the options page, with the round trip to the service
    worker resolving: the new storage and the status message shown. *)
Definition saveSettings (apiKeyInput orgIdInput : string) (connected : bool)
    (st : ExtendedStorageData) : ExtendedStorageData * (string * StatusType) :=
  let key := trim apiKeyInput in
  let org := trim orgIdInput in
  if negb (truthy key) || negb (truthy org) then
    (st, ("Bitte f" +:+ uuml +:+ "lle alle Felder aus", StatusError))
  else
    let '(st', response) := background.handleSaveSettings key org connected st in
    if success response then
      match error response with
      | Some warning =>
          if truthy warning then (st', (warning, StatusInfo))
          else (st', ("Einstellungen erfolgreich gespeichert", StatusSuccess))
      | None => (st', ("Einstellungen erfolgreich gespeichert", StatusSuccess))
      end
    else
      (st', (match error response with
             | Some e => if truthy e then e else "Fehler beim Speichern"
             | None => "Fehler beim Speichern"
             end, StatusError)).

Section Sorted.
Variable sortByDateDesc : list TransferredEmail -> list TransferredEmail.

(** [clearAllTransferred]: [confirmed] is the answer to the [confirm]
    dialog; the list is fetched once, then every entry is removed by its
    email id. *)
Definition clearAllTransferred (confirmed : bool) (st : ExtendedStorageData)
    : ExtendedStorageData :=
  if negb confirmed then st
  else
    let emails := worker.handleGetTransferredList sortByDateDesc st in
    fold_left (fun s email => fst (worker.handleRemoveTransferred (emailId email) s))
              emails st.

End Sorted.

End options.

(** ** Popup *)

Module popup.

(** Template-literal rendering of an integer. *)
Definition ofZ (z : Z) : string :=
  if (z <? 0)%Z then "-" +:+ ofN (Z.abs_N z) else ofN (Z.to_N z).

(** [formatRelativeDate]: [now] and [date] are the [getTime()] values of
    the two dates, [None] for the [NaN] of an invalid date, and [localized]
    is what [toLocaleDateString] gives for the date. *)
Definition formatRelativeDate (now : Z) (date : option Z) (localized : string)
    : string :=
  match date with
  | None => localized
  | Some d =>
      let diffMs := (now - d)%Z in
      let diffMins := (diffMs / 60000)%Z in
      let diffHours := (diffMs / 3600000)%Z in
      let diffDays := (diffMs / 86400000)%Z in
      if (diffMins <? 1)%Z then "Gerade eben"
      else if (diffMins <? 60)%Z then "Vor " +:+ ofZ diffMins +:+ " Min."
      else if (diffHours <? 24)%Z then "Vor " +:+ ofZ diffHours +:+ " Std."
      else if (diffDays <? 7)%Z then
        "Vor " +:+ ofZ diffDays +:+ " Tag" +:+ (if (1 <? diffDays)%Z then "en" else "")
      else localized
  end.

End popup.

(** ** Content script: the message channel *)

Module messaging.

(** What [chrome.runtime] did with a message: the extension context was
    gone before the call, [sendMessage] threw, or the callback ran with
    [lastError] ([None] when unset, else its optional message) and a
    response. *)
Inductive Runtime (A : Type) :=
| NoRuntimeId
| SendThrew
| CalledBack (lastError : option (option string)) (response : A).
Arguments NoRuntimeId {A}.
Arguments SendThrew {A}.
Arguments CalledBack {A} lastError response.

Definition RELOADED : string :=
  "Extension wurde neu geladen. Bitte die Seite aktualisieren (F5).".

(** [sendMessage] of the content script. *)
Definition sendMessage {A} (r : Runtime A) : Result A :=
  match r with
  | NoRuntimeId => Rejected RELOADED
  | SendThrew => Rejected RELOADED
  | CalledBack (Some message) _ =>
      let errorMsg :=
        match message with
        | Some m => if truthy m then m else "Unbekannter Fehler"
        | None => "Unbekannter Fehler"
        end in
      if includes "Extension context invalidated" errorMsg
         || includes "Receiving end does not exist" errorMsg
      then Rejected RELOADED
      else Rejected errorMsg
  | CalledBack None response => Resolved response
  end.

(** The test by which the upload handler tells a reloaded extension from
    other failures: the button then asks for a page reload and is not
    reset. *)
Definition asksForReload (errorMessage : string) : bool :=
  includes "neu geladen" errorMessage || includes "aktualisieren" errorMessage.

End messaging.

(** ** Content script: download link, view detection *)

Module gmail.
Import Dom content.

(** [el.closest(sel)] for a selector that looks at the element only, given
    as the test [m]: the element itself or its nearest ancestor that
    matches, together with the ancestors of the result; [el.parentElement]
    likewise. *)
Fixpoint closestAmong (m : Node -> bool) (anc : list Node) : option (list Node * Node) :=
  match anc with
  | [] => None
  | a :: anc' => if m a then Some (anc', a) else closestAmong m anc'
  end.

Definition closest (m : Node -> bool) (anc : list Node) (n : Node)
    : option (list Node * Node) :=
  if m n then Some (anc, n) else closestAmong m anc.

Definition parentElement (anc : list Node) : option (list Node * Node) :=
  match anc with
  | [] => None
  | a :: anc' => Some (anc', a)
  end.

(** [link?.getAttribute('href')] when that is truthy. *)
Definition hrefOf (link : option Located) : option string :=
  match link with
  | Some l =>
      match getAttribute "href" (locNode l) with
      | Some href => if truthy href then Some href else None
      | None => None
      end
  | None => None
  end.

Definition gmailDownloadSelectors : list selector :=
  [ [[[byTag "a"; attrContains "href" "mail.google.com"; attrContains "href" "&attid="]]];
    [[[byTag "a"; attrContains "href" "mail-attachment.googleusercontent.com"]]];
    [[[byTag "a"; attrContains "href" "&view=att"]]];
    [[[byTag "a"; attrContains "href" "attachment"]]];
    [[[byTag "a"; attrContains "data-tooltip" "Herunterladen"]]];
    [[[byTag "a"; attrContains "data-tooltip" "Download"]]];
    [[[byTag "a"; attrContains "aria-label" "Herunterladen"]]];
    [[[byTag "a"; attrContains "aria-label" "Download"]]];
    [[[byTag "span"; hasAttr "download"]; [byTag "a"]]];
    [[[byClass "aQy"]; [byTag "a"; hasAttr "href"]]];
    [[[byClass "aZi"]; [byTag "a"; hasAttr "href"]]] ].

(** The loop over [gmailDownloadSelectors] inside [scope]: the link of the
    first selector whose first match has a truthy [href]. *)
Definition firstHref (anc : list Node) (scope : Node) : option string :=
  head (omap (fun sel => hrefOf (querySelector sel anc scope)) gmailDownloadSelectors).

(** [attachment.closest('.aQH') || attachment.closest('.gs') ||
    attachment.parentElement] *)
Definition parentContainer (anc : list Node) (attachment : Node)
    : option (list Node * Node) :=
  match closest (classListContains "aQH") anc attachment with
  | Some c => Some c
  | None =>
      match closest (classListContains "gs") anc attachment with
      | Some c => Some c
      | None => parentElement anc
      end
  end.

(** The test of Methode 5 on an [href]. *)
Definition looksLikeDownload (href : string) : bool :=
  truthy href
  && (includes "mail.google.com" href
      || includes "googleusercontent.com" href
      || includes "download" href
      || includes "attachment" href
      || includes "attid=" href
      || includes "view=att" href).

(** [a || b] followed by a truthiness test, on attribute values. *)
Definition orElse (a b : option string) : option string :=
  match a with
  | Some v => if truthy v then a else b
  | None => b
  end.

Definition whenTruthy (a : option string) : option string :=
  match a with
  | Some v => if truthy v then a else None
  | None => None
  end.

(** [getAttachmentDownloadUrl]: Methode 1 to 6 in the order of the source;
    [None] is the final [null]. *)
Definition getAttachmentDownloadUrl (anc : list Node) (attachment : Node)
    : option string :=
  match hrefOf (querySelector [[[byTag "a"; attrContains "href" "download"]]]
                              anc attachment) with
  | Some href => Some href
  | None =>
  match hrefOf (querySelector [[[hasAttr "download"]]] anc attachment) with
  | Some href => Some href
  | None =>
  match firstHref anc attachment with
  | Some href => Some href
  | None =>
  match parentContainer anc attachment
        ≫= (fun c => firstHref (fst c) (snd c)) with
  | Some href => Some href
  | None =>
  match head (omap (fun link =>
                      match getAttribute "href" (locNode link) with
                      | Some href => if looksLikeDownload href then Some href else None
                      | None => None
                      end)
                   (querySelectorAll [[[byTag "a"; hasAttr "href"]]] anc attachment)) with
  | Some href => Some href
  | None =>
      whenTruthy
        (orElse (getAttribute "data-url" attachment)
                (querySelector [[[hasAttr "data-url"]]] anc attachment
                 ≫= (fun l => getAttribute "data-url" (locNode l))))
  end end end end end.

(** [/#[^/]+\/[A-Za-z0-9]+/] tried right after a ["#"]. *)
Definition openMatchHere (s : string) : bool :=
  let '(run, rest) := span notSlash s in
  truthy run &&
  match rest with
  | String "/" (String c _) => isAlnum c
  | _ => false
  end.

(** [hash.match(/#[^/]+\/[A-Za-z0-9]+/) !== null] *)
Fixpoint openHashMatch (s : string) : bool :=
  match s with
  | EmptyString => false
  | String c s' => (Ascii.eqb c "#" && openMatchHere s') || openHashMatch s'
  end.

Definition isEmailView (hash : string) : bool :=
  includes "/" hash
  && (openHashMatch hash
      || includes "#inbox/" hash
      || includes "#sent/" hash
      || includes "#all/" hash
      || includes "#starred/" hash
      || includes "#label/" hash).

Definition OPENED_EMAIL : selector :=
  [ [[byClass "adn"; byClass "ads"]]; [[byClass "nH"; byClass "if"]]; [[byClass "h7"]] ].

Definition isInOpenedEmail (h : Host) (doc : Node) : bool :=
  isEmailView (location_hash h)
  && bool_decide (documentQuerySelector OPENED_EMAIL doc <> None).

(** *** Scanning an opened message *)

(** [[role="listitem"]] *)
Definition isListitem (n : Node) : bool :=
  bool_decide (getAttribute "role" n = Some "listitem").

(** ['.aZo, .aQw .aZi, [role="listitem"]'] *)
Definition isAttachmentItem (anc : list Node) (n : Node) : bool :=
  matches [ [[byClass "aZo"]]; [[byClass "aQw"]; [byClass "aZi"]] ] anc n
  || isListitem n.

Definition DOWNLOADABLE : selector :=
  [ [[attrContains "data-tooltip" ".pdf"]];
    [[attrContains "title" ".pdf"]];
    [[byTag "a"; attrContains "href" "download"]];
    [[byTag "a"; attrContains "href" "attachment"]] ].

(** [item.closest('.aZo') || item.closest('[role="listitem"]') ||
    item.parentElement], as a path of the document: an element with [k]
    ancestors sits at the first [k] steps of the path of [item]. *)
Definition attachmentOf (q : path) (anc : list Node) (item : Node) : option path :=
  (fun found : list Node * Node => take (length (fst found)) q) <$>
  match closest (classListContains "aZo") anc item with
  | Some found => Some found
  | None =>
      match closest isListitem anc item with
      | Some found => Some found
      | None => parentElement anc
      end
  end.

(** The state of a pass: the document, and the attachments whose status
    check is under way, each with its path. *)
Definition Pass : Type := Node * list (path * Candidate).

(** A call [processAttachment(el)] that is not awaited: it runs up to its
    first [await], the status check; what follows the check runs after the
    pass. *)
Definition startProcessing (h : Host) (p : path) (s : Pass) : Pass :=
  match prepare h p (fst s) with
  | None => s
  | Some (Skipped doc' _) => (doc', snd s)
  | Some (Ready c) => (candDocument c, (snd s ++ [(p, c)])%list)
  end.

(** The body of the loop over the attachment containers. *)
Definition scanContainer (h : Host) (s : Pass) (pc : path) : Pass :=
  match nodeAt pc (fst s) with
  | None => s
  | Some container =>
      let anc := ancestorsAt [] pc (fst s) in
      let attachments :=
        locPath <$>
          List.filter (fun l => isAttachmentItem (locAncestors l) (locNode l))
                      (tail (walk anc pc container)) in
      let s1 := fold_left (fun s p => startProcessing h p s) attachments s in
      if bool_decide (attachments = []) then
        let downloadableItems :=
          locPath <$>
            List.filter (fun l => matches DOWNLOADABLE (locAncestors l) (locNode l))
                        (tail (walk anc pc container)) in
        fold_left
          (fun s q =>
             match nodeAt q (fst s) with
             | None => s
             | Some item =>
                 match attachmentOf q (ancestorsAt [] q (fst s)) item with
                 | None => s
                 | Some p =>
                     match nodeAt p (fst s) with
                     | None => s
                     | Some parent =>
                         if negb (classListContains PROCESSED parent)
                         then startProcessing h p s else s
                     end
                 end
             end)
          downloadableItems s1
      else s1
  end.

(** [scanForAttachments], up to the point where it returns: the document
    with the markers it has set, and the attachments handed to the status
    check. *)
Definition scanForAttachments (h : Host) (doc : Node) : Pass :=
  if negb (isInOpenedEmail h doc) then (doc, [])
  else
    let emailAttachmentContainers :=
      locPath <$> documentQuerySelectorAll [[[byClass "aQH"]]] doc in
    fold_left (scanContainer h) emailAttachmentContainers (doc, []).

(** *** The click handler of an upload button *)

(** What a click on the button comes to: nothing while an upload is under
    way; the button replaced by a badge; the button asking for a reload of
    the page; or an error shown on the button, which is reset three seconds
    later. *)
Inductive UploadOutcome :=
| ClickIgnored
| BadgeShown
| ReloadRequested
| ErrorShown (message : string).

(** [handleUpload]: [loading] is whether the button carries the loading
    class, [downloadUrl] what the search for the link came to, [fileData]
    the outcome of [downloadPdfAsBase64] and [reply] that of the
    [UPLOAD_PDF] round trip; a rejection carries the [errorMessage] the
    [catch] block derives from it. *)
Definition handleUpload (loading : bool) (downloadUrl : option string)
    (fileData : Result string) (reply : Result UploadResponse) : UploadOutcome :=
  if loading then ClickIgnored
  else
    let thrown : option string :=
      if negb (truthy (default "" downloadUrl)) then
        Some "Download-Link nicht gefunden. Bitte lade die Datei manuell herunter und nutze den Upload im Popup."
      else
        match fileData with
        | Rejected message => Some message
        | Resolved _ =>
            match reply with
            | Rejected message => Some message
            | Resolved response =>
                if uploadSuccess response then None
                else Some (match uploadError response with
                           | Some e => if truthy e then e else "Upload fehlgeschlagen"
                           | None => "Upload fehlgeschlagen"
                           end)
            end
        end in
    match thrown with
    | None => BadgeShown
    | Some errorMessage =>
        if includes "neu geladen" errorMessage || includes "aktualisieren" errorMessage
        then ReloadRequested
        else ErrorShown errorMessage
    end.

(** *** The mutation observer *)

Inductive MutationType := childList | attributes | characterData.

Record MutationRecord := mkMutationRecord {
  mutationType : MutationType;
  addedNodes : list Node
}.

(** [node.querySelector(sel)] is not null; the selectors of the observer
    are single compounds, which do not look at ancestors. *)
Definition contains (sel : selector) (node : Node) : bool :=
  bool_decide (querySelector sel [] node <> None).

Definition isEmailAttachmentArea (node : Node) : bool :=
  classListContains "aQH" node || contains [[[byClass "aQH"]]] node
  || classListContains "aZo" node || contains [[[byClass "aZo"]]] node
  || classListContains "adn" node || contains [[[byClass "adn"]]] node.

Definition isInboxRow (h : Host) (doc : Node) (node : Node) : bool :=
  classListContains "brc" node || contains [[[byClass "brc"]]] node
  || classListContains "zA" node || contains [[[byClass "zA"]]] node
  || (contains [[[attrContains "title" ".pdf"]]] node && negb (isInOpenedEmail h doc)).

(** The two flags the observer callback computes for a batch of
    mutations: [shouldScanEmail] and [shouldScanInbox]. *)
Definition shouldScan (h : Host) (doc : Node) (mutations : list MutationRecord)
    : bool * bool :=
  let added :=
    flat_map (fun m => match mutationType m with
                       | childList => List.filter isElement (addedNodes m)
                       | _ => []
                       end) mutations in
  (existsb (fun node => isEmailAttachmentArea node && isInOpenedEmail h doc) added,
   existsb (fun node => isInboxRow h doc node && negb (isInOpenedEmail h doc)) added).

(** *** Timers *)

(** The callbacks the content script hands to [setTimeout]: the two of the
    observer, which run [scanForAttachments] and
    [scanInboxForTransferredEmails], and those of the rest of the script
    ([init] sets timers and intervals of its own). *)
Inductive TimerCallback :=
| ObserverEmailScan
| ObserverInboxScan
| OtherCallback.

#[global] Instance TimerCallback_eq_dec : EqDecision TimerCallback.
Proof. solve_decision. Defined.

(** An entry of the window's list of active timers: its handle, the time at
    which it is due, and its callback. *)
Record Timer := mkTimer {
  timerHandle : positive;
  timerDue : N;
  timerCallback : TimerCallback
}.

(** The timers of the window: the active ones, and the handle the next call
    of [setTimeout] returns.  Handles are integers greater than zero, and
    the browser counts them up, so that none is handed out twice. *)
Record WindowTimers := mkWindowTimers {
  activeTimers : list Timer;
  nextHandle : positive
}.

(** [setTimeout(callback, delay)] at time [now]: the handle and the timers
    with the new entry. *)
Definition setTimeout (callback : TimerCallback) (delay now : N) (w : WindowTimers)
    : positive * WindowTimers :=
  (nextHandle w,
   {| activeTimers := activeTimers w ++ [mkTimer (nextHandle w) (now + delay) callback];
      nextHandle := Pos.succ (nextHandle w) |}).

(** [clearTimeout(handle)]: the entry with this handle is dropped; a handle
    that names no active timer changes nothing. *)
Definition clearTimeout (handle : positive) (w : WindowTimers) : WindowTimers :=
  {| activeTimers :=
       List.filter (fun t => negb (Pos.eqb (timerHandle t) handle)) (activeTimers w);
     nextHandle := nextHandle w |}.

(** The two variables of [initObserver] the callback closes over: [null],
    or the handle of the timer set last (a handle is never zero, so it is
    truthy).  The callbacks of the timers do not reset them. *)
Record ObserverVars := mkObserverVars {
  scanTimeout : option positive;
  inboxScanTimeout : option positive
}.

(** The callback of the [MutationObserver] for one batch of mutations at
    time [now]: the flags, and for each flag that is set, the timer the
    variable names is cleared and a new one is set. *)
Definition observerCallback (h : Host) (doc : Node) (mutations : list MutationRecord)
    (now : N) (s : ObserverVars * WindowTimers) : ObserverVars * WindowTimers :=
  let '(shouldScanEmail, shouldScanInbox) := shouldScan h doc mutations in
  let '(vars, w) := s in
  let '(vars, w) :=
    if shouldScanEmail then
      let w := match scanTimeout vars with
               | Some handle => clearTimeout handle w
               | None => w
               end in
      let '(handle, w) := setTimeout ObserverEmailScan 300 now w in
      ({| scanTimeout := Some handle; inboxScanTimeout := inboxScanTimeout vars |}, w)
    else (vars, w) in
  if shouldScanInbox then
    let w := match inboxScanTimeout vars with
             | Some handle => clearTimeout handle w
             | None => w
             end in
    let '(handle, w) := setTimeout ObserverInboxScan 500 now w in
    ({| scanTimeout := scanTimeout vars; inboxScanTimeout := Some handle |}, w)
  else (vars, w).

(** [initObserver] up to [observer.observe]: both variables are [null]. *)
Definition initObserver (w : WindowTimers) : ObserverVars * WindowTimers :=
  ({| scanTimeout := None; inboxScanTimeout := None |}, w).

(** *** Inbox overview *)

Definition INBOX_INDICATOR : string := "grm-inbox-indicator".
Definition INBOX_PROCESSED : string := "grm-inbox-processed".

(** [createInboxIndicator]; [toLocaleDateString_deDE d] is
    [new Date(d).toLocaleDateString('de-DE')]. *)
Definition createInboxIndicator (toLocaleDateString_deDE : string -> string)
    (fileName : string) (date : option string) : Node :=
  let U := String (ascii_of_nat 220) "" in
  let already := fileName +:+ " - Bereits " +:+ uuml +:+ "bertragen" in
  Elem "span" [INBOX_INDICATOR]
    [("data-tooltip",
      match date with
      | Some d =>
          if truthy d
          then fileName +:+ " - " +:+ U +:+ "bertragen am " +:+ toLocaleDateString_deDE d
          else already
      | None => already
      end)]
    [Text (indent 4);
     Elem "svg" [] [("viewBox", "0 0 24 24")]
       [Text (indent 6); Elem "polyline" [] [("points", "20 6 9 17 4 12")] [];
        Text (indent 4)];
     Text (indent 2)].

(** ['.brc[title*=".pdf"], .brg[title*=".pdf"],
    [data-tooltip*=".pdf"]:not(.grm-inbox-processed)'] *)
Definition isInboxChip (n : Node) : bool :=
  matchCompound n [byClass "brc"; attrContains "title" ".pdf"]
  || matchCompound n [byClass "brg"; attrContains "title" ".pdf"]
  || (matchCompound n [attrContains "data-tooltip" ".pdf"]
      && negb (classListContains INBOX_PROCESSED n)).

(** [chip.getAttribute('title') || chip.getAttribute('data-tooltip') || ''] *)
Definition chipFileName (chip : Node) : string :=
  default "" (orElse (getAttribute "title" chip) (getAttribute "data-tooltip" chip)).

(** Where the node at [t] is found once a sibling was inserted after the
    node at [p]: the later siblings of [p], and what lies below them, move
    up by one. *)
Fixpoint shiftAfter (p t : path) : path :=
  match p, t with
  | [i], j :: t' => if (i <? j)%nat then S j :: t' else t
  | i :: p', j :: t' => if (i =? j)%nat then j :: shiftAfter p' t' else t
  | _, _ => t
  end.

(** The loop over the chips, which are nodes of the list taken before the
    loop: [chips] holds their paths in the document as it was then, and
    [adj] leads from such a path to where the node is now. *)
Fixpoint scanChips (toLocaleDateString_deDE : string -> string) (ch : Channel)
    (adj : path -> path) (chips : list path) (doc : Node) : Node :=
  match chips with
  | [] => doc
  | first :: rest =>
      let p := adj first in
      match nodeAt p doc with
      | None => scanChips toLocaleDateString_deDE ch adj rest doc
      | Some chip =>
          if classListContains INBOX_PROCESSED chip
          then scanChips toLocaleDateString_deDE ch adj rest doc
          else
            let doc1 := updateAt p (classListAdd INBOX_PROCESSED) doc in
            let fileName := chipFileName chip in
            if negb (endsWith ".pdf" (toLowerCase fileName))
            then scanChips toLocaleDateString_deDE ch adj rest doc1
            else
              match CHECK_STATUS_BY_FILENAME ch fileName with
              | Resolved status =>
                  if isInBoringTax status && bool_decide (p <> []) then
                    let indicator :=
                      createInboxIndicator toLocaleDateString_deDE fileName
                        (transferDate <$> transferInfo status) in
                    scanChips toLocaleDateString_deDE ch
                              (fun t => shiftAfter p (adj t)) rest
                              (insertAfter p indicator doc1)
                  else scanChips toLocaleDateString_deDE ch adj rest doc1
              | Rejected _ => scanChips toLocaleDateString_deDE ch adj rest doc1
              end
      end
  end.

(** [scanInboxForTransferredEmails], one call running on its own. *)
Definition scanInboxForTransferredEmails (toLocaleDateString_deDE : string -> string)
    (h : Host) (ch : Channel) (doc : Node) : Node :=
  if isInOpenedEmail h doc then doc
  else
    let attachmentChips :=
      locPath <$> List.filter (fun l => isInboxChip (locNode l)) (walk [] [] doc) in
    scanChips toLocaleDateString_deDE ch (fun t => t) attachmentChips doc.

(** *** After an upload *)

Definition LOADING : string := "grm-loading".

(** The button as [handleUpload] leaves it before the upload starts, and as
    it still is when [replaceButtonWithBadge] is called: the loading class
    is added and the markup replaced by the spinner. *)
Definition showLoading (button : Node) : Node :=
  match classListAdd LOADING button with
  | Elem t cl attrs _ =>
      Elem t cl attrs
        [Text (indent 6);
         Elem "svg" ["grm-spinner"]
           [("width", "16"); ("height", "16"); ("viewBox", "0 0 24 24")]
           [Text (indent 8);
            Elem "circle" []
              [("cx", "12"); ("cy", "12"); ("r", "10"); ("stroke", "currentColor");
               ("stroke-width", "2"); ("fill", "none"); ("stroke-dasharray", "60");
               ("stroke-dashoffset", "20")] [];
            Text (indent 6)];
         Text (indent 6);
         Elem "span" [] [] [Text "Wird gesendet..."];
         Text (indent 4)]
  | n => n
  end.

(** [replaceButtonWithBadge] for the button at path [p]; [now] is
    [new Date().toISOString()].  A node without a parent is not replaced. *)
Definition replaceButtonWithBadge (h : Host) (now : string) (animate : bool)
    (p : path) (doc : Node) : Node :=
  let badge := createStatusBadge h (Some now) in
  let badge := if animate then classListAdd "grm-animate-in" badge else badge in
  match p with
  | [] => doc
  | _ => updateAt p (fun _ => badge) doc
  end.

End gmail.

(** ** Popup and options page: escaping *)

Module pages.

(** [escapeHtml]: the text is set as [textContent] of a fresh element and
    read back as [innerHTML], which serialises a text node by replacing
    [&], U+00A0, [<] and [>]. *)
Fixpoint escapeHtml (text : string) : string :=
  match text with
  | EmptyString => EmptyString
  | String c rest =>
      (if Ascii.eqb c "&" then "&amp;"
       else if Ascii.eqb c (ascii_of_nat 160) then "&nbsp;"
       else if Ascii.eqb c "<" then "&lt;"
       else if Ascii.eqb c ">" then "&gt;"
       else String c EmptyString)
      +:+ escapeHtml rest
  end.

End pages.

(** * Auxiliary definitions

    Functions and predicates that the statements and proofs below use:
    views of the storage and of the document, and sample data. *)

Import JsString Dom content.

(** The list function realised by [addTransferredEmail]. *)
Fixpoint upsert (r : TransferredEmail) (l : list TransferredEmail)
    : list TransferredEmail :=
  match l with
  | [] => [r]
  | x :: t => if decide (emailId x = emailId r) then r :: t else x :: upsert r t
  end.




(** A transfer record as the upload handler writes it. *)
Definition invoiceRecord (id name : string) : TransferredEmail :=
  {| emailId := id; fileName := name; uploadedFileId := "f-1";
     transferDate := "2024-03-01T09:00:00.000Z"; subject := None |}.

(** Induction over a node and, for an element, over all of its children. *)
Section NodeInduction.
Variable P : Node -> Prop.
Hypothesis onText : forall s, P (Text s).
Hypothesis onElem : forall t cl attrs cs, Forall P cs -> P (Elem t cl attrs cs).

Fixpoint Node_nested_ind (n : Node) : P n :=
  match n with
  | Text s => onText s
  | Elem t cl attrs cs =>
      onElem t cl attrs cs
        ((fix each (l : list Node) : Forall P l :=
            match l with
            | [] => Forall_nil_2 P
            | c :: l' => Forall_cons_2 P c l' (Node_nested_ind c) (each l')
            end) cs)
  end.
End NodeInduction.

(** The inner loops of [textContent], [walk] and [count] as functions of
    their own. *)
Fixpoint textOfAll (l : list Node) : string :=
  match l with
  | [] => ""
  | c :: l' => textContent c +:+ textOfAll l'
  end.

Fixpoint walkChildren (up : list Node) (here : path) (i : nat) (l : list Node)
    : list Located :=
  match l with
  | [] => []
  | c :: l' => walk up (here ++ [i]) c ++ walkChildren up here (S i) l'
  end.

Fixpoint countAll (P : Node -> bool) (l : list Node) : nat :=
  match l with
  | [] => 0
  | c :: l' => count P c + countAll P l'
  end.

(** The text of a node of the subtree is a part of the text of its root:
    a property of strings that passes from a part to the whole passes from
    the former to the latter. *)
Definition passesToWhole (Q : string -> Prop) : Prop :=
  forall s t, (Q s -> Q (s +:+ t)) /\ (Q t -> Q (s +:+ t)).

(** A predicate on nodes that does not look at the children. *)
Definition shallow (P : Node -> bool) : Prop :=
  forall t cl attrs cs cs', P (Elem t cl attrs cs) = P (Elem t cl attrs cs').

(** A predicate on elements that looks at the class list only. *)
Definition byClassOnly (P : Node -> bool) : Prop :=
  forall t t' cl attrs attrs' cs cs',
    P (Elem t cl attrs cs) = P (Elem t' cl attrs' cs').

Definition isButton (n : Node) : bool := classListContains UPLOAD_BUTTON n.
Definition isBadge (n : Node) : bool := classListContains STATUS_BADGE n.

(** The nodes the extension has injected: upload buttons and status
    badges. *)
Definition isInjected (n : Node) : bool := isButton n || isBadge n.

(** A predicate that ignores the processed marker. *)
Definition ignoresMarker (P : Node -> bool) : Prop :=
  forall n, P (classListAdd PROCESSED n) = P n.

(** Two nodes that no selector can tell apart unless it names the
    processed marker. *)
Definition alike (x y : Node) : Prop :=
  isElement x = isElement y /\
  forall s, s <> byClass PROCESSED -> matchSimple x s = matchSimple y s.

(** Two located nodes with the same path and node and with ancestors that
    are alike. *)
Definition locAlike (l l' : Located) : Prop :=
  locPath l = locPath l' /\ locNode l = locNode l'
  /\ Forall2 alike (locAncestors l) (locAncestors l').

(** A selector that does not name the processed marker. *)
Definition unmarked (sel : selector) : Prop :=
  Forall (Forall (Forall (fun s => s <> byClass PROCESSED))) sel.

(** An element with a [data-tooltip] and no child nodes. *)
Definition tooltipOnly (t : string) (cl : list string) (tooltip : string) : Node :=
  Elem t cl [("data-tooltip", tooltip)] [].

(** A host showing the given URL fragment, with every injected node laid
    out visibly. *)
Definition openMessage (hash : string) : Host :=
  {| location_hash := hash; Date_now := 1709283600000;
     toLocaleString_deDE := fun d => d; zeroSized := fun _ _ => false |}.

(** An attachment chip as Gmail renders it: the name, and the area that
    receives the button. *)
Definition chip (name : string) : Node :=
  Elem "div" ["aZo"] [("data-tooltip", name)]
    [Elem "span" ["aV3"] [] [Text name]; Elem "div" ["aQy"] [] []].

(** An opened message with one attachment area. *)
Definition messageView (items : list Node) : Node :=
  Elem "div" ["nH"; "if"] [] [Elem "div" ["aQH"] [] items].

(** An opened message as older Gmail markup has it: the container of the
    message carries [data-legacy-message-id] only. *)
Definition legacyMessageView (items : list Node) : Node :=
  Elem "div" ["nH"; "if"] []
    [Elem "div" ["adn"; "ads"] [("data-legacy-message-id", "18e0a1b2c3d4e5f6")]
       [Elem "div" ["aQH"] [] items]].

(** A configured storage with an empty history and the given remote file
    names in the cache. *)
Definition remoteKnows (names : list string) : ExtendedStorageData :=
  {| apiKey := "key"; orgId := "42"; transferredEmails := [];
     boringTaxFiles := names; boringTaxLastSync := "2024-03-01T08:00:00.000Z" |}.

(** The message view with two chips for ["b.pdf"] after the first chip was
    processed with nothing known about the file: it holds one upload
    button. *)
Definition afterFirstScan : Node :=
  Eval vm_compute in
    default (Text "")
      (fst <$> processAttachment (openMessage "#inbox/E1")
                 (serviceWorker (remoteKnows [])) [0; 0]
                 (messageView [chip "b.pdf"; chip "b.pdf"])).

(** The upload button of that document. *)
Definition firstButton : Located :=
  Eval vm_compute in
    default (mkLocated [] [] (Text ""))
      (head (documentQuerySelectorAll [[[byClass UPLOAD_BUTTON]]] afterFirstScan)).


(** The document without the processed markers. *)
Fixpoint eraseMarker (n : Node) : Node :=
  match n with
  | Text s => Text s
  | Elem t cl attrs cs =>
      Elem t (List.filter (fun c => negb (String.eqb PROCESSED c)) cl) attrs
           (List.map eraseMarker cs)
  end.

(** What happens to the timers of the page once the content script runs:
    the observer is called back with a batch of mutations; a timer leaves
    the list of active timers when it has run; other code of the script
    sets a timer or an interval of its own ([init] does, and so does the
    callback of its URL watcher). *)
Inductive PageEvent :=
| Mutated (h : Host) (doc : Node) (mutations : list gmail.MutationRecord) (now : N)
| TimerFired (handle : positive)
| TimerSet (delay now : N).

Definition pageStep (s : gmail.ObserverVars * gmail.WindowTimers) (e : PageEvent)
    : gmail.ObserverVars * gmail.WindowTimers :=
  match e with
  | Mutated h doc mutations now => gmail.observerCallback h doc mutations now s
  | TimerFired handle => (fst s, gmail.clearTimeout handle (snd s))
  | TimerSet delay now =>
      (fst s, snd (gmail.setTimeout gmail.OtherCallback delay now (snd s)))
  end.

(** The variables and the timers after a series of events, from a window
    without timers. *)
Definition pageAfter (events : list PageEvent) : gmail.ObserverVars * gmail.WindowTimers :=
  fold_left pageStep events
    (gmail.initObserver {| gmail.activeTimers := []; gmail.nextHandle := 1 |}).

(** The active timers with the given callback. *)
Definition pending (c : gmail.TimerCallback) (w : gmail.WindowTimers) : list gmail.Timer :=
  List.filter (fun t => bool_decide (gmail.timerCallback t = c)) (gmail.activeTimers w).

(** The variable that holds the handle of the timer with callback [c]. *)
Definition slot (c : gmail.TimerCallback) (vars : gmail.ObserverVars) : option positive :=
  match c with
  | gmail.ObserverEmailScan => gmail.scanTimeout vars
  | gmail.ObserverInboxScan => gmail.inboxScanTimeout vars
  | gmail.OtherCallback => None
  end.

(** Whether the flags of a batch ask for the scan that the callback [c]
    runs. *)
Definition asksFor (c : gmail.TimerCallback) (flags : bool * bool) : bool :=
  match c with
  | gmail.ObserverEmailScan => fst flags
  | gmail.ObserverInboxScan => snd flags
  | gmail.OtherCallback => false
  end.

(** The time of the last batch among [events] that asked for the scan of
    [c]. *)
Definition lastBatchFor (c : gmail.TimerCallback) (events : list PageEvent) : option N :=
  last (omap (fun e => match e with
                       | Mutated h doc mutations now =>
                           if asksFor c (gmail.shouldScan h doc mutations)
                           then Some now else None
                       | _ => None
                       end) events).

(** What holds of the variables and the timers at any time: active handles
    were handed out already and differ from one another; an active timer of
    the observer is named by its variable; and a handle held by a variable
    was handed out already and names, if any, a timer of that variable. *)
Definition timersInOrder (s : gmail.ObserverVars * gmail.WindowTimers) : Prop :=
  (forall t, t ∈ gmail.activeTimers (snd s) ->
     (gmail.timerHandle t < gmail.nextHandle (snd s))%positive) /\
  NoDup (gmail.timerHandle <$> gmail.activeTimers (snd s)) /\
  (forall t, t ∈ gmail.activeTimers (snd s) ->
     gmail.timerCallback t <> gmail.OtherCallback ->
     slot (gmail.timerCallback t) (fst s) = Some (gmail.timerHandle t)) /\
  (forall c handle, slot c (fst s) = Some handle ->
     (handle < gmail.nextHandle (snd s))%positive) /\
  (forall c handle t, slot c (fst s) = Some handle -> t ∈ gmail.activeTimers (snd s) ->
     gmail.timerHandle t = handle -> gmail.timerCallback t = c).

Definition isIndicator (n : Node) : bool := classListContains gmail.INBOX_INDICATOR n.

(** A node without its children. *)
Definition shell (n : Node) : Node :=
  match n with
  | Text s => Text s
  | Elem t cl attrs _ => Elem t cl attrs []
  end.

(** What the inbox scan decides for a chip it has not yet seen: an
    indicator is placed when the name ends in [.pdf], the worker answers
    that the file is known, and the chip has a parent. *)
Definition getsIndicator (ch : Channel) (l : Located) : bool :=
  negb (classListContains gmail.INBOX_PROCESSED (locNode l))
  && endsWith ".pdf" (toLowerCase (gmail.chipFileName (locNode l)))
  && match CHECK_STATUS_BY_FILENAME ch (gmail.chipFileName (locNode l)) with
     | Resolved status => isInBoringTax status
     | Rejected _ => false
     end
  && bool_decide (locPath l <> []).

(** The same decision for the chip at path [t] of the document [doc]. *)
Definition indicated (ch : Channel) (doc : Node) (t : path) : bool :=
  match nodeAt t doc with
  | Some chip => getsIndicator ch (mkLocated t [] chip)
  | None => false
  end.

(** A node the inbox scan is done with: it is no chip of the list, or it
    carries the inbox marker, or its name does not end in [.pdf]. *)
Definition settled (n : Node) : bool :=
  negb (gmail.isInboxChip n)
  || classListContains gmail.INBOX_PROCESSED n
  || negb (endsWith ".pdf" (toLowerCase (gmail.chipFileName n))).

(** An inbox row with one attachment chip per name. *)
Definition inboxRow (names : list string) : Node :=
  Elem "div" ["zA"] []
    (List.map (fun name => Elem "span" ["brc"] [("title", name)] [Text name]) names).

Definition inboxView (rows : list Node) : Node :=
  Elem "div" ["AO"] [] rows.

(** * Properties *)

Example lower_mixed : toLowerCase "Invoice.PDF" = "invoice.pdf".
Proof. reflexivity. Qed.

Example trim_padded : trim "  a b.pdf " = "a b.pdf".
Proof. reflexivity. Qed.

Example ends_pdf : endsWith ".pdf" "x.pdf" = true /\ endsWith ".pdf" "x.pdf " = false.
Proof. split; reflexivity. Qed.

Example hash_of_open_message :
  hashMatch "#inbox/FMfcgzQXJGhk" = Some "FMfcgzQXJGhk"
  /\ hashMatch "#inbox" = None
  /\ hashMatch "#label//x#search/q/17" = Some "q".
Proof. repeat split. Qed.

Example pdf_in_text :
  pdfMatch "Rechnung-1.PDF.pdfx 12 KB" = Some "Rechnung-1.PDF.pdf"
  /\ pdfMatch "see .pdf files" = None
  /\ pdfMatch "Anhang: scan_03.Pdf (2 MB)" = Some "scan_03.Pdf".
Proof. repeat split. Qed.

Example spread_of_set : setSpread ["b.pdf"; "a.pdf"; "b.pdf"] = ["b.pdf"; "a.pdf"].
Proof. reflexivity. Qed.

Example names_of_listing :
  getFileNames [ {| entityName := "n1"; entityFile := Some {| orgFileName := "o1.pdf" |} |};
                 {| entityName := "dir"; entityFile := None |};
                 {| entityName := "n3"; entityFile := Some {| orgFileName := "" |} |};
                 {| entityName := ""; entityFile := Some {| orgFileName := "" |} |} ]
  = ["o1.pdf"; "n3"].
Proof. reflexivity. Qed.

(** ** Transfer history *)

Section History.
Implicit Types (r : TransferredEmail) (l : list TransferredEmail).

Lemma findIndex_cons {A} (P : A -> Prop) `{!forall x, Decision (P x)} x (l : list A) :
  findIndex P (x :: l) = if decide (P x) then Some 0 else S <$> findIndex P l.
Proof.
  unfold findIndex. simpl. destruct (decide (P x)); [done|].
  by destruct (list_find P l) as [[i y]|].
Qed.

Lemma find_cons {A} (P : A -> Prop) `{!forall x, Decision (P x)} x (l : list A) :
  find P (x :: l) = if decide (P x) then Some x else find P l.
Proof.
  unfold find. simpl. destruct (decide (P x)); [done|].
  by destruct (list_find P l) as [[i y]|].
Qed.

Lemma find_is_Some {A} (P : A -> Prop) `{!forall x, Decision (P x)} (l : list A) :
  find P l <> None <-> exists x, x ∈ l /\ P x.
Proof.
  induction l as [|y l IH].
  - split; [done|]. intros (x & Hx & _). by apply elem_of_nil in Hx.
  - rewrite find_cons. destruct (decide (P y)) as [Hy|Hy].
    + split; [|done]. intros _. exists y. split; [left|done].
    + rewrite IH. split.
      * intros (x & Hx & HP). exists x. split; [by right|done].
      * intros (x & Hx & HP). apply elem_of_cons in Hx as [->|Hx]; [done|eauto].
Qed.

Lemma addTransferredEmail_upsert r st :
  transferredEmails (storage.addTransferredEmail r st)
  = upsert r (transferredEmails st).
Proof.
  unfold storage.addTransferredEmail, storage.getAll.
  assert (H : forall l,
    match findIndex (fun e => emailId e = emailId r) l with
    | Some i => <[i := r]> l
    | None => (l ++ [r])%list
    end = upsert r l).
  { induction l as [|x t IH]; [done|].
    rewrite findIndex_cons. simpl.
    destruct (decide (emailId x = emailId r)); [done|].
    destruct (findIndex _ t); simpl in *; by rewrite IH. }
  rewrite <- H. by destruct (findIndex _ _).
Qed.

Lemma upsert_ids r l :
  emailId <$> upsert r l
  = if decide (emailId r ∈ emailId <$> l) then emailId <$> l
    else (emailId <$> l) ++ [emailId r].
Proof.
  induction l as [|x t IH]; [done|].
  change (upsert r (x :: t))
    with (if decide (emailId x = emailId r) then r :: t else x :: upsert r t).
  rewrite (fmap_cons emailId x t).
  destruct (decide (emailId x = emailId r)) as [E|E].
  - rewrite fmap_cons, E. rewrite decide_True by left. done.
  - rewrite fmap_cons, IH. destruct (decide (emailId r ∈ emailId <$> t)) as [H|H].
    + rewrite decide_True by (by right). done.
    + rewrite decide_False; [done|].
      intros [?|?]%elem_of_cons; congruence.
Qed.






End History.



Lemma filter_upsert id (e : TransferredEmail) l :
  emailId e = id ->
  filter (fun x => emailId x <> id) (upsert e l) = filter (fun x => emailId x <> id) l.
Proof.
  intros <-. induction l as [|x t IH]; simpl.
  - by rewrite filter_cons, decide_False by (by intros ?).
  - destruct (decide (emailId x = emailId e)) as [E|E].
    + rewrite !filter_cons, !decide_False; [done| |]; intros H; by apply H.
    + rewrite !filter_cons, IH. done.
Qed.








(** ** Name matching *)

Lemma isFileInBoringTax_spec name st :
  storage.isFileInBoringTax name st = true
  <-> exists f, f ∈ boringTaxFiles st
                /\ normalizedFileName f = normalizedFileName name.
Proof.
  unfold storage.isFileInBoringTax. simpl. rewrite existsb_exists.
  split; intros (f & Hf & E); exists f.
  - apply String.eqb_eq in E. apply list_elem_of_In in Hf. done.
  - apply list_elem_of_In in Hf. split; [done|]. by apply String.eqb_eq.
Qed.

(** C4: name matching sees file names only through
    [toLowerCase().trim()]: two queries with the same normal form get the
    same answer from [isFileInBoringTax] and from [isFileTransferredByName],
    two stored lists with the same normal forms answer every query alike,
    and ["Invoice.PDF"] and [" invoice.pdf "] are one such pair. *)
Theorem C4_name_matching_is_normalized :
  (forall st q1 q2,
     trim (toLowerCase q1) = trim (toLowerCase q2) ->
     storage.isFileInBoringTax q1 st = storage.isFileInBoringTax q2 st /\
     storage.isFileTransferredByName q1 st = storage.isFileTransferredByName q2 st) /\
  (forall st st' q,
     (fun f => trim (toLowerCase f)) <$> boringTaxFiles st
     = (fun f => trim (toLowerCase f)) <$> boringTaxFiles st' ->
     storage.isFileInBoringTax q st = storage.isFileInBoringTax q st') /\
  (forall st,
     storage.isFileInBoringTax "Invoice.PDF" st
     = storage.isFileInBoringTax " invoice.pdf " st).
Proof.
  split; [|split].
  - intros st q1 q2 E.
    unfold storage.isFileInBoringTax, storage.isFileTransferredByName,
      normalizedFileName. by rewrite E.
  - intros st st' q E. unfold storage.isFileInBoringTax. simpl.
    revert E. generalize (boringTaxFiles st) (boringTaxFiles st').
    induction l as [|x l IH]; intros [|y l'] E; try done.
    rewrite !fmap_cons in E. injection E as Exy E. simpl.
    unfold normalizedFileName at 1 3. rewrite Exy. f_equal. by apply IH.
  - intros st. unfold storage.isFileInBoringTax. done.
Qed.

Lemma C4_name_matching_is_normalized_witness :
  let st := {| apiKey := "k"; orgId := "o"; transferredEmails := [];
               boringTaxFiles := ["INVOICE.pdf  "]; boringTaxLastSync := "" |} in
  storage.isFileInBoringTax "Invoice.PDF" st = true /\
  storage.isFileInBoringTax " invoice.pdf " st = true.
Proof.
  intros st.
  destruct (proj1 C4_name_matching_is_normalized st "Invoice.PDF" " invoice.pdf ")
    as [E _]; [reflexivity|].
  split; [reflexivity | rewrite <- E; reflexivity].
Defined.

(** ** Status by file name *)

Lemma isFileTransferredByName_spec name st :
  storage.isFileTransferredByName name st <> None
  <-> exists e, e ∈ transferredEmails st
                /\ normalizedFileName (fileName e) = normalizedFileName name.
Proof. unfold storage.isFileTransferredByName. apply find_is_Some. Qed.

(** C10: in every check-status-by-filename response
    [isTransferredByExtension] implies [isInBoringTax], whatever the cached
    remote list holds; [isTransferredByExtension] is set exactly when a
    local record matches the name. *)
Theorem C10_transferred_implies_in_boring_tax :
  forall name st,
    let r := worker.handleCheckStatusByFilename name st in
    (isTransferredByExtension r = true -> isInBoringTax r = true) /\
    (isTransferredByExtension r = true
     <-> exists e, e ∈ transferredEmails st
                   /\ trim (toLowerCase (fileName e)) = trim (toLowerCase name)).
Proof.
  intros name st r. subst r. unfold worker.handleCheckStatusByFilename. simpl.
  split.
  - intros ->. apply orb_true_r.
  - rewrite bool_decide_eq_true. apply isFileTransferredByName_spec.
Qed.

Lemma C10_transferred_implies_in_boring_tax_witness :
  let st := {| apiKey := "k"; orgId := "o";
               transferredEmails := [invoiceRecord "E7" "Local.pdf"];
               boringTaxFiles := []; boringTaxLastSync := "" |} in
  storage.isFileInBoringTax "local.PDF" st = false /\
  isInBoringTax (worker.handleCheckStatusByFilename "local.PDF" st) = true.
Proof.
  intros st. split; [reflexivity|].
  apply (proj1 (C10_transferred_implies_in_boring_tax "local.PDF" st)).
  reflexivity.
Defined.

(** ** Synchronising the remote file list *)

Lemma setAddAll_elem x seen xs :
  x ∈ setAddAll seen xs <-> x ∈ seen \/ x ∈ xs.
Proof.
  revert seen. induction xs as [|y xs IH]; intros seen; simpl.
  - rewrite elem_of_nil. tauto.
  - rewrite IH, elem_of_cons. case_bool_decide as Hy.
    + split; [tauto|]. intros [?|[->|?]]; tauto.
    + rewrite elem_of_app, list_elem_of_singleton. tauto.
Qed.

Lemma setAddAll_NoDup seen xs : NoDup seen -> NoDup (setAddAll seen xs).
Proof.
  revert seen. induction xs as [|y xs IH]; intros seen H; simpl; [done|].
  apply IH. case_bool_decide as Hy; [done|].
  apply NoDup_app. split; [done|]. split; [|apply NoDup_singleton].
  by intros x Hx ->%list_elem_of_singleton.
Qed.

Lemma setSpread_elem x xs : x ∈ setSpread xs <-> x ∈ xs.
Proof. unfold setSpread. rewrite setAddAll_elem, elem_of_nil. tauto. Qed.

Lemma setSpread_NoDup xs : NoDup (setSpread xs).
Proof. apply setAddAll_NoDup, NoDup_nil_2. Qed.

Section Sync.
Variable sortByDateDesc : list TransferredEmail -> list TransferredEmail.
Hypothesis sortByDateDesc_perm : forall l, sortByDateDesc l ≡ₚ l.

(** C6: a successful sync stores exactly the duplicate-free union of the
    listed remote file names and the file names of all local transfer
    records, whatever the cache held before; every locally transferred file
    name is then found by the remote-set check. *)
Theorem C6_sync_stores_union :
  forall files now st st' resp,
    worker.handleSyncBoringTaxFiles sortByDateDesc files now st = (st', resp) ->
    success resp = true ->
    boringTaxFiles st'
    = setSpread (getFileNames files
                 ++ (fileName <$> sortByDateDesc (transferredEmails st))) /\
    NoDup (boringTaxFiles st') /\
    (forall x, x ∈ boringTaxFiles st'
               <-> x ∈ getFileNames files
                   \/ exists e, e ∈ transferredEmails st /\ fileName e = x) /\
    (forall e, e ∈ transferredEmails st ->
               storage.isFileInBoringTax (fileName e) st' = true) /\
    transferredEmails st' = transferredEmails st.
Proof using sortByDateDesc_perm.
  intros files now st st' resp H Hok.
  unfold worker.handleSyncBoringTaxFiles in H.
  destruct (negb _); simplify_eq/=.
  assert (Hmem : forall x,
    x ∈ setSpread (getFileNames files
                   ++ (fileName <$> sortByDateDesc (transferredEmails st)))
    <-> x ∈ getFileNames files
        \/ exists e, e ∈ transferredEmails st /\ fileName e = x).
  { intros x. rewrite setSpread_elem, elem_of_app, list_elem_of_fmap.
    unfold storage.getAll.
    split; (intros [?|(e & He1 & He2)]; [by left|right; exists e]).
    - rewrite sortByDateDesc_perm in He2. done.
    - rewrite sortByDateDesc_perm. done. }
  split; [done|]. split; [apply setSpread_NoDup|]. split; [done|]. split; [|done].
  intros e He. apply isFileInBoringTax_spec. exists (fileName e). split; [|done].
  simpl. apply Hmem. right. by exists e.
Qed.

End Sync.

Lemma C6_sync_stores_union_witness :
  let st := {| apiKey := "key"; orgId := "42";
               transferredEmails := [invoiceRecord "E1" "local.pdf";
                                     invoiceRecord "E2" "b.pdf"];
               boringTaxFiles := ["stale.pdf"]; boringTaxLastSync := "" |} in
  let files := [ {| entityName := "b.pdf"; entityFile := Some {| orgFileName := "" |} |};
                 {| entityName := "folder"; entityFile := None |};
                 {| entityName := "x"; entityFile := Some {| orgFileName := "r.pdf" |} |} ] in
  let st' := fst (worker.handleSyncBoringTaxFiles reverse files "2024-03-02T10:00:00.000Z" st) in
  boringTaxFiles st' = ["b.pdf"; "r.pdf"; "local.pdf"] /\
  storage.isFileInBoringTax "local.pdf" st' = true.
Proof.
  intros st files st'.
  destruct (C6_sync_stores_union reverse reverse_Permutation files
              "2024-03-02T10:00:00.000Z" st st'
              {| success := true; error := None |})
    as (E & _ & _ & Hin & _); [reflexivity | reflexivity |].
  split.
  - rewrite E. reflexivity.
  - apply (Hin (invoiceRecord "E1" "local.pdf")). left.
Defined.

(** ** Strings *)

Lemma startsWith_app p s t : startsWith p s = true -> startsWith p (s +:+ t) = true.
Proof.
  revert s. induction p as [|a p IH]; intros [|b s]; simpl; try done.
  intros [-> Hp]%andb_true_iff. simpl. by apply IH.
Qed.

Lemma includes_cons p c s : includes p s = true -> includes p (String c s) = true.
Proof. intros H. simpl. rewrite H. apply orb_true_r. Qed.

Lemma includes_app_r p s t : includes p s = true -> includes p (s +:+ t) = true.
Proof.
  induction s as [|c s IH]; simpl.
  - rewrite orb_false_r. destruct p; [|done]. intros _. by destruct t.
  - intros [H|H]%orb_true_iff.
    + apply (startsWith_app _ (String c s) t) in H.
      change (String c s +:+ t) with (String c (s +:+ t)) in H. by rewrite H.
    + rewrite (IH H). apply orb_true_r.
Qed.

Lemma includes_app_l p s t : includes p t = true -> includes p (s +:+ t) = true.
Proof. intros H. induction s as [|c s IH]; [done|]. by apply includes_cons. Qed.

Lemma startsWith_includes p s : startsWith p s = true -> includes p s = true.
Proof. intros H. destruct s; simpl; rewrite H; done. Qed.

Lemma toLowerCase_app s t : toLowerCase (s +:+ t) = toLowerCase s +:+ toLowerCase t.
Proof. induction s as [|c s IH]; simpl; [done|]. by rewrite IH. Qed.

(** A string that contains [.pdf] still contains it once lowercased. *)
Lemma proj1_andb4 (a b c d e : bool) :
  a = true /\ b && (c && (d && e)) = true ->
  a = true /\ b = true /\ c = true /\ d = true /\ e = true.
Proof. destruct a, b, c, d, e; intuition. Qed.

Lemma startsWith_pdf_lower s :
  startsWith ".pdf" s = true -> startsWith ".pdf" (toLowerCase s) = true.
Proof.
  destruct s as [|a [|b [|c [|d s]]]]; cbn [startsWith toLowerCase];
    rewrite ?andb_false_r; try done.
  intros (Ea & Eb & Ec & Ed & _)%andb_true_iff%proj1_andb4.
  apply Ascii.eqb_eq in Ea, Eb, Ec, Ed. subst. reflexivity.
Qed.

Lemma includes_pdf_lower s :
  includes ".pdf" s = true -> includes ".pdf" (toLowerCase s) = true.
Proof.
  induction s as [|c s IH]; [done|].
  intros [H|H]%orb_true_iff.
  - apply startsWith_includes. by apply (startsWith_pdf_lower (String c s)).
  - apply (includes_cons _ (lowerChar c)). by apply IH.
Qed.

Lemma endsWith_includes p s : endsWith p s = true -> includes p s = true.
Proof.
  induction s as [|c s IH]; simpl.
  - rewrite !orb_false_r. intros ->%String.eqb_eq. done.
  - intros [->%String.eqb_eq|H]%orb_true_iff.
    + replace (startsWith (String c s) (String c s)) with true; [done|].
      symmetry. generalize (String c s). intros u.
      induction u as [|a u IHu]; simpl; [done|].
      by rewrite Ascii.eqb_refl.
    + rewrite (IH H). apply orb_true_r.
Qed.

Lemma span_app P s : s = fst (span P s) +:+ snd (span P s).
Proof.
  induction s as [|c s IH]; simpl; [done|].
  destruct (P c); [|done]. destruct (span P s) as [a b]. simpl in *.
  change (String c a +:+ b) with (String c (a +:+ b)). by f_equal.
Qed.

Lemma dotPdfHere_lower s m :
  dotPdfHere s = Some m -> startsWith ".pdf" (toLowerCase s) = true.
Proof.
  destruct s as [|a [|b [|c [|d s]]]]; try done. unfold dotPdfHere.
  destruct (String.eqb _ _) eqn:E; [|done]. intros _.
  apply String.eqb_eq in E. simpl in E. injection E as Ea Eb Ec Ed.
  simpl. by rewrite Ea, Eb, Ec, Ed.
Qed.

Lemma longestPdfPrefix_lower s m :
  longestPdfPrefix s = Some m -> includes ".pdf" (toLowerCase s) = true.
Proof.
  revert m. induction s as [|c s IH]; [done|]. intros m.
  change (longestPdfPrefix (String c s))
    with (match longestPdfPrefix s with
          | Some m => Some (String c m)
          | None => dotPdfHere (String c s)
          end).
  destruct (longestPdfPrefix s) as [m'|].
  - intros _. apply (includes_cons _ (lowerChar c)). by eapply IH.
  - intros H%dotPdfHere_lower. by apply startsWith_includes.
Qed.

Lemma pdfMatchHere_lower s m :
  pdfMatchHere s = Some m -> includes ".pdf" (toLowerCase s) = true.
Proof.
  unfold pdfMatchHere. intros H.
  rewrite (span_app isNameChar s), toLowerCase_app.
  destruct (fst (span isNameChar s)) as [|c run]; [done|].
  apply includes_app_r. apply (includes_cons _ (lowerChar c)).
  destruct (longestPdfPrefix run) as [m'|] eqn:E; [|done].
  by eapply longestPdfPrefix_lower.
Qed.

(** A match of [/[\w\-_.]+\.pdf/i] shows that the lowercased text contains
    [.pdf]. *)
Lemma pdfMatch_lower s m :
  pdfMatch s = Some m -> includes ".pdf" (toLowerCase s) = true.
Proof.
  induction s as [|c s IH]; [done|].
  change (pdfMatch (String c s))
    with (match pdfMatchHere (String c s) with
          | Some m => Some m
          | None => pdfMatch s
          end).
  destruct (pdfMatchHere (String c s)) as [m'|] eqn:E.
  - intros _. by eapply pdfMatchHere_lower.
  - intros H. apply (includes_cons _ (lowerChar c)). by apply IH.
Qed.

(** ** Documents *)

Lemma textContent_Elem t cl attrs cs :
  textContent (Elem t cl attrs cs) = textOfAll cs.
Proof. simpl. induction cs as [|c cs IH]; [done|]. simpl. by rewrite IH. Qed.

Lemma walk_Elem anc here t cl attrs cs :
  walk anc here (Elem t cl attrs cs)
  = mkLocated here anc (Elem t cl attrs cs)
    :: walkChildren (Elem t cl attrs cs :: anc) here 0 cs.
Proof.
  simpl. f_equal. generalize 0. generalize (Elem t cl attrs cs :: anc).
  induction cs as [|c cs IH]; intros up i; [done|]. simpl. by rewrite IH.
Qed.

Lemma count_Elem P t cl attrs cs :
  count P (Elem t cl attrs cs)
  = (if P (Elem t cl attrs cs) then 1 else 0) + countAll P cs.
Proof. simpl. f_equal. induction cs as [|c cs IH]; [done|]. simpl. by rewrite IH. Qed.

(** Every node reached by [walk] lies at its recorded path, below the
    starting point. *)
Lemma walk_nodeAt n : forall anc here l,
  l ∈ walk anc here n ->
  exists q, locPath l = here ++ q /\ nodeAt q n = Some (locNode l).
Proof.
  induction n as [s|t cl attrs cs IH] using Node_nested_ind; intros anc here l.
  - simpl. intros ->%list_elem_of_singleton. exists []. by rewrite app_nil_r.
  - rewrite walk_Elem. intros [->|Hl]%elem_of_cons.
    { exists []. by rewrite app_nil_r. }
    assert (H : forall k up, l ∈ walkChildren up here k cs ->
      exists j c q, cs !! j = Some c /\ locPath l = here ++ (k + j) :: q
                    /\ nodeAt q c = Some (locNode l)).
    { clear Hl. induction IH as [|c cs' Hc _ IHcs]; intros k up; simpl.
      - by intros ?%elem_of_nil.
      - intros [Hl|Hl]%elem_of_app.
        + destruct (Hc _ _ _ Hl) as (q & E1 & E2). exists 0, c, q.
          rewrite E1, <- app_assoc, Nat.add_0_r. done.
        + destruct (IHcs _ _ Hl) as (j & c' & q & E1 & E2 & E3).
          exists (S j), c', q. rewrite E2. repeat split; try done.
          by replace (k + S j) with (S k + j) by lia. }
    destruct (H _ _ Hl) as (j & c & q & E1 & E2 & E3).
    exists (j :: q). split; [done|]. simpl. by rewrite E1.
Qed.

Lemma walk_text Q n : passesToWhole Q -> forall anc here l,
  l ∈ walk anc here n ->
  Q (textContent (locNode l)) -> Q (textContent n).
Proof.
  intros HQ.
  induction n as [s|t cl attrs cs IH] using Node_nested_ind; intros anc here l.
  - simpl. by intros ->%list_elem_of_singleton.
  - rewrite walk_Elem. intros [->|Hl]%elem_of_cons; [done|].
    rewrite textContent_Elem. revert Hl. generalize 0 (Elem t cl attrs cs :: anc).
    induction IH as [|c cs' Hc _ IHcs]; intros k up; simpl.
    + by intros ?%elem_of_nil.
    + intros [Hl|Hl]%elem_of_app Hp.
      * apply (proj1 (HQ _ _)). by eapply Hc.
      * apply (proj2 (HQ _ _)). by eapply IHcs.
Qed.

Lemma passesToWhole_lower_pdf :
  passesToWhole (fun s => includes ".pdf" (toLowerCase s) = true).
Proof.
  intros s t. rewrite toLowerCase_app.
  split; [apply includes_app_r | apply includes_app_l].
Qed.

Lemma querySelectorAll_walk sel anc n l :
  l ∈ querySelectorAll sel anc n ->
  l ∈ walk anc [] n /\ matches sel (locAncestors l) (locNode l) = true.
Proof.
  unfold querySelectorAll. rewrite list_elem_of_In, filter_In, <- list_elem_of_In.
  intros [H ?]. split; [|done].
  destruct (walk anc [] n) as [|x w]; [done|]. simpl in H. by right.
Qed.

Lemma querySelector_walk sel anc n l :
  querySelector sel anc n = Some l ->
  l ∈ walk anc [] n /\ matches sel (locAncestors l) (locNode l) = true.
Proof.
  unfold querySelector. intros H. apply querySelectorAll_walk.
  destruct (querySelectorAll sel anc n); simplify_eq/=. left.
Qed.

Lemma matches_isElement sel anc n : matches sel anc n = true -> isElement n = true.
Proof.
  unfold matches. rewrite existsb_exists. intros (s & _ & H).
  unfold matchComplex in H. destruct (rev s); [done|].
  apply andb_true_iff in H as [H _]. unfold matchCompound in H.
  by apply andb_true_iff in H as [H _].
Qed.

(** What [element.querySelector] finds is an element at its path below the
    queried node. *)
Lemma querySelector_nodeAt sel anc n l :
  querySelector sel anc n = Some l ->
  nodeAt (locPath l) n = Some (locNode l) /\ isElement (locNode l) = true.
Proof.
  intros [Hw Hm]%querySelector_walk.
  destruct (walk_nodeAt _ _ _ _ Hw) as (q & E1 & E2). simpl in E1. subst q.
  split; [done|]. by eapply matches_isElement.
Qed.

Lemma matches_byClass c anc n :
  matches [[[byClass c]]] anc n = classListContains c n.
Proof.
  unfold matches, matchComplex, matchCompound. simpl.
  destruct n; simpl; [done|].
  replace (matchAncestors anc []) with true by (by destruct anc).
  by rewrite !andb_true_r, orb_false_r.
Qed.

Lemma nodeAt_app p q n : nodeAt (p ++ q) n = nodeAt p n ≫= nodeAt q.
Proof.
  revert n. induction p as [|i p IH]; intros n; simpl; [done|].
  destruct n as [|t cl attrs cs]; [done|]. destruct (cs !! i); simpl; [apply IH|done].
Qed.

Lemma nodeAt_updateAt p f n a :
  nodeAt p n = Some a -> nodeAt p (updateAt p f n) = Some (f a).
Proof.
  revert n. induction p as [|i p IH]; intros n; simpl; [by intros [= ->]|].
  destruct n as [|t cl attrs cs]; [done|].
  destruct (cs !! i) as [c|] eqn:E; [|done]. simpl. intros H.
  rewrite list_lookup_alter_eq, E. simpl. by apply IH.
Qed.

(** *** Counting nodes *)

Lemma shallow_isButton : shallow isButton.
Proof. by intros t cl attrs cs cs'. Qed.

Lemma shallow_isBadge : shallow isBadge.
Proof. by intros t cl attrs cs cs'. Qed.

Lemma shallow_isInjected : shallow isInjected.
Proof. by intros t cl attrs cs cs'. Qed.

Lemma byClassOnly_shallow P : byClassOnly P -> shallow P.
Proof. intros H t cl attrs cs cs'. apply H. Qed.

Lemma byClassOnly_isButton : byClassOnly isButton.
Proof. by intros t t' cl attrs attrs' cs cs'. Qed.

Lemma byClassOnly_isBadge : byClassOnly isBadge.
Proof. by intros t t' cl attrs attrs' cs cs'. Qed.

Lemma byClassOnly_isInjected : byClassOnly isInjected.
Proof. by intros t t' cl attrs attrs' cs cs'. Qed.

Lemma classListContains_add c c' n :
  c <> c' -> classListContains c' (classListAdd c n) = classListContains c' n.
Proof.
  intros Hne. destruct n as [|t cl attrs cs]; [done|]. simpl.
  destruct (existsb (String.eqb c) cl); [done|]. simpl.
  rewrite existsb_app. simpl. rewrite orb_false_r.
  replace (String.eqb c' c) with false; [apply orb_false_r|].
  symmetry. apply String.eqb_neq. congruence.
Qed.

Lemma ignoresMarker_isButton : ignoresMarker isButton.
Proof. intros n. by apply classListContains_add. Qed.

Lemma ignoresMarker_isBadge : ignoresMarker isBadge.
Proof. intros n. by apply classListContains_add. Qed.

Lemma ignoresMarker_isInjected : ignoresMarker isInjected.
Proof.
  intros n. unfold isInjected.
  by rewrite ignoresMarker_isButton, ignoresMarker_isBadge.
Qed.

Create HintDb dom.
#[local] Hint Resolve shallow_isButton shallow_isBadge shallow_isInjected
  byClassOnly_isButton byClassOnly_isBadge byClassOnly_isInjected
  ignoresMarker_isButton ignoresMarker_isBadge ignoresMarker_isInjected : dom.

Lemma countAll_app P l1 l2 : countAll P (l1 ++ l2) = countAll P l1 + countAll P l2.
Proof. induction l1 as [|c l1 IH]; simpl; [done|]. rewrite IH. lia. Qed.

Lemma countAll_alter P g i cs c :
  cs !! i = Some c ->
  countAll P (alter g i cs) + count P c = countAll P cs + count P (g c).
Proof.
  revert i. induction cs as [|x cs IH]; intros [|i]; simpl; try done.
  - intros [= ->]. lia.
  - intros H. specialize (IH _ H). unfold alter in IH. lia.
Qed.

Lemma count_updateAt P p f : shallow P -> forall n a,
  nodeAt p n = Some a ->
  count P (updateAt p f n) + count P a = count P n + count P (f a).
Proof.
  intros HP. induction p as [|i p IH]; intros n a; cbn [nodeAt updateAt].
  - intros [= ->]. lia.
  - destruct n as [|t cl attrs cs]; [done|].
    destruct (cs !! i) as [c|] eqn:E; [|done]. cbn [mbind option_bind]. intros H.
    rewrite !count_Elem, (HP t cl attrs _ cs).
    pose proof (countAll_alter P (updateAt p f) i cs c E) as H1.
    pose proof (IH c a H) as H2. lia.
Qed.

Lemma count_classListAdd P n :
  shallow P -> ignoresMarker P ->
  count P (classListAdd PROCESSED n) = count P n.
Proof.
  intros HS HM. destruct n as [|t cl attrs cs]; [done|].
  specialize (HM (Elem t cl attrs cs)). unfold classListAdd in *.
  destruct (existsb _ cl); [done|]. rewrite !count_Elem. by rewrite HM.
Qed.

(** Marking a node as processed leaves every count of injected nodes as it
    is. *)
Lemma count_mark P p n a :
  shallow P -> ignoresMarker P -> nodeAt p n = Some a ->
  count P (updateAt p (classListAdd PROCESSED) n) = count P n.
Proof.
  intros HS HM H. pose proof (count_updateAt P p (classListAdd PROCESSED) HS n a H) as E.
  rewrite count_classListAdd in E by done. lia.
Qed.

Lemma count_appendChild P e a :
  shallow P -> isElement a = true ->
  count P (appendChild e a) = count P a + count P e.
Proof.
  intros HS Ha. destruct a as [|t cl attrs cs]; [done|]. simpl appendChild.
  rewrite !count_Elem, (HS t cl attrs _ cs), countAll_app. simpl. lia.
Qed.

Lemma count_insertAfter P e p : shallow P -> forall n a,
  p <> [] -> nodeAt p n = Some a ->
  count P (insertAfter p e n) = count P n + count P e.
Proof.
  intros HS. induction p as [|i p IH]; intros n a Hp; [done|].
  destruct n as [|t cl attrs cs]; [done|]. cbn [nodeAt].
  destruct (cs !! i) as [c|] eqn:E; [|done]. cbn [mbind option_bind]. intros H.
  destruct p as [|j p];
    [cbn [insertAfter]
    |change (insertAfter (i :: j :: p) e (Elem t cl attrs cs))
       with (Elem t cl attrs (alter (insertAfter (j :: p) e) i cs))].
  - rewrite !count_Elem, (HS t cl attrs _ cs).
    assert (countAll P cs = countAll P (take (S i) cs) + countAll P (drop (S i) cs))
      by (by rewrite <- countAll_app, take_drop).
    rewrite !countAll_app. simpl. lia.
  - rewrite !count_Elem, (HS t cl attrs _ cs).
    pose proof (countAll_alter P (insertAfter (j :: p) e) i cs c E) as H1.
    pose proof (IH c a ltac:(done) H) as H2. lia.
Qed.

(** *** Where the injected element goes *)

Lemma findButtonContainer_nodeAt anc a :
  isElement a = true ->
  exists target, nodeAt (findButtonContainer anc a) a = Some target
                 /\ isElement target = true.
Proof.
  intros Ha. unfold findButtonContainer.
  destruct (head _) as [q|] eqn:E; simpl; [|by exists a].
  apply head_Some_elem_of in E. apply list_elem_of_omap in E as (c & _ & E).
  destruct (querySelector _ anc a) as [l|] eqn:Q; simplify_eq/=.
  apply querySelector_nodeAt in Q as [Q1 Q2]. by exists (locNode l).
Qed.

(** [insertElement] adds the element, and nothing else, to the document. *)
Lemma insertElement_count P h e p anc a doc :
  shallow P -> nodeAt p doc = Some a -> isElement a = true ->
  count P (insertElement h e p anc a doc) = count P doc + count P e.
Proof.
  intros HS Hp Ha. unfold insertElement.
  destruct (findButtonContainer_nodeAt anc a Ha) as (target & Ht & Hte).
  assert (Hq : nodeAt (p ++ findButtonContainer anc a) doc = Some target)
    by (by rewrite nodeAt_app, Hp).
  destruct (_ && _) eqn:Hz.
  - apply andb_true_iff in Hz as [_ Hne%bool_decide_eq_true].
    by eapply count_insertAfter.
  - pose proof (count_updateAt P _ (appendChild e) HS doc target Hq) as E.
    rewrite count_appendChild in E by done. lia.
Qed.

(** [document.querySelectorAll] with a class selector returns as many nodes
    as [count] finds with that class. *)
Lemma documentQuerySelectorAll_count c doc :
  length (documentQuerySelectorAll [[[byClass c]]] doc)
  = count (classListContains c) doc.
Proof.
  unfold documentQuerySelectorAll. generalize (@nil Node) (@nil nat).
  induction doc as [s|t cl attrs cs IH] using Node_nested_ind; intros anc here.
  - cbn [walk List.filter locAncestors locNode]. by rewrite matches_byClass.
  - rewrite walk_Elem, count_Elem. cbn [List.filter locAncestors locNode].
    rewrite matches_byClass.
    assert (H : forall k up,
      length (List.filter (fun l => matches [[[byClass c]]] (locAncestors l) (locNode l))
                          (walkChildren up here k cs))
      = countAll (classListContains c) cs).
    { induction IH as [|x cs' Hx _ IHcs]; intros k up; simpl; [done|].
      by rewrite List.filter_app, length_app, Hx, IHcs. }
    destruct (classListContains c _); simpl; by rewrite H.
Qed.

(** ** Processing one attachment *)

(** What holds of a node that [prepare] hands on to the status check. *)
Lemma prepare_Ready h p doc c :
  prepare h p doc = Some (Ready c) ->
  exists attachment,
    let anc := ancestorsAt [] p doc in
    nodeAt p doc = Some attachment /\ isElement attachment = true /\
    classListContains PROCESSED attachment = false /\
    isPdfAttachment anc attachment = true /\
    existsb (fun btn => bool_decide (getAttribute "data-filename" (locNode btn)
                                     = Some (getAttachmentFileName anc attachment)))
            (documentQuerySelectorAll [[[byClass UPLOAD_BUTTON]]] doc) = false /\
    candDocument c = updateAt p (classListAdd PROCESSED) doc /\
    candAncestors c = anc /\
    candNode c = classListAdd PROCESSED attachment /\
    candFileName c = getAttachmentFileName anc attachment /\
    extractEmailId h (candDocument c) = Some (candEmailId c) /\
    truthy (candEmailId c) = true /\
    candSubject c = extractEmailSubject (candDocument c) /\
    querySelector [[[byClass UPLOAD_BUTTON]]] anc attachment = None /\
    querySelector [[[byClass STATUS_BADGE]]] anc attachment = None.
Proof.
  unfold prepare. intros H.
  destruct (nodeAt p doc) as [[s|t cl attrs cs]|] eqn:E; try done.
  exists (Elem t cl attrs cs). cbv zeta.
  destruct (classListContains PROCESSED _) eqn:H1; [done|].
  destruct (_ || _) eqn:H2; [done|].
  destruct (isPdfAttachment _ _) eqn:H3; [|done]. cbn [negb] in H.
  destruct (existsb _ _) eqn:H4; [done|].
  destruct (extractEmailId h _) as [id|] eqn:H5; [|done].
  destruct (truthy id) eqn:H6; [|done]. cbn [negb] in H.
  injection H as <-. cbn [candDocument candAncestors candNode candFileName
                          candEmailId candSubject].
  apply orb_false_iff in H2 as [Hb1 Hb2].
  apply bool_decide_eq_false in Hb1, Hb2.
  rewrite H5. repeat split; try done.
  - destruct (querySelector [[[byClass UPLOAD_BUTTON]]] _ _); [|done].
    by destruct Hb1.
  - destruct (querySelector [[[byClass STATUS_BADGE]]] _ _); [|done].
    by destruct Hb2.
Qed.

Lemma prepare_Ready_placed h p doc c :
  prepare h p doc = Some (Ready c) ->
  nodeAt p (candDocument c) = Some (candNode c) /\ isElement (candNode c) = true.
Proof.
  intros (a & Ha & Hel & _ & _ & _ & -> & _ & -> & _)%prepare_Ready.
  split; [by apply nodeAt_updateAt|].
  destruct a as [|t cl attrs cs]; [done|]. simpl. by destruct (existsb _ cl).
Qed.

(** A node that is skipped gets no injected node: the document changes at
    most by the processed marker. *)
Lemma prepare_Skipped P h p doc doc' o :
  shallow P -> ignoresMarker P ->
  prepare h p doc = Some (Skipped doc' o) ->
  count P doc' = count P doc.
Proof.
  intros HS HM. unfold prepare.
  destruct (nodeAt p doc) as [[s|t cl attrs cs]|] eqn:E; try done.
  repeat match goal with
         | |- context [if ?b then _ else _] => destruct b
         | |- context [match extractEmailId ?a ?b with _ => _ end] =>
             destruct (extractEmailId a b)
         end;
    intros [= <- <-]; try done; by eapply count_mark.
Qed.

Lemma count_byClassOnly P t t' cl attrs attrs' cs :
  byClassOnly P ->
  count P (Elem t cl attrs cs) = count P (Elem t' cl attrs' cs).
Proof. intros HC. by rewrite !count_Elem, (HC t t' cl attrs attrs' cs cs). Qed.

(** [render] injects exactly one node: a badge or a button. *)
Lemma render_count P h ch p doc c :
  byClassOnly P -> ignoresMarker P ->
  prepare h p doc = Some (Ready c) ->
  count P (fst (render h ch p c))
  = count P doc
    + match snd (render h ch p c) with
      | BadgeAdded => count P (createStatusBadge h None)
      | _ => count P (createUploadButton [] (Text "") "" None)
      end.
Proof.
  intros HC HM Hc. pose proof (byClassOnly_shallow P HC) as HS.
  destruct (prepare_Ready_placed _ _ _ _ Hc) as [Hp Hel].
  destruct (prepare_Ready _ _ _ _ Hc) as (a & Ha & _ & _ & _ & _ & Hd & _).
  assert (Hdoc : count P (candDocument c) = count P doc)
    by (rewrite Hd; by eapply count_mark).
  unfold render.
  destruct (checkStatus _ _ _) as [[r1 r2]|]; [destruct (_ || _)|];
    cbn [fst snd]; rewrite insertElement_count, Hdoc by done; f_equal;
    by apply count_byClassOnly.
Qed.

(** ** Classification and file names *)

(** The two cascades written out as the source has them. *)
Lemma isPdfAttachment_unfold anc a :
  isPdfAttachment anc a
  = if pdfSignal NameElement anc a then true
    else if pdfSignal DataTooltip anc a then true
    else if pdfSignal TitleAttr anc a then true
    else if pdfSignal AllText anc a then true
    else if pdfSignal AriaLabel anc a then true
    else false.
Proof. unfold isPdfAttachment. simpl. by repeat destruct (pdfSignal _ _ _). Qed.

Lemma getAttachmentFileName_unfold anc a :
  getAttachmentFileName anc a
  = match nameSignal NameElement anc a with
    | Some r => r
    | None =>
    match nameSignal DataTooltip anc a with
    | Some r => r
    | None =>
    match nameSignal TitleAttr anc a with
    | Some r => r
    | None =>
    match nameSignal AriaLabel anc a with
    | Some r => r
    | None =>
    match nameSignal AllText anc a with
    | Some r => r
    | None => "document.pdf"
    end end end end end.
Proof.
  unfold getAttachmentFileName. cbn [firstResult getAttachmentFileName_methods].
  by repeat destruct (nameSignal _ _ _).
Qed.

(** A method of [getAttachmentFileName] applies only when the text of its
    signal contains [.pdf] in some letter case. *)
Lemma nameSignal_lower s anc a r :
  nameSignal s anc a = Some r ->
  includes ".pdf" (toLowerCase (default "" (signalText s anc a))) = true.
Proof.
  assert (H : forall t, (match t with
                         | Some text => if includes ".pdf" text then Some (trim text) else None
                         | None => None
                         end = Some r) ->
                        includes ".pdf" (toLowerCase (default "" t)) = true).
  { intros [text|]; [|done]. simpl. destruct (includes ".pdf" text) eqn:E; [|done].
    intros _. by apply includes_pdf_lower. }
  destruct s; try apply H. unfold nameSignal. apply pdfMatch_lower.
Qed.

(** A signal whose lowercased text contains [.pdf] makes the element a
    PDF attachment. *)
Lemma lower_pdf_isPdfAttachment s anc a :
  includes ".pdf" (toLowerCase (default "" (signalText s anc a))) = true ->
  isPdfAttachment anc a = true.
Proof.
  intros H. rewrite isPdfAttachment_unfold.
  destruct s.
  - assert (pdfSignal AllText anc a = true) as ->; [|by repeat destruct (pdfSignal _ _ _)].
    unfold pdfSignal, signalText in *. simpl default in *.
    destruct (querySelector ATTACHMENT_NAME anc a) as [l|] eqn:Q; [|done].
    apply querySelector_walk in Q as [Q _]. simpl in H.
    by apply (walk_text _ a passesToWhole_lower_pdf anc [] l).
  - assert (pdfSignal DataTooltip anc a = true) as ->; [|by repeat destruct (pdfSignal _ _ _)].
    unfold pdfSignal. rewrite H. apply orb_true_r.
  - assert (pdfSignal TitleAttr anc a = true) as ->; [|by repeat destruct (pdfSignal _ _ _)].
    unfold pdfSignal. rewrite H. apply orb_true_r.
  - assert (pdfSignal AriaLabel anc a = true) as ->; [|by repeat destruct (pdfSignal _ _ _)].
    unfold pdfSignal. rewrite H. apply orb_true_r.
  - assert (pdfSignal AllText anc a = true) as ->; [|by repeat destruct (pdfSignal _ _ _)].
    done.
Qed.

Lemma firstResult_Some {A} (probe : Signal -> option A) l s r :
  firstResult probe l = Some (s, r) -> probe s = Some r.
Proof.
  induction l as [|x l IH]; [done|]. simpl.
  destruct (probe x) eqn:E; [|done]. by intros [= <- <-].
Qed.

(** C9, as the code has it: extraction is a total function that tries the
    name element, [data-tooltip], [title], [aria-label] and then the text
    content, and returns what the first of these that applies gives;
    classification tests the same five signals, the text content before
    [aria-label], and is decided by the first test that holds.  An element
    whose only signal is the tooltip ["Invoice_2024.pdf"] gets that file name
    and is a PDF; and an element none of whose signals contains [.pdf] in
    any letter case, an element that classification rejects in particular,
    gets the placeholder name. *)
Theorem C9_filename_cascade :
  (forall anc t cl,
     let a := tooltipOnly t cl "Invoice_2024.pdf" in
     getAttachmentFileName anc a = "Invoice_2024.pdf" /\
     isPdfAttachment anc a = true) /\
  (forall anc a,
     (forall s, includes ".pdf" (toLowerCase (default "" (signalText s anc a))) = false) ->
     getAttachmentFileName anc a = "document.pdf") /\
  (forall anc a,
     isPdfAttachment anc a = false -> getAttachmentFileName anc a = "document.pdf") /\
  (forall anc a s r,
     firstResult (fun s => nameSignal s anc a) getAttachmentFileName_methods = Some (s, r) ->
     getAttachmentFileName anc a = r /\ isPdfAttachment anc a = true) /\
  (forall anc a earlier s later name,
     [NameElement; DataTooltip; TitleAttr; AriaLabel; AllText] = earlier ++ s :: later ->
     (forall s', s' ∈ earlier -> nameSignal s' anc a = None) ->
     nameSignal s anc a = Some name ->
     getAttachmentFileName anc a = name /\
     getAttachmentFileName_decidedBy anc a = Some s) /\
  (forall anc a,
     (forall s, nameSignal s anc a = None) ->
     getAttachmentFileName anc a = "document.pdf" /\
     getAttachmentFileName_decidedBy anc a = None) /\
  (forall anc a earlier s later,
     [NameElement; DataTooltip; TitleAttr; AllText; AriaLabel] = earlier ++ s :: later ->
     (forall s', s' ∈ earlier -> pdfSignal s' anc a = false) ->
     pdfSignal s anc a = true ->
     isPdfAttachment anc a = true /\
     isPdfAttachment_decidedBy anc a = Some s) /\
  (forall anc a,
     (forall s, pdfSignal s anc a = false) ->
     isPdfAttachment anc a = false /\
     isPdfAttachment_decidedBy anc a = None) /\
  (forall anc t cl label text,
     let a := Elem t cl [("aria-label", label)] [Text text] in
     includes ".pdf" label = true -> includes ".pdf" text = true ->
     getAttachmentFileName anc a = trim label /\
     getAttachmentFileName_decidedBy anc a = Some AriaLabel /\
     isPdfAttachment_decidedBy anc a = Some AllText) /\
  getAttachmentFileName_methods ≡ₚ isPdfAttachment_methods.
Proof.
  assert (Hsig : forall anc a,
    (forall s, includes ".pdf" (toLowerCase (default "" (signalText s anc a))) = false) ->
    getAttachmentFileName anc a = "document.pdf").
  { intros anc a H. unfold getAttachmentFileName.
    destruct (firstResult _ _) as [[s r]|] eqn:E; [|done].
    apply firstResult_Some, nameSignal_lower in E. by rewrite H in E. }
  assert (Hname : forall anc a earlier s later name,
    [NameElement; DataTooltip; TitleAttr; AriaLabel; AllText] = earlier ++ s :: later ->
    (forall s', s' ∈ earlier -> nameSignal s' anc a = None) ->
    nameSignal s anc a = Some name ->
    firstResult (fun s => nameSignal s anc a) getAttachmentFileName_methods
    = Some (s, name)).
  { intros anc a earlier s later name Hl Hbefore Hs.
    unfold getAttachmentFileName_methods.
    destruct earlier as [|x1 [|x2 [|x3 [|x4 [|x5 rest]]]]];
      cbn [app] in Hl; simplify_eq; cbn [firstResult List.find];
      repeat (rewrite Hbefore
                by (repeat first [apply list_elem_of_here | apply list_elem_of_further]));
      try by rewrite Hs.
    by destruct rest. }
  assert (Hpdf : forall anc a earlier s later,
    [NameElement; DataTooltip; TitleAttr; AllText; AriaLabel] = earlier ++ s :: later ->
    (forall s', s' ∈ earlier -> pdfSignal s' anc a = false) ->
    pdfSignal s anc a = true ->
    List.find (fun s => pdfSignal s anc a) isPdfAttachment_methods = Some s).
  { intros anc a earlier s later Hl Hbefore Hs.
    unfold isPdfAttachment_methods.
    destruct earlier as [|x1 [|x2 [|x3 [|x4 [|x5 rest]]]]];
      cbn [app] in Hl; simplify_eq; cbn [firstResult List.find];
      repeat (rewrite Hbefore
                by (repeat first [apply list_elem_of_here | apply list_elem_of_further]));
      try by rewrite Hs.
    by destruct rest. }
  split; [|split; [|split; [|split; [|split; [|split; [|split; [|split; [|split]]]]]]]].
  - intros anc t cl a. split.
    + rewrite getAttachmentFileName_unfold. reflexivity.
    + apply (lower_pdf_isPdfAttachment DataTooltip). reflexivity.
  - exact Hsig.
  - intros anc a H. apply Hsig. intros s.
    destruct (includes _ _) eqn:E; [|done].
    apply lower_pdf_isPdfAttachment in E. congruence.
  - intros anc a s r E. split.
    + unfold getAttachmentFileName. by rewrite E.
    + apply firstResult_Some, nameSignal_lower in E.
      by eapply lower_pdf_isPdfAttachment.
  - intros anc a earlier s later name Hl Hbefore Hs.
    unfold getAttachmentFileName, getAttachmentFileName_decidedBy.
    by rewrite (Hname _ _ _ _ _ _ Hl Hbefore Hs).
  - intros anc a H.
    unfold getAttachmentFileName, getAttachmentFileName_decidedBy,
      getAttachmentFileName_methods. cbn [firstResult]. by rewrite !H.
  - intros anc a earlier s later Hl Hbefore Hs. split.
    + unfold isPdfAttachment. apply existsb_exists. exists s. split; [|done].
      apply list_elem_of_In. unfold isPdfAttachment_methods. rewrite Hl.
      apply elem_of_app. right. left.
    + unfold isPdfAttachment_decidedBy. by apply (Hpdf _ _ _ _ _ Hl).
  - intros anc a H.
    unfold isPdfAttachment, isPdfAttachment_decidedBy, isPdfAttachment_methods.
    cbn [existsb List.find]. by rewrite !H.
  - intros anc t cl label text a Hlabel Htext.
    assert (Q : querySelector ATTACHMENT_NAME anc a = None).
    { unfold querySelector, querySelectorAll. subst a.
      rewrite walk_Elem. cbn [tail walkChildren walk app List.filter locNode locAncestors].
      destruct (matches ATTACHMENT_NAME _ (Text text)) eqn:M; [|done].
      by apply matches_isElement in M. }
    assert (N1 : nameSignal NameElement anc a = None).
    { unfold nameSignal, signalText. by rewrite Q. }
    assert (N2 : nameSignal DataTooltip anc a = None) by done.
    assert (N3 : nameSignal TitleAttr anc a = None) by done.
    assert (N4 : nameSignal AriaLabel anc a = Some (trim label)).
    { unfold nameSignal, signalText. subst a. cbn. by rewrite Hlabel. }
    assert (P1 : pdfSignal NameElement anc a = false).
    { unfold pdfSignal, signalText. by rewrite Q. }
    assert (P2 : pdfSignal DataTooltip anc a = false) by done.
    assert (P3 : pdfSignal TitleAttr anc a = false) by done.
    assert (P4 : pdfSignal AllText anc a = true).
    { unfold pdfSignal, signalText. subst a. cbn [default id].
      apply includes_pdf_lower. cbn [textContent].
      assert (E : forall x, x +:+ EmptyString = x).
      { induction x as [|c x IH]; [done|]. cbv [String.append]. fold String.append.
        by rewrite IH. }
      by rewrite E. }
    unfold getAttachmentFileName, getAttachmentFileName_decidedBy,
      isPdfAttachment_decidedBy, getAttachmentFileName_methods, isPdfAttachment_methods.
    cbn [firstResult List.find]. by rewrite N1, N2, N3, N4, P1, P2, P3, P4.
  - unfold getAttachmentFileName_methods, isPdfAttachment_methods.
    do 3 apply perm_skip. apply perm_swap.
Qed.

Lemma C9_filename_cascade_witness :
  let a := Elem "div" ["aZo"] [("title", "scan.txt")] [Text "Scan 12 KB"] in
  isPdfAttachment [] a = false /\ getAttachmentFileName [] a = "document.pdf".
Proof.
  intros a. split; [reflexivity|].
  apply (proj1 (proj2 (proj2 C9_filename_cascade)) [] a). reflexivity.
Defined.

(** C9 as stated fails twice.  The text-content pattern ignores letter
    case, so an element none of whose signals contains [.pdf] can still get
    a name other than the placeholder; and the two cascades differ in
    order: with a file name in [aria-label] and another in the text,
    classification is decided by the text and extraction by the label. *)
Lemma C9_counterexample :
  let a := Elem "div" ["aZo"] [] [Text "SCAN.PDF"] in
  let b := Elem "div" ["aZo"] [("aria-label", "x.pdf")] [Text "y.pdf"] in
  ((forall s, includes ".pdf" (default "" (signalText s [] a)) = false) /\
   getAttachmentFileName [] a = "SCAN.PDF") /\
  (isPdfAttachment_decidedBy [] b = Some AllText /\
   getAttachmentFileName_decidedBy [] b = Some AriaLabel /\
   isPdfAttachment_methods <> getAttachmentFileName_methods).
Proof.
  intros a b. repeat split; try reflexivity; try done.
  intros s. by destruct s.
Qed.

(** *** The processed marker and the selectors *)

Lemma alike_refl x : alike x x.
Proof. by split. Qed.

Lemma Forall2_alike_refl anc : Forall2 alike anc anc.
Proof. induction anc; constructor; [apply alike_refl|done]. Qed.

Lemma alike_classListAdd a : alike (classListAdd PROCESSED a) a.
Proof.
  destruct a as [|t cl attrs cs]; [apply alike_refl|]. unfold classListAdd.
  destruct (existsb _ cl); [apply alike_refl|]. split; [done|].
  intros [c| | |] Hs; try done. simpl. rewrite existsb_app. simpl.
  replace (String.eqb c PROCESSED) with false; [by rewrite !orb_false_r|].
  symmetry. apply String.eqb_neq. congruence.
Qed.

Lemma matchCompound_alike x y c :
  alike x y -> Forall (fun s => s <> byClass PROCESSED) c ->
  matchCompound x c = matchCompound y c.
Proof.
  intros [He Hs] Hc. unfold matchCompound. rewrite He. f_equal.
  induction Hc as [|s c Hne _ IH]; [done|]. simpl. by rewrite IH, Hs.
Qed.

Lemma matchAncestors_alike anc anc' ups :
  Forall2 alike anc anc' ->
  Forall (Forall (fun s => s <> byClass PROCESSED)) ups ->
  matchAncestors anc ups = matchAncestors anc' ups.
Proof.
  intros H. revert ups. induction H as [|x y anc anc' Hxy _ IH]; intros ups Hups.
  - by destruct ups.
  - destruct ups as [|u ups]; [done|]. cbn [matchAncestors].
    apply Forall_cons in Hups as [Hu Hups'].
    rewrite (matchCompound_alike x y u Hxy Hu).
    destruct (matchCompound y u); apply IH; [done|by constructor].
Qed.

Lemma matches_alike sel anc anc' n :
  unmarked sel -> Forall2 alike anc anc' -> matches sel anc n = matches sel anc' n.
Proof.
  intros Hsel Hanc. unfold matches.
  induction Hsel as [|s sel Hs _ IH]; [done|]. simpl. rewrite IH. f_equal.
  unfold matchComplex. apply Forall_rev in Hs. unfold compound in *.
  destruct (rev s) as [|key ups]; [done|]. apply Forall_cons in Hs as [_ Hups].
  by rewrite (matchAncestors_alike anc anc' ups Hanc Hups).
Qed.

Lemma walk_alike n : forall anc anc' here,
  Forall2 alike anc anc' ->
  Forall2 locAlike (walk anc here n) (walk anc' here n).
Proof.
  induction n as [s|t cl attrs cs IH] using Node_nested_ind; intros anc anc' here Hanc.
  - simpl. constructor; [done|constructor].
  - rewrite !walk_Elem. constructor; [done|].
    assert (Hup : Forall2 alike (Elem t cl attrs cs :: anc) (Elem t cl attrs cs :: anc'))
      by (constructor; [apply alike_refl|done]).
    revert Hup. generalize (Elem t cl attrs cs :: anc) (Elem t cl attrs cs :: anc') 0.
    induction IH as [|c cs' Hc _ IHcs]; intros up up' k Hup; simpl; [constructor|].
    apply Forall2_app; [by apply Hc | by apply IHcs].
Qed.

Lemma walkChildren_alike cs : forall up up' here k,
  Forall2 alike up up' ->
  Forall2 locAlike (walkChildren up here k cs) (walkChildren up' here k cs).
Proof.
  induction cs as [|c cs IH]; intros up up' here k Hup; simpl; [constructor|].
  apply Forall2_app; [by apply walk_alike | by apply IH].
Qed.

Lemma filter_matches_alike sel l l' :
  unmarked sel -> Forall2 locAlike l l' ->
  Forall2 locAlike
    (List.filter (fun x => matches sel (locAncestors x) (locNode x)) l)
    (List.filter (fun x => matches sel (locAncestors x) (locNode x)) l').
Proof.
  intros Hsel H. induction H as [|x y l l' (Hp & Hn & Ha) _ IH]; [constructor|].
  simpl. rewrite (matches_alike sel _ _ (locNode x) Hsel Ha), Hn.
  destruct (matches sel _ _); [constructor|]; done.
Qed.

(** Marking an element as processed does not change what a selector that
    does not name the marker finds below it. *)
Lemma querySelector_marked sel anc a :
  unmarked sel ->
  locNode <$> querySelector sel anc (classListAdd PROCESSED a)
  = locNode <$> querySelector sel anc a.
Proof.
  intros Hsel. destruct a as [|t cl attrs cs]; [done|].
  unfold classListAdd. destruct (existsb _ cl) eqn:E; [done|].
  unfold querySelector, querySelectorAll. rewrite !walk_Elem. cbn [tail].
  assert (H : Forall2 locAlike
    (walkChildren (Elem t (cl ++ [PROCESSED]) attrs cs :: anc) [] 0 cs)
    (walkChildren (Elem t cl attrs cs :: anc) [] 0 cs)).
  { apply walkChildren_alike. constructor; [|apply Forall2_alike_refl].
    pose proof (alike_classListAdd (Elem t cl attrs cs)) as Ha.
    unfold classListAdd in Ha. by rewrite E in Ha. }
  apply (filter_matches_alike sel _ _ Hsel) in H.
  destruct H as [|x y l l' (_ & Hn & _) _]; [done|]. simpl. by rewrite Hn.
Qed.

Lemma unmarked_ATTACHMENT_NAME : unmarked ATTACHMENT_NAME.
Proof. repeat constructor; done. Qed.

Lemma signalText_marked s anc a :
  signalText s anc (classListAdd PROCESSED a) = signalText s anc a.
Proof.
  assert (Hattr : forall name,
    getAttribute name (classListAdd PROCESSED a) = getAttribute name a).
  { intros name. destruct a as [|t cl attrs cs]; [done|]. simpl.
    by destruct (existsb _ cl). }
  assert (Htext : textContent (classListAdd PROCESSED a) = textContent a).
  { destruct a as [|t cl attrs cs]; [done|]. simpl classListAdd.
    destruct (existsb _ cl); [done|]. by rewrite !textContent_Elem. }
  destruct s; unfold signalText; rewrite ?Hattr, ?Htext; try done.
  pose proof (querySelector_marked ATTACHMENT_NAME anc a unmarked_ATTACHMENT_NAME) as H.
  destruct (querySelector _ anc (classListAdd PROCESSED a)) as [l|],
           (querySelector _ anc a) as [l'|]; simplify_eq/=; [by rewrite H|done].
Qed.

(** The processed marker does not change the extracted file name. *)
Lemma getAttachmentFileName_marked anc a :
  getAttachmentFileName anc (classListAdd PROCESSED a) = getAttachmentFileName anc a.
Proof.
  assert (H : forall s, nameSignal s anc (classListAdd PROCESSED a) = nameSignal s anc a).
  { intros s. unfold nameSignal. by rewrite signalText_marked. }
  rewrite !getAttachmentFileName_unfold. by rewrite !H.
Qed.

(** ** The reconciler *)

Lemma handleCheckStatus_spec id st :
  isTransferred (worker.handleCheckStatus id st) = true
  <-> exists r, r ∈ transferredEmails st /\ emailId r = id.
Proof.
  unfold worker.handleCheckStatus, storage.getTransferredEmail. simpl.
  rewrite bool_decide_eq_true. apply find_is_Some.
Qed.

Lemma handleCheckStatusByFilename_spec name st :
  isInBoringTax (worker.handleCheckStatusByFilename name st) = true
  <-> exists x, x ∈ boringTaxFiles st ++ (fileName <$> transferredEmails st)
                /\ normalizedFileName x = normalizedFileName name.
Proof.
  unfold worker.handleCheckStatusByFilename. simpl.
  rewrite orb_true_iff, bool_decide_eq_true, isFileInBoringTax_spec,
    isFileTransferredByName_spec.
  split.
  - intros [(x & Hx & E)|(e & He & E)].
    + exists x. split; [|done]. apply elem_of_app. by left.
    + exists (fileName e). split; [|done]. apply elem_of_app. right.
      apply list_elem_of_fmap. by exists e.
  - intros (x & [Hx|(e & -> & He)%list_elem_of_fmap]%elem_of_app & E).
    + left. by exists x.
    + right. by exists e.
Qed.

Lemma count_button_of_button anc a id subj :
  count isButton (createUploadButton anc a id subj) = 1
  /\ count isBadge (createUploadButton anc a id subj) = 0.
Proof. split; reflexivity. Qed.

Lemma count_badge_of_badge h d :
  count isButton (createStatusBadge h d) = 0
  /\ count isBadge (createStatusBadge h d) = 1.
Proof. split; reflexivity. Qed.

(** [processAttachment] on a node that reaches the status check. *)
Lemma processAttachment_Ready h ch p doc c :
  prepare h p doc = Some (Ready c) ->
  processAttachment h ch p doc = Some (render h ch p c).
Proof. unfold processAttachment. by intros ->. Qed.

(** C1: for a candidate with file name [f] and email identity [e] that
    reaches the status check, with both round trips answered from the
    storage, a badge is rendered if and only if the check by file name
    reports [f] as known (the normalized membership test against the cached
    remote names together with the locally transferred file names) or a
    transfer record exists for [e], and an upload button otherwise; a file
    name in the cached remote list suffices for the badge. *)
Theorem C1_badge_iff_known_or_transferred :
  forall h st p doc c,
    prepare h p doc = Some (Ready c) ->
    let f := candFileName c in
    let e := candEmailId c in
    let known := isInBoringTax (worker.handleCheckStatusByFilename f st) in
    let hasRecord := isTransferred (worker.handleCheckStatus e st) in
    exists doc' o,
      processAttachment h (serviceWorker st) p doc = Some (doc', o) /\
      (o = BadgeAdded \/ o = ButtonAdded) /\
      (o = BadgeAdded <-> known = true \/ hasRecord = true) /\
      (o = BadgeAdded ->
         count isBadge doc' = S (count isBadge doc)
         /\ count isButton doc' = count isButton doc) /\
      (o = ButtonAdded ->
         count isButton doc' = S (count isButton doc)
         /\ count isBadge doc' = count isBadge doc) /\
      (known = true
       <-> exists x, x ∈ boringTaxFiles st ++ (fileName <$> transferredEmails st)
                     /\ trim (toLowerCase x) = trim (toLowerCase f)) /\
      (hasRecord = true <-> exists r, r ∈ transferredEmails st /\ emailId r = e) /\
      (storage.isFileInBoringTax f st = true -> o = BadgeAdded) /\
      ("a.pdf" ∈ boringTaxFiles st -> f = "a.pdf" ->
       (forall r, r ∈ transferredEmails st -> emailId r <> "E1") -> e = "E1" ->
       o = BadgeAdded).
Proof.
  intros h st p doc c Hc f e known hasRecord.
  exists (fst (render h (serviceWorker st) p c)), (snd (render h (serviceWorker st) p c)).
  pose proof (render_count isButton h (serviceWorker st) p doc c
                byClassOnly_isButton ignoresMarker_isButton Hc) as Hbtn.
  pose proof (render_count isBadge h (serviceWorker st) p doc c
                byClassOnly_isBadge ignoresMarker_isBadge Hc) as Hbdg.
  rewrite (processAttachment_Ready _ _ _ _ _ Hc), <- surjective_pairing.
  assert (Ho : snd (render h (serviceWorker st) p c)
               = if known || hasRecord then BadgeAdded else ButtonAdded).
  { unfold render, checkStatus.
    cbn [serviceWorker CHECK_STATUS_BY_FILENAME CHECK_STATUS].
    subst known hasRecord f e. by destruct (_ || _). }
  rewrite Ho in *. split; [done|].
  split; [destruct (known || hasRecord); tauto|].
  split; [rewrite <- orb_true_iff; by destruct (known || hasRecord)|].
  split; [intros Eo; rewrite Eo in *; simpl in *; lia|].
  split; [intros Eo; rewrite Eo in *; simpl in *; lia|].
  split; [apply handleCheckStatusByFilename_spec|].
  split; [apply handleCheckStatus_spec|].
  assert (Hremote : storage.isFileInBoringTax f st = true ->
                    (if known || hasRecord then BadgeAdded else ButtonAdded) = BadgeAdded).
  { intros Hin. subst known. unfold worker.handleCheckStatusByFilename. simpl.
    fold f. by rewrite Hin. }
  split; [exact Hremote|].
  intros Hin Hf _ _. apply Hremote, isFileInBoringTax_spec.
  exists "a.pdf". by rewrite Hf.
Qed.

Lemma C1_badge_iff_known_or_transferred_witness :
  exists doc',
    processAttachment (openMessage "#inbox/E1") (serviceWorker (remoteKnows ["a.pdf"]))
                      [0; 0] (messageView [chip "a.pdf"])
    = Some (doc', BadgeAdded)
    /\ count isBadge doc' = 1.
Proof.
  edestruct (C1_badge_iff_known_or_transferred
               (openMessage "#inbox/E1") (remoteKnows ["a.pdf"])
               [0; 0] (messageView [chip "a.pdf"]))
    as (doc' & o & Hrun & _ & _ & Hbadge & _ & _ & _ & _ & Hscenario);
    [reflexivity|].
  assert (Ho : o = BadgeAdded).
  { apply Hscenario; [left | reflexivity | | reflexivity].
    intros r Hr. by apply elem_of_nil in Hr. }
  exists doc'. split; [by rewrite Hrun, Ho|].
  by destruct (Hbadge Ho) as [-> _].
Defined.

(** C2: when a PDF candidate has reached the status check and either round
    trip is rejected, [processAttachment] injects an upload button: the
    document gains exactly one button and no badge. *)
Theorem C2_rejected_check_renders_button :
  forall h ch p doc c,
    prepare h p doc = Some (Ready c) ->
    (exists reason, CHECK_STATUS_BY_FILENAME ch (candFileName c) = Rejected reason)
    \/ (exists reason, CHECK_STATUS ch (candEmailId c) = Rejected reason) ->
    exists doc',
      processAttachment h ch p doc = Some (doc', ButtonAddedFallback) /\
      count isButton doc' = S (count isButton doc) /\
      count isBadge doc' = count isBadge doc /\
      count isInjected doc' = S (count isInjected doc).
Proof.
  intros h ch p doc c Hc Hrej.
  exists (fst (render h ch p c)).
  pose proof (render_count isButton h ch p doc c
                byClassOnly_isButton ignoresMarker_isButton Hc) as Hbtn.
  pose proof (render_count isBadge h ch p doc c
                byClassOnly_isBadge ignoresMarker_isBadge Hc) as Hbdg.
  pose proof (render_count isInjected h ch p doc c
                byClassOnly_isInjected ignoresMarker_isInjected Hc) as Hinj.
  assert (Ho : snd (render h ch p c) = ButtonAddedFallback).
  { unfold render, checkStatus.
    destruct Hrej as [[reason ->]|[reason E]]; [done|].
    destruct (CHECK_STATUS_BY_FILENAME ch _); [|done]. by rewrite E. }
  rewrite (processAttachment_Ready _ _ _ _ _ Hc).
  rewrite Ho in *. split; [by rewrite <- Ho, <- surjective_pairing|].
  simpl in *. lia.
Qed.

Lemma C2_rejected_check_renders_button_witness :
  exists doc',
    processAttachment (openMessage "#inbox/E1")
                      (unreachableWorker "Could not establish connection")
                      [0; 0] (messageView [chip "b.pdf"])
    = Some (doc', ButtonAddedFallback)
    /\ count isButton doc' = 1 /\ count isBadge doc' = 0.
Proof.
  edestruct (C2_rejected_check_renders_button
               (openMessage "#inbox/E1")
               (unreachableWorker "Could not establish connection")
               [0; 0] (messageView [chip "b.pdf"]))
    as (doc' & Hrun & Hbtn & Hbdg & _);
    [reflexivity | left; eexists; reflexivity |].
  exists doc'. split; [done|]. split; [by rewrite Hbtn | by rewrite Hbdg].
Defined.

(** ** Re-scanning *)

(** A node with the processed marker, with a button or badge inside, or
    with the file name of a button on the page is skipped. *)
Lemma skipped_nodes_get_nothing :
  forall h ch p doc a doc' o,
    nodeAt p doc = Some a ->
    processAttachment h ch p doc = Some (doc', o) ->
    let anc := ancestorsAt [] p doc in
    classListContains PROCESSED a = true
    \/ (exists btn,
          btn ∈ documentQuerySelectorAll [[[byClass UPLOAD_BUTTON]]] doc
          /\ getAttribute "data-filename" (locNode btn)
             = Some (getAttachmentFileName anc a))
    \/ querySelector [[[byClass UPLOAD_BUTTON]]] anc a <> None
    \/ querySelector [[[byClass STATUS_BADGE]]] anc a <> None ->
    count isInjected doc' = count isInjected doc /\
    count isButton doc' = count isButton doc /\
    count isBadge doc' = count isBadge doc /\
    (classListContains PROCESSED a = true -> doc' = doc).
Proof.
  intros h ch p doc a doc' o Ha Hrun anc Hdup.
  unfold processAttachment in Hrun.
  destruct (prepare h p doc) as [[d o'|c]|] eqn:Hc; simplify_eq.
  - repeat split; try (eapply prepare_Skipped; eauto with dom).
    intros Hm. unfold prepare in Hc. rewrite Ha in Hc.
    destruct a; [done|]. rewrite Hm in Hc. by simplify_eq.
  - exfalso.
    destruct (prepare_Ready _ _ _ _ Hc)
      as (a' & Ha' & _ & Hm & _ & Hbtn & _ & _ & _ & _ & _ & _ & _ & Hq1 & Hq2).
    rewrite Ha in Ha'. simplify_eq. subst anc.
    destruct Hdup as [Hdup|[(btn & Hin & Hname)|[Hdup|Hdup]]]; try congruence.
    apply not_true_iff_false in Hbtn. apply Hbtn, existsb_exists.
    exists btn. split; [by apply list_elem_of_In|]. by apply bool_decide_eq_true.
Qed.

(** *** A second pass over the same node *)

Lemma classListContains_added a :
  isElement a = true -> classListContains PROCESSED (classListAdd PROCESSED a) = true.
Proof.
  destruct a as [|t cl attrs cs]; [done|]. intros _. unfold classListAdd.
  destruct (existsb _ cl) eqn:E; [done|]. simpl. rewrite existsb_app. simpl.
  apply orb_true_r.
Qed.

Lemma isElement_classListAdd c a : isElement (classListAdd c a) = isElement a.
Proof. destruct a as [|t cl attrs cs]; [done|]. simpl. by destruct (existsb _ cl). Qed.

Lemma nodeAt_updateAt_below p q f : forall n a,
  nodeAt p n = Some a -> nodeAt p (updateAt (p ++ q) f n) = Some (updateAt q f a).
Proof.
  induction p as [|i p IH]; intros n a; cbn [nodeAt app updateAt].
  - by intros [= ->].
  - destruct n as [|t cl attrs cs]; [done|].
    destruct (cs !! i) as [c|] eqn:E; [|done]. cbn [mbind option_bind]. intros H.
    rewrite list_lookup_alter_eq, E. simpl. by apply IH.
Qed.

(** Appending a child somewhere below a node leaves the node an element
    with the classes it had. *)
Lemma updateAt_appendChild_head c e q a :
  classListContains c (updateAt q (appendChild e) a) = classListContains c a
  /\ isElement (updateAt q (appendChild e) a) = isElement a.
Proof. destruct q as [|i q], a as [|t cl attrs cs]; done. Qed.

Lemma nodeAt_insertAfter e p : forall n a,
  nodeAt p n = Some a -> nodeAt p (insertAfter p e n) = Some a.
Proof.
  induction p as [|i p IH]; intros n a; [done|].
  destruct n as [|t cl attrs cs]; [done|]. cbn [nodeAt].
  destruct (cs !! i) as [c|] eqn:E; [|done]. cbn [mbind option_bind]. intros H.
  destruct p as [|j p].
  - cbn [insertAfter nodeAt].
    rewrite lookup_app_l by (apply lookup_lt_Some in E; rewrite length_take; lia).
    rewrite lookup_take_lt by lia. by rewrite E.
  - change (insertAfter (i :: j :: p) e (Elem t cl attrs cs))
      with (Elem t cl attrs (alter (insertAfter (j :: p) e) i cs)).
    cbn [nodeAt]. rewrite list_lookup_alter_eq, E. simpl. by apply IH.
Qed.

(** After [insertElement] the attachment is still at its path, with its
    classes. *)
Lemma insertElement_keeps h e p anc a doc :
  nodeAt p doc = Some a -> isElement a = true ->
  exists a', nodeAt p (insertElement h e p anc a doc) = Some a'
             /\ isElement a' = true
             /\ classListContains PROCESSED a' = classListContains PROCESSED a.
Proof.
  intros Hp Ha. unfold insertElement. destruct (_ && _).
  - exists a. by rewrite (nodeAt_insertAfter e p doc a Hp).
  - exists (updateAt (findButtonContainer anc a) (appendChild e) a).
    rewrite (nodeAt_updateAt_below _ _ _ _ _ Hp).
    destruct (updateAt_appendChild_head PROCESSED e (findButtonContainer anc a) a)
      as [-> ->]. done.
Qed.

(** A node that carries the marker is left alone. *)
Lemma processAttachment_processed h ch p doc a :
  nodeAt p doc = Some a -> isElement a = true ->
  classListContains PROCESSED a = true ->
  processAttachment h ch p doc = Some (doc, AlreadyProcessed).
Proof.
  intros Ha He Hm. unfold processAttachment, prepare. rewrite Ha.
  destruct a; [done|]. by rewrite Hm.
Qed.

(** Whatever [processAttachment] did, the node carries the marker
    afterwards, unless it was skipped as not being a PDF. *)
Lemma processAttachment_marks h ch p doc doc1 o1 :
  processAttachment h ch p doc = Some (doc1, o1) ->
  (o1 = NotPdf /\ doc1 = doc /\ forall h2 ch2,
      processAttachment h2 ch2 p doc = Some (doc, NotPdf))
  \/ exists a1, nodeAt p doc1 = Some a1 /\ isElement a1 = true
                /\ classListContains PROCESSED a1 = true.
Proof.
  unfold processAttachment. intros Hrun.
  destruct (prepare h p doc) as [[d o|c]|] eqn:Hc; simplify_eq.
  - unfold prepare in Hc.
    destruct (nodeAt p doc) as [[s|t cl attrs cs]|] eqn:Ha; try done.
    set (a := Elem t cl attrs cs) in *.
    assert (Hmarked : exists a1,
      nodeAt p (updateAt p (classListAdd PROCESSED) doc) = Some a1
      /\ isElement a1 = true /\ classListContains PROCESSED a1 = true).
    { exists (classListAdd PROCESSED a). split; [by apply nodeAt_updateAt|].
      by rewrite isElement_classListAdd, classListContains_added. }
    destruct (classListContains PROCESSED a) eqn:H1.
    { simplify_eq. right. by exists a. }
    destruct (_ || _) eqn:H2; [simplify_eq; by right|].
    destruct (isPdfAttachment _ a) eqn:H3; cbn [negb] in Hc.
    + destruct (existsb _ _); [simplify_eq; by right|].
      destruct (extractEmailId h _) as [id|]; [|simplify_eq; by right].
      destruct (truthy id); cbn [negb] in Hc; simplify_eq. by right.
    + simplify_eq. left. split; [done|]. split; [done|].
      intros h2 ch2. unfold prepare. rewrite Ha. fold a.
      by rewrite H1, H2, H3.
  - right. destruct (prepare_Ready_placed _ _ _ _ Hc) as [Hp Hel].
    destruct (prepare_Ready _ _ _ _ Hc) as (a & _ & Ha & _ & _ & _ & _ & _ & Hn & _).
    assert (Hm : classListContains PROCESSED (candNode c) = true)
      by (rewrite Hn; by apply classListContains_added).
    unfold render in Hrun.
    destruct (checkStatus _ _ _) as [[r1 r2]|]; [destruct (_ || _)|]; simplify_eq;
      match goal with
      | |- context [insertElement ?h ?e ?p ?anc ?a ?doc] =>
          destruct (insertElement_keeps h e p anc a doc Hp Hel) as (a' & E1 & E2 & E3)
      end; exists a'; by rewrite E3.
Qed.

(** C5, as the code has it: processing a node that carries the processed
    marker, a node that already contains a button or badge, or a node whose
    extracted file name is the [data-filename] of an upload button anywhere
    on the page, injects nothing, and a node with the marker leaves the
    document as it is; and once a node has been processed, every further
    pass over it leaves the document as it is. *)
Theorem C5_rescan_injects_nothing :
  (forall h ch p doc a doc' o,
    nodeAt p doc = Some a ->
    processAttachment h ch p doc = Some (doc', o) ->
    let anc := ancestorsAt [] p doc in
    classListContains PROCESSED a = true
    \/ (exists btn,
          btn ∈ documentQuerySelectorAll [[[byClass UPLOAD_BUTTON]]] doc
          /\ getAttribute "data-filename" (locNode btn)
             = Some (getAttachmentFileName anc a))
    \/ querySelector [[[byClass UPLOAD_BUTTON]]] anc a <> None
    \/ querySelector [[[byClass STATUS_BADGE]]] anc a <> None ->
    count isInjected doc' = count isInjected doc /\
    count isButton doc' = count isButton doc /\
    count isBadge doc' = count isBadge doc /\
    (classListContains PROCESSED a = true -> doc' = doc)) /\
  (forall h ch p doc doc1 o1,
     processAttachment h ch p doc = Some (doc1, o1) ->
     forall h2 ch2, exists o2,
       processAttachment h2 ch2 p doc1 = Some (doc1, o2)
       /\ (o2 = AlreadyProcessed \/ o2 = NotPdf)).
Proof.
  split; [exact skipped_nodes_get_nothing|].
  intros h ch p doc doc1 o1 Hrun h2 ch2.
  destruct (processAttachment_marks _ _ _ _ _ _ Hrun)
    as [(-> & -> & Hnot)|(a1 & Ha1 & He1 & Hm1)].
  - exists NotPdf. split; [apply Hnot | by right].
  - exists AlreadyProcessed. split; [|by left].
    by eapply processAttachment_processed.
Qed.


Lemma C5_rescan_injects_nothing_witness :
  exists doc2,
    processAttachment (openMessage "#inbox/E1") (serviceWorker (remoteKnows []))
                      [0; 1] afterFirstScan = Some (doc2, ButtonExistsForFile)
    /\ count isInjected afterFirstScan = 1
    /\ count isInjected doc2 = count isInjected afterFirstScan.
Proof.
  eexists. split; [reflexivity|]. split; [reflexivity|].
  refine (proj1 (proj1 C5_rescan_injects_nothing (openMessage "#inbox/E1")
                   (serviceWorker (remoteKnows [])) [0; 1] afterFirstScan
                   _ _ _ eq_refl eq_refl _)).
  right. left. exists firstButton. split; [|reflexivity].
  apply list_elem_of_In. vm_compute. left. reflexivity.
Defined.

(** A badge does not stop a second rendering of the same attachment: with
    ["a.pdf"] known remotely, the first chip gets a badge, and the second
    chip with the same file name gets another one. *)
Lemma C5_counterexample :
  let h := openMessage "#inbox/E1" in
  let ch := serviceWorker (remoteKnows ["a.pdf"]) in
  let doc := messageView [chip "a.pdf"; chip "a.pdf"] in
  match processAttachment h ch [0; 0] doc with
  | Some (doc1, BadgeAdded) =>
      match processAttachment h ch [0; 1] doc1 with
      | Some (doc2, BadgeAdded) =>
          (getAttachmentFileName (ancestorsAt [] [0; 0] doc)
             <$> nodeAt [0; 0] doc) = Some "a.pdf"
          /\ (getAttachmentFileName (ancestorsAt [] [0; 1] doc1)
                <$> nodeAt [0; 1] doc1) = Some "a.pdf"
          /\ count isInjected doc1 = 1 /\ count isInjected doc2 = 2
      | _ => False
      end
  | _ => False
  end.
Proof. vm_compute. repeat split. Qed.

(** ** Identity of the open message *)

Lemma hashMatchHere_truthy s g : hashMatchHere s = Some g -> truthy g = true.
Proof.
  unfold hashMatchHere. destruct (span notSlash s) as [run rest].
  destruct (truthy run); [|done]. destruct rest as [|c r]; [done|].
  destruct (Ascii.eqb c "/") eqn:E.
  - apply Ascii.eqb_eq in E. subst c.
    destruct (span notSlash r) as [group rest']. destruct (truthy group) eqn:T; [|done].
    by intros [= <-].
  - intros H. exfalso. destruct c as [[] [] [] [] [] [] [] []]; try done.
Qed.

Lemma hashMatch_truthy s g : hashMatch s = Some g -> truthy g = true.
Proof.
  induction s as [|c s IH]; [done|].
  change (hashMatch (String c s))
    with (if Ascii.eqb c "#" then
            match hashMatchHere s with
            | Some g => Some g
            | None => hashMatch s
            end
          else hashMatch s).
  destruct (Ascii.eqb c "#"); [|done].
  destruct (hashMatchHere s) as [g'|] eqn:E; [|done].
  intros [= <-]. by eapply hashMatchHere_truthy.
Qed.

Lemma truthy_false (s : string) : truthy s = false <-> s = "".
Proof.
  unfold truthy. rewrite negb_false_iff. apply String.eqb_eq.
Qed.

Lemma truthy_true (s : string) : truthy s = true <-> s <> "".
Proof.
  unfold truthy. rewrite negb_true_iff. apply String.eqb_neq.
Qed.

Lemma truthy_nonempty s : truthy s = true -> s <> "".
Proof. by intros H ->. Qed.

(** The first element that matches the message-container selector carries
    one of the two attributes the selector names. *)
Lemma messageContainer_attribute doc m :
  documentQuerySelector MESSAGE_CONTAINER doc = Some m ->
  getAttribute "data-message-id" (locNode m) <> None \/
  getAttribute "data-legacy-message-id" (locNode m) <> None.
Proof.
  unfold documentQuerySelector, documentQuerySelectorAll. intros H.
  apply head_Some_elem_of, list_elem_of_In, filter_In in H as [_ H].
  destruct (locNode m) as [text|t cl attrs cs]; [done|].
  unfold matches, MESSAGE_CONTAINER in H. cbn in H.
  rewrite orb_false_r in H.
  apply orb_true_iff in H as [H|H]; apply andb_true_iff in H as [H _];
    rewrite andb_true_r in H; apply bool_decide_eq_true in H; [by left|by right].
Qed.

(** When [processAttachment] stops at the guard on the identity. *)
Lemma processAttachment_NoEmailId h ch p doc doc' :
  processAttachment h ch p doc = Some (doc', NoEmailId)
  <-> exists attachment,
        let anc := ancestorsAt [] p doc in
        nodeAt p doc = Some attachment /\ isElement attachment = true /\
        classListContains PROCESSED attachment = false /\
        querySelector [[[byClass UPLOAD_BUTTON]]] anc attachment = None /\
        querySelector [[[byClass STATUS_BADGE]]] anc attachment = None /\
        isPdfAttachment anc attachment = true /\
        existsb (fun btn => bool_decide (getAttribute "data-filename" (locNode btn)
                                         = Some (getAttachmentFileName anc attachment)))
                (documentQuerySelectorAll [[[byClass UPLOAD_BUTTON]]] doc) = false /\
        doc' = updateAt p (classListAdd PROCESSED) doc /\
        (extractEmailId h doc' = None \/ extractEmailId h doc' = Some "").
Proof.
  unfold processAttachment, prepare. split.
  - destruct (nodeAt p doc) as [[text|t cl attrs cs]|] eqn:E; try done.
    intros H. exists (Elem t cl attrs cs). cbv zeta.
    destruct (classListContains PROCESSED _) eqn:H1; [done|].
    destruct (_ || _) eqn:H2; [done|].
    destruct (isPdfAttachment _ _) eqn:H3; [|done]. cbn [negb] in H.
    destruct (existsb _ _) eqn:H4; [done|].
    apply orb_false_iff in H2 as [Hb1 Hb2].
    apply bool_decide_eq_false in Hb1, Hb2.
    assert (Q1 : querySelector [[[byClass UPLOAD_BUTTON]]]
                   (ancestorsAt [] p doc) (Elem t cl attrs cs) = None).
    { destruct (querySelector [[[byClass UPLOAD_BUTTON]]] _ _); [|done]. by destruct Hb1. }
    assert (Q2 : querySelector [[[byClass STATUS_BADGE]]]
                   (ancestorsAt [] p doc) (Elem t cl attrs cs) = None).
    { destruct (querySelector [[[byClass STATUS_BADGE]]] _ _); [|done]. by destruct Hb2. }
    destruct (extractEmailId h _) as [id|] eqn:H5.
    + destruct (truthy id) eqn:H6; cbn [negb] in H.
      * exfalso. unfold render in H. cbn [candFileName candEmailId] in H.
        destruct (checkStatus _ _ _) as [[r1 r2]|]; [destruct (_ || _)|]; simplify_eq.
      * injection H as <-. apply truthy_false in H6 as ->.
        repeat split; try done. by right.
    + injection H as <-. repeat split; try done. by left.
  - intros (a & Ha & Hel & H1 & Q1 & Q2 & H3 & H4 & -> & H5). rewrite Ha.
    destruct a as [text|t cl attrs cs]; [done|].
    rewrite H1, Q1, Q2, H3, H4. cbn [negb orb].
    rewrite !bool_decide_eq_false_2 by (by intros ?). cbn [orb].
    destruct H5 as [-> | ->]; done.
Qed.

(** C7: [extractEmailId] is not total.  With the fragment
    ["#inbox/"], which [isInOpenedEmail] takes for an opened message and
    the pattern of [extractEmailId] does not match, and a message container
    that carries [data-legacy-message-id] only, the selector finds the
    container, [data-message-id] is read and is null, and the generated
    fallback is not reached: [extractEmailId] returns null,
    [processAttachment] stops at its guard for a PDF chip that was never
    transferred, the chip is marked as processed, and the scan hands nothing
    to the status check, so that the chip gets neither button nor badge, on
    this pass and on every later one.  The rest of the statement gives the
    result of [extractEmailId] on every page: null exactly when the fragment
    does not match and the first element matching the selector has no
    [data-message-id], an element that then carries the legacy attribute;
    otherwise the capture group, the attribute of that first element, or the
    fallback, in this order; and [processAttachment] stops at the guard
    exactly for an unprocessed, undecorated PDF node without a button for
    its file name when the identity is null or empty. *)
Theorem C7_legacy_container_gives_null :
  (let h := openMessage "#inbox/" in
   let doc := legacyMessageView [chip "a.pdf"] in
   let marked := updateAt [0; 0; 0] (classListAdd PROCESSED) doc in
   gmail.isInOpenedEmail h doc = true /\
   hashMatch (location_hash h) = None /\
   (exists m, documentQuerySelector MESSAGE_CONTAINER doc = Some m /\
              getAttribute "data-legacy-message-id" (locNode m) = Some "18e0a1b2c3d4e5f6") /\
   extractEmailId h doc = None /\
   nodeAt [0; 0; 0] doc = Some (chip "a.pdf") /\
   isPdfAttachment (ancestorsAt [] [0; 0; 0] doc) (chip "a.pdf") = true /\
   (forall ch, processAttachment h ch [0; 0; 0] doc = Some (marked, NoEmailId)) /\
   (forall ch, processAttachment h ch [0; 0; 0] marked = Some (marked, AlreadyProcessed)) /\
   gmail.scanForAttachments h doc = (marked, []) /\
   nodeAt [0; 0; 0] marked = Some (classListAdd PROCESSED (chip "a.pdf")) /\
   count isInjected marked = 0) /\
  (forall h doc,
     extractEmailId h doc = None
     <-> hashMatch (location_hash h) = None /\
         exists m, documentQuerySelector MESSAGE_CONTAINER doc = Some m /\
                   getAttribute "data-message-id" (locNode m) = None /\
                   getAttribute "data-legacy-message-id" (locNode m) <> None) /\
  (forall h doc id,
     extractEmailId h doc = Some id
     <-> (hashMatch (location_hash h) = Some id /\ id <> "") \/
         (hashMatch (location_hash h) = None /\
          exists m, documentQuerySelector MESSAGE_CONTAINER doc = Some m /\
                    getAttribute "data-message-id" (locNode m) = Some id) \/
         (hashMatch (location_hash h) = None /\
          documentQuerySelector MESSAGE_CONTAINER doc = None /\
          id = "gmail-" +:+ ofN (Date_now h) +:+ "-" +:+ keepAlnum (location_hash h))) /\
  (forall h ch p doc doc',
     processAttachment h ch p doc = Some (doc', NoEmailId)
     <-> exists attachment,
           let anc := ancestorsAt [] p doc in
           nodeAt p doc = Some attachment /\ isElement attachment = true /\
           classListContains PROCESSED attachment = false /\
           querySelector [[[byClass UPLOAD_BUTTON]]] anc attachment = None /\
           querySelector [[[byClass STATUS_BADGE]]] anc attachment = None /\
           isPdfAttachment anc attachment = true /\
           existsb (fun btn => bool_decide (getAttribute "data-filename" (locNode btn)
                                            = Some (getAttachmentFileName anc attachment)))
                   (documentQuerySelectorAll [[[byClass UPLOAD_BUTTON]]] doc) = false /\
           doc' = updateAt p (classListAdd PROCESSED) doc /\
           (extractEmailId h doc' = None \/ extractEmailId h doc' = Some "")) /\
  (forall h ch p doc doc' attachment,
     processAttachment h ch p doc = Some (doc', NoEmailId) ->
     nodeAt p doc = Some attachment ->
     nodeAt p doc' = Some (classListAdd PROCESSED attachment) /\
     count isInjected doc' = count isInjected doc).
Proof.
  split; [|split; [|split; [|split]]].
  - cbv zeta. split; [reflexivity|]. split; [reflexivity|].
    split; [eexists; split; reflexivity|].
    split; [reflexivity|]. split; [reflexivity|]. split; [reflexivity|].
    split; [intros ch; reflexivity|]. split; [intros ch; reflexivity|].
    split; [reflexivity|]. split; reflexivity.
  - intros h doc. unfold extractEmailId. split.
    + destruct (hashMatch _); [done|].
      destruct (documentQuerySelector _ _) as [m|] eqn:Q; [|done].
      intros Hm. split; [done|]. exists m. split; [done|]. split; [done|].
      destruct (messageContainer_attribute _ _ Q) as [H|H]; [done|exact H].
    + intros (-> & m & -> & Hm & _). exact Hm.
  - intros h doc id. unfold extractEmailId. split.
    + destruct (hashMatch _) as [g|] eqn:Hh.
      * intros [= ->]. left. split; [done|].
        by eapply truthy_nonempty, hashMatch_truthy.
      * destruct (documentQuerySelector _ _) as [m|] eqn:Q.
        -- intros Hm. right. left. split; [done|]. by exists m.
        -- intros [= <-]. right. right. done.
    + intros [[-> _] | [(-> & m & -> & Hm) | (-> & -> & ->)]]; done.
  - intros h ch p doc doc'. apply processAttachment_NoEmailId.
  - intros h ch p doc doc' a Hrun Ha.
    apply processAttachment_NoEmailId in Hrun as (a' & Ha' & _ & _ & _ & _ & _ & _ & -> & _).
    assert (a' = a) as -> by congruence.
    split; [by apply nodeAt_updateAt|].
    apply (count_mark isInjected p doc a); eauto with dom.
Qed.

(** ** Injected nodes *)

Lemma walkChildren_lookup up here k cs j c l :
  cs !! j = Some c ->
  l ∈ walk up (here ++ [k + j]) c ->
  l ∈ walkChildren up here k cs.
Proof.
  revert k j. induction cs as [|x cs IH]; intros k [|j]; simpl; try done.
  - intros [= ->]. rewrite Nat.add_0_r. intros H. apply elem_of_app. by left.
  - intros Hc Hl. apply elem_of_app. right. apply (IH (S k) j); [done|].
    by replace (S k + j) with (k + S j) by lia.
Qed.

(** Every node of the tree is reached by [walk]. *)
Lemma walk_complete q : forall n m anc here,
  nodeAt q n = Some m ->
  exists l, l ∈ walk anc here n /\ locNode l = m.
Proof.
  induction q as [|i q IH]; intros n m anc here; cbn [nodeAt].
  - intros [= ->]. exists (mkLocated here anc m). split; [|done].
    destruct m; simpl; left.
  - destruct n as [|t cl attrs cs]; [done|].
    destruct (cs !! i) as [c|] eqn:E; [|done]. cbn [mbind option_bind]. intros H.
    destruct (IH c m (Elem t cl attrs cs :: anc) (here ++ [0 + i]) H) as (l & Hl & El).
    exists l. split; [|done]. rewrite walk_Elem. right.
    by eapply walkChildren_lookup.
Qed.

(** A node with class [c] anywhere in the document is among the results of
    [document.querySelectorAll] for that class. *)
Lemma documentQuerySelectorAll_complete c q doc m :
  nodeAt q doc = Some m -> classListContains c m = true ->
  exists l, l ∈ documentQuerySelectorAll [[[byClass c]]] doc /\ locNode l = m.
Proof.
  intros Hq Hc. destruct (walk_complete q doc m [] [] Hq) as (l & Hl & El).
  exists l. split; [|done]. unfold documentQuerySelectorAll.
  apply list_elem_of_In, filter_In. split; [by apply list_elem_of_In|].
  by rewrite matches_byClass, El.
Qed.

Lemma insertAfter_nodeAt e p : forall n a,
  p <> [] -> nodeAt p n = Some a ->
  exists q, nodeAt q (insertAfter p e n) = Some e.
Proof.
  induction p as [|i p IH]; intros n a Hp; [done|].
  destruct n as [|t cl attrs cs]; [done|]. cbn [nodeAt].
  destruct (cs !! i) as [c|] eqn:E; [|done]. cbn [mbind option_bind]. intros H.
  destruct p as [|j p].
  - exists [S i]. cbn [insertAfter nodeAt].
    assert (Hlen : length (take (S i) cs) = S i).
    { apply lookup_lt_Some in E. rewrite length_take. lia. }
    rewrite lookup_app_r by lia. by rewrite Hlen, Nat.sub_diag.
  - destruct (IH c a ltac:(done) H) as (q & Hq). exists (i :: q).
    change (insertAfter (i :: j :: p) e (Elem t cl attrs cs))
      with (Elem t cl attrs (alter (insertAfter (j :: p) e) i cs)).
    cbn [nodeAt]. by rewrite list_lookup_alter_eq, E.
Qed.

(** The element handed to [insertElement] is in the resulting document. *)
Lemma insertElement_nodeAt h e p anc a doc :
  nodeAt p doc = Some a -> isElement a = true ->
  exists q, nodeAt q (insertElement h e p anc a doc) = Some e.
Proof.
  intros Hp Ha. unfold insertElement.
  destruct (findButtonContainer_nodeAt anc a Ha) as (target & Ht & Hte).
  assert (Hq : nodeAt (p ++ findButtonContainer anc a) doc = Some target)
    by (by rewrite nodeAt_app, Hp).
  destruct (_ && _) eqn:Hz.
  - apply andb_true_iff in Hz as [_ Hne%bool_decide_eq_true].
    by eapply insertAfter_nodeAt.
  - destruct target as [|t cl attrs cs]; [done|].
    exists ((p ++ findButtonContainer anc a) ++ [length cs]).
    rewrite nodeAt_app, (nodeAt_updateAt _ _ _ _ Hq). simpl.
    by rewrite list_lookup_middle.
Qed.

Lemma candidate_file_name h p doc c :
  prepare h p doc = Some (Ready c) ->
  getAttachmentFileName (candAncestors c) (candNode c) = candFileName c.
Proof.
  intros (a & _ & _ & _ & _ & _ & _ & -> & -> & -> & _)%prepare_Ready.
  apply getAttachmentFileName_marked.
Qed.

(** C8, as the code has it: every upload button carries [data-filename],
    the file name extracted from its attachment, and [data-email-id], the
    identity of the open message; a button that [processAttachment] injects
    is found with these attributes by [document.querySelectorAll], and on a
    later pass a node with that file name gets no button or badge of its
    own.  A status badge carries its class and a title, and neither of the
    two attributes. *)
Theorem C8_button_carries_identity :
  (forall anc attachment id subj,
     let button := createUploadButton anc attachment id subj in
     isButton button = true /\
     getAttribute "data-filename" button = Some (getAttachmentFileName anc attachment) /\
     getAttribute "data-email-id" button = Some id) /\
  (forall h ch p doc c,
     prepare h p doc = Some (Ready c) ->
     snd (render h ch p c) <> BadgeAdded ->
     let doc' := fst (render h ch p c) in
     (exists btn,
        btn ∈ documentQuerySelectorAll [[[byClass UPLOAD_BUTTON]]] doc' /\
        getAttribute "data-filename" (locNode btn) = Some (candFileName c) /\
        getAttribute "data-email-id" (locNode btn) = Some (candEmailId c)) /\
     (forall h2 ch2 p2 a2 doc2 o2,
        nodeAt p2 doc' = Some a2 ->
        getAttachmentFileName (ancestorsAt [] p2 doc') a2 = candFileName c ->
        processAttachment h2 ch2 p2 doc' = Some (doc2, o2) ->
        count isInjected doc2 = count isInjected doc')) /\
  (forall h date,
     let badge := createStatusBadge h date in
     isBadge badge = true /\
     getAttribute "data-filename" badge = None /\
     getAttribute "data-email-id" badge = None).
Proof.
  split; [done|]. split; [|done].
  intros h ch p doc c Hc Ho doc'.
  destruct (prepare_Ready_placed _ _ _ _ Hc) as [Hp Hel].
  set (button := createUploadButton (candAncestors c) (candNode c)
                   (candEmailId c) (candSubject c)).
  assert (Hdoc : exists q, nodeAt q doc' = Some button).
  { subst doc'. unfold render in *. fold button in Ho |- *.
    destruct (checkStatus _ _ _) as [[r1 r2]|]; [destruct (_ || _)|];
      cbn [fst snd] in *; try done; by apply insertElement_nodeAt. }
  destruct Hdoc as (q & Hq).
  destruct (documentQuerySelectorAll_complete UPLOAD_BUTTON q _ button Hq eq_refl)
    as (btn & Hin & E).
  assert (Hname : getAttribute "data-filename" (locNode btn) = Some (candFileName c)).
  { rewrite E. simpl. by rewrite (candidate_file_name _ _ _ _ Hc). }
  split.
  - exists btn. by rewrite E in *.
  - intros h2 ch2 p2 a2 doc2 o2 Ha2 Hf Hrun.
    apply (skipped_nodes_get_nothing h2 ch2 p2 doc' a2 doc2 o2 Ha2 Hrun).
    right. left. exists btn. by rewrite Hf.
Qed.

Lemma C8_button_carries_identity_witness :
  exists btn,
    btn ∈ documentQuerySelectorAll [[[byClass UPLOAD_BUTTON]]] afterFirstScan /\
    getAttribute "data-filename" (locNode btn) = Some "b.pdf" /\
    getAttribute "data-email-id" (locNode btn) = Some "E1".
Proof.
  edestruct (proj1 (proj2 C8_button_carries_identity)
               (openMessage "#inbox/E1") (serviceWorker (remoteKnows [])) [0; 0]
               (messageView [chip "b.pdf"; chip "b.pdf"]))
    as ((btn & Hin & Hname & Hid) & _); [reflexivity | discriminate |].
  exists btn. split; [exact Hin|]. split; [exact Hname | exact Hid].
Defined.

(** The badge that [processAttachment] injects for a file known remotely
    records neither the file name nor the email identity. *)
Lemma C8_counterexample :
  match processAttachment (openMessage "#inbox/E1")
          (serviceWorker (remoteKnows ["a.pdf"])) [0; 0] (messageView [chip "a.pdf"]) with
  | Some (doc', BadgeAdded) =>
      (fun l => (getAttribute "data-filename" (locNode l),
                 getAttribute "data-email-id" (locNode l)))
        <$> documentQuerySelectorAll [[[byClass STATUS_BADGE]]] doc'
      = [(None, None)]
  | _ => False
  end.
Proof. vm_compute. reflexivity. Qed.

(** * Further properties

    Properties of the rest of the storage wrapper, of the service worker, of
    the pages and of the content script. *)

(** ** Storage: the transfer history *)

Lemma find_upsert_same (e : TransferredEmail) l :
  find (fun x => emailId x = emailId e) (upsert e l) = Some e.
Proof.
  induction l as [|x t IH]; simpl.
  - by rewrite find_cons, decide_True.
  - destruct (decide (emailId x = emailId e)) as [E|E].
    + by rewrite find_cons, decide_True.
    + by rewrite find_cons, decide_False.
Qed.

Lemma find_upsert_other (e : TransferredEmail) id l :
  id <> emailId e ->
  find (fun x => emailId x = id) (upsert e l) = find (fun x => emailId x = id) l.
Proof.
  intros Hne. induction l as [|x t IH]; simpl.
  - rewrite find_cons, decide_False by congruence. done.
  - destruct (decide (emailId x = emailId e)) as [E|E].
    + rewrite !find_cons, !decide_False by congruence. done.
    + rewrite !find_cons. by destruct (decide (emailId x = id)).
Qed.

Lemma isEmailTransferred_find id st :
  storage.isEmailTransferred id st = true
  <-> storage.getTransferredEmail id st <> None.
Proof.
  unfold storage.isEmailTransferred, storage.getTransferredEmail, storage.getAll.
  rewrite find_is_Some, existsb_exists. split.
  - intros (x & Hx & E). exists x. split; [by apply list_elem_of_In|].
    by apply String.eqb_eq.
  - intros (x & Hx & E). exists x. split; [by apply list_elem_of_In|].
    by apply String.eqb_eq.
Qed.

Lemma find_emailId id (l : list TransferredEmail) r :
  find (fun x => emailId x = id) l = Some r -> emailId r = id /\ r ∈ l.
Proof.
  induction l as [|x t IH]; [done|]. rewrite find_cons.
  destruct (decide (emailId x = id)) as [E|E].
  - intros [= <-]. split; [done|left].
  - intros H. destruct (IH H). split; [done|by right].
Qed.

Lemma addTransferredEmail_find e st :
  storage.getTransferredEmail (emailId e) (storage.addTransferredEmail e st) = Some e.
Proof.
  unfold storage.getTransferredEmail, storage.getAll.
  rewrite addTransferredEmail_upsert. apply find_upsert_same.
Qed.

Lemma addTransferredEmail_find_other e st id :
  id <> emailId e ->
  storage.getTransferredEmail id (storage.addTransferredEmail e st)
  = storage.getTransferredEmail id st.
Proof.
  intros Hne. unfold storage.getTransferredEmail, storage.getAll.
  rewrite addTransferredEmail_upsert. by apply find_upsert_other.
Qed.

(** X1: A record that was added is the one found under its email id, whatever
    the history held, and the records of all other ids, the settings and the
    remote cache are as before. *)
Theorem addTransferredEmail_lookup :
  forall e st,
    let st' := storage.addTransferredEmail e st in
    storage.getTransferredEmail (emailId e) st' = Some e /\
    storage.isEmailTransferred (emailId e) st' = true /\
    (forall id, id <> emailId e ->
       storage.getTransferredEmail id st' = storage.getTransferredEmail id st) /\
    apiKey st' = apiKey st /\ orgId st' = orgId st /\
    boringTaxFiles st' = boringTaxFiles st /\
    boringTaxLastSync st' = boringTaxLastSync st.
Proof.
  intros e st st'. subst st'.
  split; [apply addTransferredEmail_find|].
  split; [apply isEmailTransferred_find; by rewrite addTransferredEmail_find|].
  split; [intros id Hne; by apply addTransferredEmail_find_other|].
  unfold storage.addTransferredEmail. by destruct (findIndex _ _).
Qed.

Lemma filter_other_find id id' (l : list TransferredEmail) :
  id' <> id ->
  find (fun x => emailId x = id') (filter (fun x => emailId x <> id) l)
  = find (fun x => emailId x = id') l.
Proof.
  intros Hne. induction l as [|x t IH]; [done|]. rewrite filter_cons.
  destruct (decide (emailId x <> id)) as [E|E].
  - rewrite !find_cons. by destruct (decide (emailId x = id')).
  - rewrite find_cons, decide_False; [done|]. intros E'. apply E. congruence.
Qed.

Lemma filter_no_record id (l : list TransferredEmail) :
  existsb (fun e => String.eqb (emailId e) id) l = false ->
  filter (fun x => emailId x <> id) l = l.
Proof.
  induction l as [|x t IH]; [done|]. simpl.
  intros [Hx Ht]%orb_false_iff. apply String.eqb_neq in Hx.
  rewrite filter_cons, decide_True by done. f_equal. by apply IH.
Qed.

(** X2: After a record was removed nothing is found under its email id; the
    records of other ids, the settings and the cache are as before; removing
    an id that has no record changes nothing; and removing an id right after
    a record for it was added gives what removing it at once would give. *)
Theorem removeTransferredEmail_lookup :
  forall id st,
    let st' := storage.removeTransferredEmail id st in
    storage.getTransferredEmail id st' = None /\
    storage.isEmailTransferred id st' = false /\
    (forall id', id' <> id ->
       storage.getTransferredEmail id' st' = storage.getTransferredEmail id' st) /\
    (storage.isEmailTransferred id st = false -> st' = st) /\
    (forall e, emailId e = id ->
       storage.removeTransferredEmail id (storage.addTransferredEmail e st) = st') /\
    apiKey st' = apiKey st /\ orgId st' = orgId st /\
    boringTaxFiles st' = boringTaxFiles st /\
    boringTaxLastSync st' = boringTaxLastSync st.
Proof.
  intros id st st'.
  assert (Hl : storage.getTransferredEmail id st' = None).
  { subst st'. unfold storage.getTransferredEmail, storage.removeTransferredEmail,
      storage.getAll. simpl.
    destruct (find _ _) as [r|] eqn:E; [|done].
    apply find_emailId in E as [E Hin]. apply list_elem_of_filter in Hin as [Hne _].
    done. }
  split; [done|]. split.
  { destruct (storage.isEmailTransferred id st') eqn:E; [|done].
    apply isEmailTransferred_find in E. done. }
  split.
  { intros id' Hne. subst st'.
    unfold storage.getTransferredEmail, storage.removeTransferredEmail, storage.getAll.
    simpl. by apply filter_other_find. }
  split.
  { intros Hno. subst st'. unfold storage.removeTransferredEmail, storage.getAll.
    destruct st as [k o l fs ls]. unfold setTransferredEmails. simpl. f_equal.
    by apply filter_no_record. }
  split; [|done].
  intros e He. subst st'. unfold storage.removeTransferredEmail, storage.getAll.
  rewrite addTransferredEmail_upsert, (filter_upsert id e _ He).
  unfold storage.addTransferredEmail. by destruct (findIndex _ _).
Qed.

(** X3: The two ways to ask whether an email was transferred agree, and the
    record reported for an email id carries that id and is in the
    history. *)
Theorem transferred_queries_agree :
  forall id st,
    (storage.isEmailTransferred id st = isTransferred (worker.handleCheckStatus id st)) /\
    (isTransferred (worker.handleCheckStatus id st) = true
     <-> statusTransferInfo (worker.handleCheckStatus id st) <> None) /\
    (forall r, statusTransferInfo (worker.handleCheckStatus id st) = Some r ->
               emailId r = id /\ r ∈ transferredEmails st).
Proof.
  intros id st. unfold worker.handleCheckStatus. simpl. split; [|split].
  - destruct (storage.isEmailTransferred id st) eqn:E.
    + apply isEmailTransferred_find in E. by rewrite bool_decide_eq_true_2.
    + symmetry. apply bool_decide_eq_false. intros H.
      apply isEmailTransferred_find in H. congruence.
  - apply bool_decide_eq_true.
  - intros r H. by apply find_emailId in H.
Qed.

(** X4: Marking an email that has a record keeps the length of the history and
    the order of its email ids; marking a new email appends one record. *)
Theorem addTransferredEmail_shape :
  forall e st,
    let before := transferredEmails st in
    let after := transferredEmails (storage.addTransferredEmail e st) in
    (storage.isEmailTransferred (emailId e) st = true ->
       length after = length before /\ emailId <$> after = emailId <$> before) /\
    (storage.isEmailTransferred (emailId e) st = false ->
       after = before ++ [e]).
Proof.
  intros e st before after. subst before after.
  rewrite addTransferredEmail_upsert. split; intros H.
  - assert (Hin : emailId e ∈ emailId <$> transferredEmails st).
    { apply isEmailTransferred_find, find_is_Some in H as (x & Hx & E).
      apply list_elem_of_fmap. by exists x. }
    assert (Hids := upsert_ids e (transferredEmails st)).
    rewrite decide_True in Hids by done. split; [|done].
    by rewrite <- (length_fmap emailId), Hids, length_fmap.
  - unfold storage.isEmailTransferred, storage.getAll in H.
    induction (transferredEmails st) as [|x t IH]; [done|]. simpl in *.
    apply orb_false_iff in H as [Hx Ht]. apply String.eqb_neq in Hx.
    rewrite decide_False by done. by rewrite IH.
Qed.

(** ** API client and sync *)

(** X5: [getFileNames] returns exactly the non-empty names of the listed
    entities that are files: the original file name when it is set, the
    entity name otherwise. *)
Theorem getFileNames_names :
  forall files x,
    x ∈ getFileNames files
    <-> x <> "" /\
        exists f d, f ∈ files /\ entityFile f = Some d /\
                    x = if truthy (orgFileName d) then orgFileName d else entityName f.
Proof.
  intros files x. unfold getFileNames.
  rewrite list_elem_of_In, filter_In, in_map_iff. split.
  - intros [(f & Ex & Hf) Hx]. apply filter_In in Hf as [Hf Hd].
    apply bool_decide_eq_true in Hd. split.
    + intros ->. done.
    + destruct (entityFile f) as [d|] eqn:E; [|done].
      exists f, d. by rewrite list_elem_of_In.
  - intros (Hx & f & d & Hf & Hd & ->). split.
    + exists f. rewrite Hd. split; [done|]. apply filter_In.
      rewrite <- list_elem_of_In. split; [done|]. apply bool_decide_eq_true.
      by rewrite Hd.
    + unfold truthy. apply negb_true_iff, String.eqb_neq. done.
Qed.

Section SyncListing.
Variable sortByDateDesc : list TransferredEmail -> list TransferredEmail.
Hypothesis sortByDateDesc_perm : forall l, sortByDateDesc l ≡ₚ l.

(** X6: How the sync degrades: without credentials it fails before any request
    and leaves the storage alone; when the listing cannot be fetched (the
    request throws, or neither endpoint answers ok) a configured sync still
    succeeds and stores exactly the file names of the local records; when
    the body of an ok response cannot be read, the sync fails and the
    storage is left alone. *)
Theorem handleSyncBoringTaxFiles_degrades :
  forall primary alt now st,
    let r := background.handleSyncBoringTaxFiles sortByDateDesc primary alt now st in
    let configured := storage.isConfigured (storage.getSettings st) in
    let unavailable :=
      match primary, alt with
      | apiClient.NetworkFailure _, _ => true
      | apiClient.Responded false _ _, apiClient.NetworkFailure _ => true
      | apiClient.Responded false _ _, apiClient.Responded false _ _ => true
      | _, _ => false
      end in
    (configured = false ->
       r = (st, {| success := false; error := Some "API nicht konfiguriert" |})) /\
    (configured = true -> unavailable = true ->
       success (snd r) = true /\
       NoDup (boringTaxFiles (fst r)) /\
       (forall x, x ∈ boringTaxFiles (fst r)
                  <-> exists e, e ∈ transferredEmails st /\ fileName e = x)) /\
    (configured = true ->
     forall message, apiClient.getFiles primary alt = Rejected message ->
       r = (st, {| success := false; error := Some message |})).
Proof using sortByDateDesc_perm.
  intros primary alt now st r configured unavailable. subst r configured.
  unfold background.handleSyncBoringTaxFiles. split; [|split].
  - by intros ->.
  - intros Hc Hu. rewrite Hc. cbn [negb].
    assert (Hfiles : apiClient.getFiles primary alt = Resolved []).
    { subst unavailable.
      destruct primary as [|[] ? ?]; [done|done|]. by destruct alt as [|[] ? ?]. }
    rewrite Hfiles. unfold worker.handleSyncBoringTaxFiles. rewrite Hc. cbn.
    split; [done|]. split; [apply setSpread_NoDup|].
    intros x. rewrite setSpread_elem.
    change (map fileName ?l) with (fileName <$> l).
    rewrite list_elem_of_fmap. unfold storage.getTransferredEmails, storage.getAll.
    split; intros (e & He1 & He2); exists e.
    + rewrite sortByDateDesc_perm in He2. done.
    + rewrite sortByDateDesc_perm. done.
  - intros Hc message Hm. by rewrite Hc, Hm.
Qed.

End SyncListing.

Lemma handleSyncBoringTaxFiles_degrades_witness :
  let st := {| apiKey := "key"; orgId := "42";
               transferredEmails := [invoiceRecord "E1" "local.pdf"];
               boringTaxFiles := ["stale.pdf"]; boringTaxLastSync := "" |} in
  let r := background.handleSyncBoringTaxFiles reverse
             (apiClient.Responded false 500 (Resolved []))
             (apiClient.NetworkFailure "Failed to fetch")
             "2024-03-02T10:00:00.000Z" st in
  success (snd r) = true /\ NoDup (boringTaxFiles (fst r)).
Proof.
  intros st r.
  destruct (handleSyncBoringTaxFiles_degrades reverse reverse_Permutation
              (apiClient.Responded false 500 (Resolved []))
              (apiClient.NetworkFailure "Failed to fetch")
              "2024-03-02T10:00:00.000Z" st) as (_ & H & _).
  destruct (H eq_refl eq_refl) as (Hs & Hn & _). split; [exact Hs|exact Hn].
Defined.

(** X7: After a successful sync every listed remote file name is reported as
    known by the status check, under any spelling with the same lowercased
    and trimmed form. *)
Theorem sync_then_status :
  forall sort files now st x q,
    success (snd (worker.handleSyncBoringTaxFiles sort files now st)) = true ->
    x ∈ getFileNames files ->
    trim (toLowerCase q) = trim (toLowerCase x) ->
    isInBoringTax
      (worker.handleCheckStatusByFilename q
         (fst (worker.handleSyncBoringTaxFiles sort files now st))) = true.
Proof.
  intros sort files now st x q Hok Hx Hq.
  unfold worker.handleSyncBoringTaxFiles in *.
  destruct (negb _); [done|]. cbn [fst snd] in *.
  apply handleCheckStatusByFilename_spec. exists x. split; [|done].
  apply elem_of_app. left. cbn. apply setSpread_elem, elem_of_app. by left.
Qed.

Lemma sync_then_status_witness :
  isInBoringTax
    (worker.handleCheckStatusByFilename " RECHNUNG.pdf"
       (fst (worker.handleSyncBoringTaxFiles reverse
               [ {| entityName := "x"; entityFile := Some {| orgFileName := "Rechnung.PDF" |} |} ]
               "2024-03-02T10:00:00.000Z" (remoteKnows [])))) = true.
Proof.
  apply (sync_then_status reverse _ _ _ "Rechnung.PDF" " RECHNUNG.pdf");
    [reflexivity | left | reflexivity].
Defined.

(** ** Upload *)

Lemma handleUploadPdf_failed payload upload now st :
  uploadSuccess (snd (background.handleUploadPdf payload upload now st)) = false ->
  fst (background.handleUploadPdf payload upload now st) = st.
Proof.
  unfold background.handleUploadPdf. destruct (negb _); [done|].
  by destruct upload as [[|fid ids]|message].
Qed.

Lemma handleUploadPdf_stored payload upload now st :
  uploadSuccess (snd (background.handleUploadPdf payload upload now st)) = true ->
  exists fid,
    background.handleUploadPdf payload upload now st
    = (storage.addTransferredEmail
         {| emailId := payloadEmailId payload; fileName := payloadFileName payload;
            uploadedFileId := fid; transferDate := now;
            subject := payloadSubject payload |} st,
       {| uploadSuccess := true; uploadFileId := Some fid; uploadError := None |}).
Proof.
  unfold background.handleUploadPdf. destruct (negb _); [done|].
  destruct upload as [[|fid ids]|message]; try done.
  intros _. by exists (default "" fid).
Qed.

Lemma added_is_transferred e st :
  isTransferred (worker.handleCheckStatus (emailId e) (storage.addTransferredEmail e st)) = true
  /\ isInBoringTax
       (worker.handleCheckStatusByFilename (fileName e) (storage.addTransferredEmail e st))
     = true.
Proof.
  pose proof (addTransferredEmail_find e st) as Hl. split.
  - apply handleCheckStatus_spec. exists e.
    by apply find_emailId in Hl as [_ Hin].
  - apply handleCheckStatusByFilename_spec. exists (fileName e). split; [|done].
    apply elem_of_app. right. apply list_elem_of_fmap. exists e. split; [done|].
    by apply find_emailId in Hl as [_ Hin].
Qed.








(** ** Settings *)

Lemma trimStart_head (s : string) :
  trimStart s = "" \/ exists c t, trimStart s = String c t /\ isWhiteSpace c = false.
Proof.
  induction s as [|c s IH]; [by left|].
  cbn [trimStart]. destruct (isWhiteSpace c) eqn:E; [done|].
  right. by exists c, s.
Qed.

Lemma trimEnd_idem (s : string) : trimEnd (trimEnd s) = trimEnd s.
Proof.
  induction s as [|c s IH]; [done|].
  cbn [trimEnd]. destruct (trimEnd s) as [|d t] eqn:E.
  - destruct (isWhiteSpace c) eqn:Ec; [done|]. cbn [trimEnd]. by rewrite Ec.
  - cbn [trimEnd] in *. by rewrite IH.
Qed.

Lemma trimEnd_head (c : ascii) (t : string) :
  isWhiteSpace c = false -> exists t', trimEnd (String c t) = String c t'.
Proof.
  intros Hc. cbn [trimEnd]. destruct (trimEnd t) as [|d t'].
  - rewrite Hc. by eexists.
  - by eexists.
Qed.

Lemma trimStart_trim (s : string) : trimStart (trim s) = trim s.
Proof.
  unfold trim. destruct (trimStart_head s) as [->|(c & t & -> & Hc)]; [done|].
  destruct (trimEnd_head c t Hc) as [t' ->]. cbn [trimStart]. by rewrite Hc.
Qed.

Lemma trim_idem (s : string) : trim (trim s) = trim s.
Proof.
  unfold trim at 1. rewrite trimStart_trim. unfold trim. apply trimEnd_idem.
Qed.

Lemma saveSettings_cases a o connected st :
  ((trim a = "" \/ trim o = "") /\
   fst (options.saveSettings a o connected st) = st /\
   snd (snd (options.saveSettings a o connected st)) = StatusError)
  \/ (trim a <> "" /\ trim o <> "" /\
      fst (options.saveSettings a o connected st)
      = storage.saveSettings (trim a) (trim o) st /\
      snd (snd (options.saveSettings a o connected st))
      = if connected then StatusSuccess else StatusInfo).
Proof.
  unfold options.saveSettings, background.handleSaveSettings.
  destruct (truthy (trim a)) eqn:Ea; cycle 1.
  { apply truthy_false in Ea. left. cbn. split; [by left|done]. }
  destruct (truthy (trim o)) eqn:Eo; cycle 1.
  { apply truthy_false in Eo. left. cbn. split; [by right|done]. }
  apply truthy_true in Ea, Eo. right. by destruct connected.
Qed.

(** X10: Saving from the options page: the form is rejected, and nothing is
    stored, exactly when a field is empty after trimming.  Otherwise the
    trimmed values are stored (they have no white space left at either
    end), the extension counts as configured, the history and the cache of
    remote names are untouched, and the page shows the warning instead of
    the success message exactly when the connection test failed. *)
Theorem saveSettings_outcome :
  forall apiKeyInput orgIdInput connected st,
    let st' := fst (options.saveSettings apiKeyInput orgIdInput connected st) in
    let shown := snd (options.saveSettings apiKeyInput orgIdInput connected st) in
    (snd shown = StatusError <-> trim apiKeyInput = "" \/ trim orgIdInput = "") /\
    (snd shown = StatusError -> st' = st) /\
    (snd shown <> StatusError ->
       apiKey st' = trim apiKeyInput /\ orgId st' = trim orgIdInput /\
       trim (apiKey st') = apiKey st' /\ trim (orgId st') = orgId st' /\
       storage.isConfigured (storage.getSettings st') = true /\
       transferredEmails st' = transferredEmails st /\
       boringTaxFiles st' = boringTaxFiles st /\
       boringTaxLastSync st' = boringTaxLastSync st /\
       (snd shown = StatusInfo <-> connected = false) /\
       (snd shown = StatusSuccess <-> connected = true)).
Proof.
  intros a o connected st st' shown. subst st' shown.
  destruct (saveSettings_cases a o connected st)
    as [(Hempty & -> & ->)|(Ha & Ho & -> & ->)].
  - repeat split; done.
  - split; [|split].
    + split; [by destruct connected|]. by intros [?|?].
    + by destruct connected.
    + intros _. cbn -[trim]. rewrite !trim_idem.
      apply truthy_true in Ha, Ho. rewrite Ha, Ho.
      repeat split; try done; by destruct connected.
Qed.

(** X11: An upload succeeds exactly when both credentials are stored and the
    backend answered with at least one entity; so after a save that the
    options page accepted, an answered upload succeeds. *)
Theorem handleUploadPdf_succeeds_iff :
  forall payload upload now st,
    (uploadSuccess (snd (background.handleUploadPdf payload upload now st)) = true
     <-> apiKey st <> "" /\ orgId st <> "" /\
         exists id ids, upload = Resolved (id :: ids)) /\
    (forall apiKeyInput orgIdInput connected id ids,
       snd (snd (options.saveSettings apiKeyInput orgIdInput connected st)) <> StatusError ->
       uploadSuccess
         (snd (background.handleUploadPdf payload (Resolved (id :: ids)) now
                 (fst (options.saveSettings apiKeyInput orgIdInput connected st)))) = true).
Proof.
  intros payload upload now st.
  assert (Hiff : forall s u,
    uploadSuccess (snd (background.handleUploadPdf payload u now s)) = true
    <-> apiKey s <> "" /\ orgId s <> "" /\ exists id ids, u = Resolved (id :: ids)).
  { intros s u. unfold background.handleUploadPdf, storage.getSettings, storage.getAll.
    cbn [storage.isConfigured].
    destruct (truthy (apiKey s)) eqn:Ea; cycle 1.
    { apply truthy_false in Ea. cbn. split; [done|]. by intros [? _]. }
    destruct (truthy (orgId s)) eqn:Eo; cycle 1.
    { apply truthy_false in Eo. cbn. split; [done|]. by intros (_ & ? & _). }
    apply truthy_true in Ea, Eo. cbn [andb negb].
    destruct u as [[|id ids]|message]; cbn.
    - split; [done|]. by intros (_ & _ & ? & ? & ?).
    - split; [|done]. intros _. repeat split; try done. by exists id, ids.
    - split; [done|]. by intros (_ & _ & ? & ? & ?). }
  split; [apply Hiff|].
  intros a o connected id ids Hsaved. apply Hiff.
  destruct (saveSettings_cases a o connected st)
    as [(_ & _ & Herr)|(Ha & Ho & -> & _)]; [done|].
  cbn [storage.saveSettings apiKey orgId]. repeat split; try done. by exists id, ids.
Qed.

Lemma filter_all_listed (ids : list string) (h : list TransferredEmail) :
  (forall e, e ∈ h -> emailId e ∈ ids) ->
  filter (fun e => emailId e ∉ ids) h = [].
Proof.
  induction h as [|e h IH]; intros Hall; [done|].
  rewrite filter_cons_False.
  - apply IH. intros e' He'. apply Hall. by right.
  - intros Hn. apply Hn, Hall. left.
Qed.

Section ClearAll.
Variable sortByDateDesc : list TransferredEmail -> list TransferredEmail.
Hypothesis sortByDateDesc_perm : forall l, sortByDateDesc l ≡ₚ l.

Lemma remove_all_history (l : list TransferredEmail) (st : ExtendedStorageData) :
  let st' := fold_left
               (fun s email => fst (worker.handleRemoveTransferred (emailId email) s))
               l st in
  transferredEmails st'
  = filter (fun e => emailId e ∉ emailId <$> l) (transferredEmails st)
  /\ apiKey st' = apiKey st /\ orgId st' = orgId st
  /\ boringTaxFiles st' = boringTaxFiles st
  /\ boringTaxLastSync st' = boringTaxLastSync st.
Proof.
  revert st. induction l as [|x l IH]; intros st; cbn [fold_left].
  - repeat split; try done. cbn.
    induction (transferredEmails st) as [|e h IHh]; [done|].
    rewrite filter_cons_True; [by f_equal|]. apply not_elem_of_nil.
  - destruct (IH (fst (worker.handleRemoveTransferred (emailId x) st)))
      as (Hh & Ha & Ho & Hf & Hs).
    cbv zeta in *. rewrite Hh, Ha, Ho, Hf, Hs. repeat split; try done.
    cbn. unfold storage.getAll. clear.
    induction (transferredEmails st) as [|e h IHh]; [done|].
    destruct (decide (emailId e = emailId x)) as [E|E].
    + rewrite (filter_cons_False _ e h) by (by intros ?).
      rewrite (filter_cons_False _ e h); [done|].
      intros Hn. apply Hn. rewrite E. left.
    + rewrite (filter_cons_True _ e h) by done.
      destruct (decide (emailId e ∈ emailId <$> l)) as [Hin|Hin].
      * rewrite filter_cons_False by (by intros ?).
        rewrite filter_cons_False; [done|]. intros Hn. apply Hn. by right.
      * rewrite filter_cons_True by done.
        rewrite filter_cons_True; [by f_equal|].
        intros Hn. apply elem_of_cons in Hn as [?|?]; done.
Qed.

(** X12: Clearing the list from the options page, once confirmed, removes
    every record one by one and leaves the history empty, whatever it held
    (also records sharing an email id); the credentials and the cache of
    remote names stay.  Declined, nothing changes. *)
Theorem clearAllTransferred_empties :
  forall st,
    let st' := options.clearAllTransferred sortByDateDesc true st in
    transferredEmails st' = [] /\
    apiKey st' = apiKey st /\ orgId st' = orgId st /\
    boringTaxFiles st' = boringTaxFiles st /\
    boringTaxLastSync st' = boringTaxLastSync st /\
    (forall id, isTransferred (worker.handleCheckStatus id st') = false) /\
    options.clearAllTransferred sortByDateDesc false st = st.
Proof using sortByDateDesc_perm.
  intros st st'. subst st'. unfold options.clearAllTransferred. cbn [negb].
  destruct (remove_all_history
              (worker.handleGetTransferredList sortByDateDesc st) st)
    as (Hh & Ha & Ho & Hf & Hs).
  cbv zeta in *.
  assert (Hempty : transferredEmails
            (fold_left
               (fun s email => fst (worker.handleRemoveTransferred (emailId email) s))
               (worker.handleGetTransferredList sortByDateDesc st) st) = []).
  { rewrite Hh. unfold worker.handleGetTransferredList, storage.getTransferredEmails,
      storage.getAll.
    apply filter_all_listed. intros e He. apply list_elem_of_fmap.
    exists e. split; [done|]. by rewrite sortByDateDesc_perm. }
  repeat split; try done.
  intros id. apply not_true_is_false. intros Ht.
  apply handleCheckStatus_spec in Ht. rewrite Hempty in Ht.
  destruct Ht as (r & Hr & _). by apply elem_of_nil in Hr.
Qed.

End ClearAll.

Lemma clearAllTransferred_empties_witness :
  transferredEmails
    (options.clearAllTransferred reverse true
       {| apiKey := "key"; orgId := "42";
          transferredEmails := [invoiceRecord "E1" "a.pdf"; invoiceRecord "E2" "b.pdf";
                                invoiceRecord "E1" "c.pdf"];
          boringTaxFiles := ["a.pdf"]; boringTaxLastSync := "" |}) = [].
Proof.
  apply (clearAllTransferred_empties reverse reverse_Permutation).
Defined.

(** ** Popup *)

(** X13: The relative date of the popup by the age of the date in milliseconds:
    under a minute (also for a date in the future) it reads "Gerade eben";
    then whole minutes from 1 to 59, whole hours from 1 to 23, "1 Tag",
    and 2 to 6 "Tagen"; from seven days on it is the localized date.  A
    count below 1 is never printed, and each count is the age rounded
    down. *)
Theorem formatRelativeDate_ranges :
  forall now d localized,
    let age := (now - d)%Z in
    let r := popup.formatRelativeDate now (Some d) localized in
    ((age < 60000)%Z -> r = "Gerade eben") /\
    ((60000 <= age < 3600000)%Z ->
       exists n, (1 <= n < 60)%Z /\ (n * 60000 <= age < (n + 1) * 60000)%Z /\
                 r = "Vor " +:+ popup.ofZ n +:+ " Min.") /\
    ((3600000 <= age < 86400000)%Z ->
       exists n, (1 <= n < 24)%Z /\ (n * 3600000 <= age < (n + 1) * 3600000)%Z /\
                 r = "Vor " +:+ popup.ofZ n +:+ " Std.") /\
    ((86400000 <= age < 172800000)%Z -> r = "Vor 1 Tag") /\
    ((172800000 <= age < 604800000)%Z ->
       exists n, (2 <= n < 7)%Z /\ (n * 86400000 <= age < (n + 1) * 86400000)%Z /\
                 r = "Vor " +:+ popup.ofZ n +:+ " Tagen") /\
    ((604800000 <= age)%Z -> r = localized).
Proof.
  intros now d localized age r. subst r. unfold popup.formatRelativeDate.
  fold age. cbv zeta.
  pose proof (Z.div_mod age 60000 ltac:(lia)) as Em.
  pose proof (Z.mod_pos_bound age 60000 ltac:(lia)) as Bm.
  pose proof (Z.div_mod age 3600000 ltac:(lia)) as Eh.
  pose proof (Z.mod_pos_bound age 3600000 ltac:(lia)) as Bh.
  pose proof (Z.div_mod age 86400000 ltac:(lia)) as Ed.
  pose proof (Z.mod_pos_bound age 86400000 ltac:(lia)) as Bd.
  set (m := (age / 60000)%Z) in *.
  set (hr := (age / 3600000)%Z) in *.
  set (dy := (age / 86400000)%Z) in *.
  repeat split; intros Hage.
  - destruct (Z.ltb_spec m 1); [done|lia].
  - destruct (Z.ltb_spec m 1); [lia|].
    destruct (Z.ltb_spec m 60); [|lia].
    exists m. split; [lia|]. split; [lia|done].
  - destruct (Z.ltb_spec m 1); [lia|].
    destruct (Z.ltb_spec m 60); [lia|].
    destruct (Z.ltb_spec hr 24); [|lia].
    exists hr. split; [lia|]. split; [lia|done].
  - destruct (Z.ltb_spec m 1); [lia|].
    destruct (Z.ltb_spec m 60); [lia|].
    destruct (Z.ltb_spec hr 24); [lia|].
    destruct (Z.ltb_spec dy 7); [|lia].
    assert (dy = 1%Z) as -> by lia. reflexivity.
  - destruct (Z.ltb_spec m 1); [lia|].
    destruct (Z.ltb_spec m 60); [lia|].
    destruct (Z.ltb_spec hr 24); [lia|].
    destruct (Z.ltb_spec dy 7); [|lia].
    destruct (Z.ltb_spec 1 dy); [|lia].
    exists dy. split; [lia|]. split; [lia|done].
  - destruct (Z.ltb_spec m 1); [lia|].
    destruct (Z.ltb_spec m 60); [lia|].
    destruct (Z.ltb_spec hr 24); [lia|].
    destruct (Z.ltb_spec dy 7); [lia|done].
Qed.

(** ** Message channel of the content script *)

(** X14: A message resolves only when the callback ran without [lastError].
    Whenever the extension context is gone (no runtime id, a throwing
    [sendMessage], or a [lastError] naming an invalidated context or a
    missing receiving end) the rejection carries the reload message, which
    the upload handler recognises as a request to reload the page; any
    other [lastError] message is passed on as it is. *)
Theorem sendMessage_outcomes :
  forall (A : Type) (r : messaging.Runtime A),
    (forall x, messaging.sendMessage r = Resolved x <-> r = messaging.CalledBack None x) /\
    (r = messaging.NoRuntimeId \/ r = messaging.SendThrew \/
     (exists m x, r = messaging.CalledBack (Some (Some m)) x /\
                  (includes "Extension context invalidated" m = true \/
                   includes "Receiving end does not exist" m = true)) ->
     exists reason, messaging.sendMessage r = Rejected reason /\
                    messaging.asksForReload reason = true) /\
    (forall m x, r = messaging.CalledBack (Some (Some m)) x ->
       m <> "" ->
       includes "Extension context invalidated" m = false ->
       includes "Receiving end does not exist" m = false ->
       messaging.sendMessage r = Rejected m).
Proof.
  intros A r. split; [|split].
  - intros x. destruct r as [| |[e|] y]; cbn -[includes]; try (split; [done|done]).
    + split; [|done]. by destruct (_ || _).
    + split; [by intros [= ->]|by intros [= ->]].
  - assert (Hr : messaging.asksForReload messaging.RELOADED = true) by by vm_compute.
    intros [->|[->|(m & x & -> & Hm)]].
    + by exists messaging.RELOADED.
    + by exists messaging.RELOADED.
    + exists messaging.RELOADED. split; [|done]. cbn -[includes].
      destruct (truthy m) eqn:E.
      * destruct Hm as [->| ->]; [done|]. by rewrite orb_true_r.
      * apply truthy_false in E. subst m. by destruct Hm.
  - intros m x -> Hm H1 H2. cbn -[includes].
    apply truthy_true in Hm. by rewrite Hm, H1, H2.
Qed.

(** ** Download link of an attachment *)

Import gmail.

Lemma hrefOf_sound sel anc scope u :
  hrefOf (querySelector sel anc scope) = Some u ->
  u <> "" /\ exists l, l ∈ walk anc [] scope /\ getAttribute "href" (locNode l) = Some u.
Proof.
  unfold hrefOf. destruct (querySelector sel anc scope) as [l|] eqn:E; [|done].
  destruct (getAttribute "href" (locNode l)) as [v|] eqn:Ev; [|done].
  destruct (truthy v) eqn:Et; [|done]. intros [= <-].
  split; [by apply truthy_true|]. exists l. split; [|done].
  by apply querySelector_walk in E as [? _].
Qed.

Lemma firstHref_sound anc scope u :
  firstHref anc scope = Some u ->
  u <> "" /\ exists l, l ∈ walk anc [] scope /\ getAttribute "href" (locNode l) = Some u.
Proof.
  unfold firstHref. intros H. apply head_Some_elem_of in H.
  apply list_elem_of_omap in H as (sel & _ & H). by eapply hrefOf_sound.
Qed.

Lemma whenTruthy_Some a u : whenTruthy a = Some u <-> a = Some u /\ u <> "".
Proof.
  unfold whenTruthy. destruct a as [v|]; [|by split; [|intros []]].
  destruct (truthy v) eqn:E.
  - apply truthy_true in E. split; [by intros [= <-]|by intros []].
  - apply truthy_false in E. split; [done|]. intros [[= <-] ?]. done.
Qed.

Lemma dataUrl_sound anc attachment u :
  whenTruthy
    (orElse (getAttribute "data-url" attachment)
            (querySelector [[[hasAttr "data-url"]]] anc attachment
             ≫= (fun l => getAttribute "data-url" (locNode l)))) = Some u ->
  u <> "" /\ exists l, l ∈ walk anc [] attachment /\
                       getAttribute "data-url" (locNode l) = Some u.
Proof.
  intros [H Hu]%whenTruthy_Some. split; [done|].
  assert (Hself : getAttribute "data-url" attachment = Some u ->
                  exists l, l ∈ walk anc [] attachment /\
                            getAttribute "data-url" (locNode l) = Some u).
  { intros Ha. exists (mkLocated [] anc attachment). split; [|done].
    destruct attachment; left. }
  assert (Hinner : querySelector [[[hasAttr "data-url"]]] anc attachment
                   ≫= (fun l => getAttribute "data-url" (locNode l)) = Some u ->
                   exists l, l ∈ walk anc [] attachment /\
                             getAttribute "data-url" (locNode l) = Some u).
  { destruct (querySelector _ _ _) as [l|] eqn:Eq; [|done]. cbn. intros Ha.
    exists l. by apply querySelector_walk in Eq as [? _]. }
  unfold orElse in H. destruct (getAttribute "data-url" attachment) as [w|]; [|auto].
  destruct (truthy w); auto.
Qed.

Lemma hrefScan_sound anc attachment u :
  head (omap (fun link =>
                match getAttribute "href" (locNode link) with
                | Some href => if looksLikeDownload href then Some href else None
                | None => None
                end)
             (querySelectorAll [[[byTag "a"; hasAttr "href"]]] anc attachment)) = Some u ->
  u <> "" /\ exists l, l ∈ walk anc [] attachment /\
                       getAttribute "href" (locNode l) = Some u.
Proof.
  intros H. apply head_Some_elem_of, list_elem_of_omap in H as (l & Hl & H).
  destruct (getAttribute "href" (locNode l)) as [w|] eqn:Ew; [|done].
  destruct (looksLikeDownload w) eqn:Ed; [|done]. injection H as ->.
  apply andb_true_iff in Ed as [Ed _]. split; [by apply truthy_true|].
  exists l. by apply querySelectorAll_walk in Hl as [Hl _].
Qed.

(** X15: Whatever [getAttachmentDownloadUrl] returns is a non-empty [href] or
    [data-url] of a node found in the attachment or, for the parent search,
    in the container chosen for it; without such an attribute the result is
    [null]. *)
Theorem getAttachmentDownloadUrl_sound :
  forall anc attachment u,
    getAttachmentDownloadUrl anc attachment = Some u ->
    u <> "" /\
    exists scopeAnc scope l,
      ((scopeAnc, scope) = (anc, attachment)
       \/ parentContainer anc attachment = Some (scopeAnc, scope)) /\
      l ∈ walk scopeAnc [] scope /\
      (getAttribute "href" (locNode l) = Some u
       \/ getAttribute "data-url" (locNode l) = Some u).
Proof.
  intros anc attachment u. unfold getAttachmentDownloadUrl.
  assert (Hown : forall v,
            (v <> "" /\ exists l, l ∈ walk anc [] attachment /\
                                  getAttribute "href" (locNode l) = Some v) ->
            v <> "" /\
            exists scopeAnc scope l,
              ((scopeAnc, scope) = (anc, attachment)
               \/ parentContainer anc attachment = Some (scopeAnc, scope)) /\
              l ∈ walk scopeAnc [] scope /\
              (getAttribute "href" (locNode l) = Some v
               \/ getAttribute "data-url" (locNode l) = Some v)).
  { intros v (Hv & l & Hl & Ha). split; [done|]. exists anc, attachment, l. auto. }
  destruct (hrefOf (querySelector [[[byTag "a"; attrContains "href" "download"]]] _ _))
    as [v|] eqn:E1.
  { intros [= ->]. by apply Hown, (hrefOf_sound _ _ _ _ E1). }
  destruct (hrefOf (querySelector [[[hasAttr "download"]]] _ _)) as [v|] eqn:E2.
  { intros [= ->]. by apply Hown, (hrefOf_sound _ _ _ _ E2). }
  destruct (firstHref anc attachment) as [v|] eqn:E3.
  { intros [= ->]. by apply Hown, firstHref_sound. }
  destruct (parentContainer anc attachment ≫= _) as [v|] eqn:E4.
  { intros [= ->]. destruct (parentContainer anc attachment) as [[anc' c]|]; [|done].
    cbn in E4. apply firstHref_sound in E4 as (Hu & l & Hl & Ha).
    split; [done|]. exists anc', c, l. auto. }
  destruct (head _) as [v|] eqn:E5.
  { intros [= ->]. by apply Hown, hrefScan_sound. }
  intros (Hu & l & Hl & Ha)%dataUrl_sound. split; [done|].
  exists anc, attachment, l. auto.
Qed.

Lemma getAttachmentDownloadUrl_sound_witness :
  let attachment :=
    Elem "div" ["aZo"] []
      [Elem "a" [] [("href", "https://mail.google.com/mail/u/0?ui=2&view=att&disp=safe")] []] in
  getAttachmentDownloadUrl [] attachment
  = Some "https://mail.google.com/mail/u/0?ui=2&view=att&disp=safe"
  /\ "https://mail.google.com/mail/u/0?ui=2&view=att&disp=safe" <> "".
Proof.
  intros attachment. split; [reflexivity|].
  apply (getAttachmentDownloadUrl_sound [] attachment). reflexivity.
Defined.

(** ** View detection *)

Lemma isAlnum_notSlash c : isAlnum c = true -> notSlash c = true.
Proof.
  unfold notSlash. destruct (Ascii.eqb_spec c "/") as [->|]; [|done].
  by vm_compute.
Qed.

Lemma openMatchHere_hashMatchHere s :
  openMatchHere s = true -> exists g, hashMatchHere s = Some g.
Proof.
  unfold openMatchHere, hashMatchHere.
  destruct (span notSlash s) as [run rest].
  destruct (truthy run); [|done]. cbn [andb].
  destruct rest as [|a rest]; [done|].
  destruct (Ascii.eqb_spec a "/") as [->|Ha]; cycle 1.
  { destruct a as [[] [] [] [] [] [] [] []]; try done. }
  destruct rest as [|c r]; [done|]. intros Hc.
  apply isAlnum_notSlash in Hc.
  change (span notSlash (String c r))
    with (if notSlash c then let '(a, b) := span notSlash r in (String c a, b)
          else (EmptyString, String c r)).
  rewrite Hc. destruct (span notSlash r) as [a b]. by eexists.
Qed.

Lemma openHashMatch_hashMatch s :
  openHashMatch s = true -> exists g, hashMatch s = Some g.
Proof.
  induction s as [|c s IH]; [done|].
  change (hashMatch (String c s))
    with (if Ascii.eqb c "#" then
            match hashMatchHere s with
            | Some g => Some g
            | None => hashMatch s
            end
          else hashMatch s).
  change (openHashMatch (String c s))
    with ((Ascii.eqb c "#" && openMatchHere s) || openHashMatch s).
  destruct (Ascii.eqb c "#"); cbn [andb orb]; [|done].
  intros [H|H]%orb_true_iff.
  - apply openMatchHere_hashMatchHere in H as [g ->]. by eexists.
  - destruct (hashMatchHere s); [by eexists|auto].
Qed.

(** X16: When the page counts as an opened email, the document holds one of the
    three message containers, and the URL fragment either matches the id
    pattern or names one of the five folders.  In the first case the
    identity of the message is the non-empty capture group of the
    fragment, whatever the document holds, and no attachment is given up
    for want of an email id. *)
Theorem isInOpenedEmail_identity :
  forall h doc,
    isInOpenedEmail h doc = true ->
    (exists l, documentQuerySelector OPENED_EMAIL doc = Some l) /\
    (openHashMatch (location_hash h) = true
     \/ exists folder, folder ∈ ["#inbox/"; "#sent/"; "#all/"; "#starred/"; "#label/"]
                       /\ includes folder (location_hash h) = true) /\
    (openHashMatch (location_hash h) = true ->
       exists id, id <> "" /\
         (forall doc', extractEmailId h doc' = Some id) /\
         (forall p d d', prepare h p d <> Some (Skipped d' NoEmailId))).
Proof.
  intros h doc [Hview Hdoc]%andb_true_iff. split; [|split].
  - apply bool_decide_eq_true in Hdoc.
    destruct (documentQuerySelector OPENED_EMAIL doc) as [l|]; [by exists l|done].
  - unfold isEmailView in Hview. apply andb_true_iff in Hview as [_ Hview].
    repeat (apply orb_true_iff in Hview as [Hview|Hview]); [by left|..];
      right; eexists; (split; [|exact Hview]);
      repeat first [by apply list_elem_of_here | apply list_elem_of_further].
  - intros Hopen. apply openHashMatch_hashMatch in Hopen as [id Hid].
    pose proof (hashMatch_truthy _ _ Hid) as Ht.
    assert (Hall : forall doc', extractEmailId h doc' = Some id).
    { intros doc'. unfold extractEmailId. by rewrite Hid. }
    exists id. split; [by apply truthy_true|]. split; [done|].
    intros p d d'. unfold prepare.
    destruct (nodeAt p d) as [[|t cl attrs cs]|]; [done| |done].
    destruct (classListContains PROCESSED _); [done|].
    destruct (_ || _); [done|].
    destruct (negb (isPdfAttachment _ _)); [done|].
    destruct (existsb _ _); [done|].
    rewrite Hall, Ht. done.
Qed.

Lemma isInOpenedEmail_identity_witness :
  exists id, extractEmailId (openMessage "#inbox/FMfcgzQXJ") (Text "") = Some id.
Proof.
  destruct (isInOpenedEmail_identity (openMessage "#inbox/FMfcgzQXJ")
              (messageView [chip "a.pdf"]) eq_refl) as (_ & _ & H).
  destruct (H eq_refl) as (id & _ & Hid & _). exists id. apply Hid.
Defined.

(** ** One pass over an opened message *)

Lemma eraseMarker_classListAdd n :
  eraseMarker (classListAdd PROCESSED n) = eraseMarker n.
Proof.
  destruct n as [s|t cl attrs cs]; [done|]. cbn [classListAdd].
  destruct (existsb _ cl); [done|]. cbn [eraseMarker]. f_equal.
  rewrite List.filter_app. cbn. apply app_nil_r.
Qed.

Lemma eraseMarker_mark p : forall n,
  eraseMarker (updateAt p (classListAdd PROCESSED) n) = eraseMarker n.
Proof.
  induction p as [|i p IH]; intros n; [apply eraseMarker_classListAdd|].
  destruct n as [s|t cl attrs cs]; [done|]. cbn [updateAt eraseMarker]. f_equal.
  revert i. induction cs as [|c cs IHcs]; intros [|i]; cbn; try done.
  - by rewrite IH.
  - f_equal. apply IHcs.
Qed.

(** A marker, once set, stays where it is when another node is marked. *)
Lemma mark_persists q : forall p doc a,
  nodeAt q doc = Some a ->
  exists a', nodeAt q (updateAt p (classListAdd PROCESSED) doc) = Some a'
             /\ isElement a' = isElement a
             /\ (classListContains PROCESSED a = true ->
                 classListContains PROCESSED a' = true).
Proof.
  induction q as [|j q IH]; intros p doc a Ha.
  - injection Ha as <-. eexists. split; [done|].
    destruct p as [|i p].
    + cbn [updateAt]. destruct doc as [s|t cl attrs cs]; [done|].
      split; [by cbn; destruct (existsb _ cl)|]. intros _.
      by apply classListContains_added.
    + by destruct doc.
  - destruct doc as [s|t cl attrs cs]; [done|]. cbn [nodeAt] in Ha.
    destruct (cs !! j) as [c|] eqn:Ec; [|done]. cbn in Ha.
    destruct p as [|i p].
    + exists a. split; [|done]. cbn [updateAt classListAdd].
      destruct (existsb _ cl); cbn [nodeAt]; by rewrite Ec.
    + cbn [updateAt nodeAt]. destruct (decide (i = j)) as [->|Hij].
      * rewrite list_lookup_alter_eq, Ec. cbn. by apply IH.
      * rewrite list_lookup_alter_ne by done. rewrite Ec. cbn. by exists a.
Qed.

Lemma prepare_Skipped_document h p doc doc' o :
  prepare h p doc = Some (Skipped doc' o) ->
  doc' = doc \/ doc' = updateAt p (classListAdd PROCESSED) doc.
Proof.
  unfold prepare.
  destruct (nodeAt p doc) as [[|t cl attrs cs]|]; [done| |done].
  destruct (classListContains PROCESSED _); [intros [= <- _]; by left|].
  destruct (_ || _); [intros [= <- _]; by right|].
  destruct (negb (isPdfAttachment _ _)); [intros [= <- _]; by left|].
  destruct (existsb _ _); [intros [= <- _]; by right|].
  destruct (extractEmailId _ _) as [id|]; [|intros [= <- _]; by right].
  destruct (negb (truthy id)); [intros [= <- _]; by right|done].
Qed.

(** What one started call does to the state of the pass. *)
Lemma startProcessing_cases h p s :
  startProcessing h p s = s
  \/ (exists o, prepare h p (fst s) = Some (Skipped (updateAt p (classListAdd PROCESSED) (fst s)) o)
                /\ startProcessing h p s
                   = (updateAt p (classListAdd PROCESSED) (fst s), snd s))
  \/ (exists c, prepare h p (fst s) = Some (Ready c)
                /\ startProcessing h p s
                   = (updateAt p (classListAdd PROCESSED) (fst s), snd s ++ [(p, c)])).
Proof.
  unfold startProcessing. destruct s as [doc pending]. cbn [fst snd].
  destruct (prepare h p doc) as [[doc' o|c]|] eqn:E; [| |by left].
  - destruct (prepare_Skipped_document _ _ _ _ _ E) as [->| ->]; [by left|].
    right. left. by exists o.
  - right. right. exists c. split; [done|].
    apply prepare_Ready in E as (a & _ & _ & _ & _ & _ & -> & _). done.
Qed.

(** A property of the state that every started call keeps is kept by the
    whole pass. *)
Lemma scanForAttachments_invariant (I : Pass -> Prop) h :
  (forall p s, I s -> I (startProcessing h p s)) ->
  forall doc, I (doc, []) -> I (scanForAttachments h doc).
Proof.
  intros Hstep doc H0. unfold scanForAttachments.
  destruct (negb (isInOpenedEmail h doc)); [done|].
  assert (Hfold : forall l s, I s -> I (fold_left (fun s p => startProcessing h p s) l s)).
  { induction l as [|p l IH]; intros s Hs; [done|]. cbn. by apply IH, Hstep. }
  assert (Hcont : forall s pc, I s -> I (scanContainer h s pc)).
  { intros s pc Hs. unfold scanContainer.
    destruct (nodeAt pc (fst s)) as [container|]; [|done].
    cbv zeta. case_bool_decide; [|by apply Hfold].
    generalize (Hfold (locPath <$>
                         List.filter (fun l => isAttachmentItem (locAncestors l) (locNode l))
                           (tail (walk (ancestorsAt [] pc (fst s)) pc container))) s Hs).
    generalize (fold_left (fun s p => startProcessing h p s)
                  (locPath <$>
                     List.filter (fun l => isAttachmentItem (locAncestors l) (locNode l))
                       (tail (walk (ancestorsAt [] pc (fst s)) pc container))) s).
    generalize (locPath <$>
                  List.filter (fun l => matches DOWNLOADABLE (locAncestors l) (locNode l))
                    (tail (walk (ancestorsAt [] pc (fst s)) pc container))).
    intros items. induction items as [|q items IH]; intros s1 Hs1; [done|].
    cbn [fold_left]. apply IH.
    destruct (nodeAt q (fst s1)) as [item|]; [|done].
    destruct (attachmentOf _ _ _) as [p|]; [|done].
    destruct (nodeAt p (fst s1)) as [parent|]; [|done].
    destruct (negb _); [by apply Hstep|done]. }
  generalize (locPath <$> documentQuerySelectorAll [[[byClass "aQH"]]] doc).
  intros containers. revert H0. generalize (doc, @nil (path * Candidate)).
  induction containers as [|pc l IH]; intros s Hs; [done|].
  cbn [fold_left]. by apply IH, Hcont.
Qed.

(** X17: Until it returns, a pass changes nothing of the document but processed
    markers: it injects and removes no node, so the numbers of buttons and
    badges are those of before; and outside an opened email it changes
    nothing at all and hands on no attachment. *)
Theorem scanForAttachments_only_marks :
  forall h doc,
    eraseMarker (fst (scanForAttachments h doc)) = eraseMarker doc /\
    count isButton (fst (scanForAttachments h doc)) = count isButton doc /\
    count isBadge (fst (scanForAttachments h doc)) = count isBadge doc /\
    (isInOpenedEmail h doc = false -> scanForAttachments h doc = (doc, [])) /\
    (documentQuerySelectorAll [[[byClass "aQH"]]] doc = [] ->
       scanForAttachments h doc = (doc, [])).
Proof.
  intros h doc.
  assert (Hcount : forall P, shallow P -> ignoresMarker P ->
            count P (fst (scanForAttachments h doc)) = count P doc).
  { intros P Hs Hi.
    apply (scanForAttachments_invariant (fun s => count P (fst s) = count P doc)); [|done].
    intros p s Hinv.
    destruct (startProcessing_cases h p s) as [->|[(o & Hp & ->)|(c & Hp & ->)]];
      [done|..]; cbn [fst]; rewrite <- Hinv.
    - by eapply prepare_Skipped.
    - apply prepare_Ready in Hp as (a & Ha & _). by eapply count_mark. }
  split; [|split; [|split; [|split]]].
  - apply (scanForAttachments_invariant
             (fun s => eraseMarker (fst s) = eraseMarker doc)); [|done].
    intros p s Hs.
    destruct (startProcessing_cases h p s) as [->|[(o & _ & ->)|(c & _ & ->)]];
      [done|..]; cbn [fst]; by rewrite eraseMarker_mark.
  - apply Hcount; [apply shallow_isButton|apply ignoresMarker_isButton].
  - apply Hcount; [apply shallow_isBadge|apply ignoresMarker_isBadge].
  - intros H. unfold scanForAttachments. by rewrite H.
  - intros H. unfold scanForAttachments. destruct (negb _); [done|]. by rewrite H.
Qed.

(** X18: No element is handed to the status check twice in one pass, also when
    containers are nested or the fallback reaches an element through
    several of its links; and every element handed on stands marked in the
    document the pass leaves, with a non-empty email id and the file name
    its button would carry. *)
Theorem scanForAttachments_pending :
  forall h doc,
    let doc' := fst (scanForAttachments h doc) in
    let pending := snd (scanForAttachments h doc) in
    NoDup (fst <$> pending) /\
    forall p c, (p, c) ∈ pending ->
      candEmailId c <> "" /\
      candFileName c = getAttachmentFileName (candAncestors c) (candNode c) /\
      exists a, nodeAt p doc' = Some a /\ isElement a = true
                /\ classListContains PROCESSED a = true.
Proof.
  intros h doc doc' pending. subst doc' pending.
  apply (scanForAttachments_invariant
           (fun s => NoDup (fst <$> snd s) /\
                     forall p c, (p, c) ∈ snd s ->
                       candEmailId c <> "" /\
                       candFileName c = getAttachmentFileName (candAncestors c) (candNode c) /\
                       exists a, nodeAt p (fst s) = Some a /\ isElement a = true
                                 /\ classListContains PROCESSED a = true)).
  2:{ split; [constructor|]. intros p c Hin. by apply elem_of_nil in Hin. }
  intros p s [Hnd Hall].
  assert (Hkeep : forall q c, (q, c) ∈ snd s ->
            candEmailId c <> "" /\
            candFileName c = getAttachmentFileName (candAncestors c) (candNode c) /\
            exists a, nodeAt q (updateAt p (classListAdd PROCESSED) (fst s)) = Some a
                      /\ isElement a = true /\ classListContains PROCESSED a = true).
  { intros q c Hin. destruct (Hall q c Hin) as (Hid & Hname & a & Ha & He & Hm).
    split; [done|]. split; [done|].
    destruct (mark_persists q p (fst s) a Ha) as (a' & Ha' & He' & Hm').
    exists a'. split; [done|]. split; [congruence|auto]. }
  destruct (startProcessing_cases h p s) as [->|[(o & _ & ->)|(c & Hc & ->)]];
    [done|by split|].
  cbn [fst snd]. split.
  - rewrite fmap_app. cbn. apply NoDup_app. split; [done|]. split; [|apply NoDup_singleton].
    intros q Hq ->%list_elem_of_singleton.
    apply list_elem_of_fmap in Hq as ([q c'] & -> & Hin). cbn in *.
    destruct (Hall _ _ Hin) as (_ & _ & a & Ha & _ & Hm).
    apply prepare_Ready in Hc as (a0 & Ha0 & _ & Hm0 & _). congruence.
  - intros q c' [Hin|Hin]%elem_of_app; [by apply Hkeep|].
    apply list_elem_of_singleton in Hin. injection Hin as -> ->.
    pose proof (candidate_file_name _ _ _ _ Hc) as Hname.
    pose proof (prepare_Ready_placed _ _ _ _ Hc) as [Hp He].
    apply prepare_Ready in Hc as (a0 & Ha0 & He0 & _ & _ & _ & Hd & _ & Hn & _ & _ & Ht & _).
    split; [by apply truthy_true|]. split; [done|].
    exists (candNode c). rewrite <- Hd. split; [done|]. split; [done|].
    rewrite Hn. by apply classListContains_added.
Qed.

(** ** Upload from the page *)

(** X19: A click shows the badge only when the service worker answered that the
    upload succeeded.  With the worker's handler at the other end of a
    working channel, the badge is shown exactly when the handler stored the
    record of the transfer, so that the status check reports the email as
    transferred from then on; in every other case the storage is as before.
    When the extension context is gone, the button asks for a reload. *)
Theorem handleUpload_consistent :
  forall loading downloadUrl fileData reply,
    (handleUpload loading downloadUrl fileData reply = BadgeShown ->
       loading = false /\
       (exists url, downloadUrl = Some url /\ url <> "") /\
       (exists data, fileData = Resolved data) /\
       exists response, reply = Resolved response /\ uploadSuccess response = true) /\
    (forall payload upload now st url data,
       url <> "" ->
       let worker := background.handleUploadPdf payload upload now st in
       let outcome :=
         handleUpload false (Some url) (Resolved data)
           (messaging.sendMessage (messaging.CalledBack None (snd worker))) in
       (outcome = BadgeShown <->
          isTransferred (worker.handleCheckStatus (payloadEmailId payload) (fst worker)) = true
          /\ uploadSuccess (snd worker) = true) /\
       (outcome <> BadgeShown -> fst worker = st)) /\
    (forall url data,
       url <> "" ->
       handleUpload false (Some url) (Resolved data)
         (messaging.sendMessage messaging.NoRuntimeId) = ReloadRequested /\
       handleUpload false (Some url) (Resolved data)
         (messaging.sendMessage messaging.SendThrew) = ReloadRequested).
Proof.
  intros loading downloadUrl fileData reply. split; [|split].
  - unfold handleUpload. destruct loading; [done|].
    destruct downloadUrl as [url|]; cbn [default id]; [|by vm_compute].
    destruct (truthy url) eqn:Eu; cbn [negb]; [|by vm_compute].
    apply truthy_true in Eu.
    destruct fileData as [data|m].
    2:{ by destruct (_ || _). }
    destruct reply as [response|m].
    2:{ by destruct (_ || _). }
    destruct (uploadSuccess response) eqn:Es.
    2:{ by destruct (_ || _). }
    intros _. split; [done|]. split; [by exists url|]. split; [by exists data|].
    by exists response.
  - intros payload upload now st url data Hurl worker outcome.
    assert (Ho : outcome = BadgeShown <-> uploadSuccess (snd worker) = true).
    { subst outcome. unfold handleUpload. cbn [default id messaging.sendMessage].
      apply truthy_true in Hurl. rewrite Hurl. cbn [negb].
      destruct (uploadSuccess (snd worker)); [done|].
      split; [|done]. by destruct (_ || _). }
    split.
    + rewrite Ho. split; [|by intros []]. intros Hs. split; [|done].
      subst worker. destruct (handleUploadPdf_stored _ _ _ _ Hs) as [fid ->].
      apply (added_is_transferred
               {| emailId := payloadEmailId payload; fileName := payloadFileName payload;
                  uploadedFileId := fid; transferDate := now;
                  subject := payloadSubject payload |}).
    + intros Hn. apply handleUploadPdf_failed.
      destruct (uploadSuccess (snd worker)) eqn:E; [|done].
      exfalso. by apply Hn, Ho.
  - intros url data Hurl. unfold handleUpload. cbn [default id].
    apply truthy_true in Hurl. rewrite Hurl. by vm_compute.
Qed.

(** ** Mutation observer *)

(** X20: A batch of mutations never asks for both scans: in an opened email it
    can only ask for the email scan, and does so exactly when a mutation
    added an element that is or holds an attachment area; outside it can
    only ask for the inbox scan.  Mutations that add no element ask for
    nothing. *)
Theorem shouldScan_exclusive :
  forall h doc mutations,
    let flags := shouldScan h doc mutations in
    fst flags && snd flags = false /\
    (isInOpenedEmail h doc = true ->
       snd flags = false /\
       (fst flags = true <->
          exists m node, m ∈ mutations /\ mutationType m = childList /\
                         node ∈ addedNodes m /\ isElement node = true /\
                         isEmailAttachmentArea node = true)) /\
    (isInOpenedEmail h doc = false ->
       fst flags = false /\
       (snd flags = true <->
          exists m node, m ∈ mutations /\ mutationType m = childList /\
                         node ∈ addedNodes m /\ isElement node = true /\
                         (classListContains "brc" node = true
                          \/ contains [[[byClass "brc"]]] node = true
                          \/ classListContains "zA" node = true
                          \/ contains [[[byClass "zA"]]] node = true
                          \/ contains [[[attrContains "title" ".pdf"]]] node = true))) /\
    ((forall m, m ∈ mutations ->
        mutationType m <> childList \/ Forall (fun node => isElement node = false) (addedNodes m)) ->
     flags = (false, false)).
Proof.
  intros h doc mutations flags. subst flags. unfold shouldScan. cbn [fst snd].
  set (added := flat_map _ mutations).
  assert (Hadded : forall node, node ∈ added <->
            exists m, m ∈ mutations /\ mutationType m = childList /\
                      node ∈ addedNodes m /\ isElement node = true).
  { intros node. subst added. rewrite list_elem_of_In, in_flat_map. split.
    - intros (m & Hm & Hn). exists m. rewrite list_elem_of_In. split; [done|].
      destruct (mutationType m); try done.
      apply filter_In in Hn as [Hn He]. by rewrite list_elem_of_In.
    - intros (m & Hm & Ht & Hn & He). exists m. rewrite <- list_elem_of_In.
      split; [done|]. rewrite Ht. apply filter_In. by rewrite <- list_elem_of_In. }
  destruct (isInOpenedEmail h doc) eqn:Eo; cbn [negb].
  - assert (Hi : existsb (fun node => isInboxRow h doc node && false) added = false).
    { clear. induction added as [|n l IH]; [done|]. cbn. by rewrite andb_false_r. }
    rewrite Hi. split; [apply andb_false_r|]. split; [|split; [done|]].
    + intros _. split; [done|]. rewrite existsb_exists. split.
      * intros (node & Hn & Ha). rewrite <- list_elem_of_In in Hn.
        apply Hadded in Hn as (m & Hm & Ht & Hn & He).
        rewrite andb_true_r in Ha. by exists m, node.
      * intros (m & node & Hm & Ht & Hn & He & Ha). exists node.
        rewrite <- list_elem_of_In, andb_true_r. split; [|done].
        apply Hadded. by exists m.
    + intros Hall. f_equal. apply not_true_is_false. rewrite existsb_exists.
      intros (node & Hn & _). rewrite <- list_elem_of_In in Hn.
      apply Hadded in Hn as (m & Hm & Ht & Hn & He).
      destruct (Hall m Hm) as [?|Hf]; [done|].
      rewrite Forall_forall in Hf. specialize (Hf node Hn). congruence.
  - assert (He : existsb (fun node => isEmailAttachmentArea node && false) added = false).
    { clear. induction added as [|n l IH]; [done|]. cbn. by rewrite andb_false_r. }
    rewrite He. split; [done|]. split; [done|]. split.
    + intros _. split; [done|]. rewrite existsb_exists. split.
      * intros (node & Hn & Ha). rewrite <- list_elem_of_In in Hn.
        apply Hadded in Hn as (m & Hm & Ht & Hn & Hel).
        exists m, node. repeat (split; [done|]).
        rewrite andb_true_r in Ha. unfold isInboxRow in Ha. rewrite Eo in Ha.
        cbn [negb] in Ha. rewrite andb_true_r in Ha.
        repeat (apply orb_true_iff in Ha as [Ha|Ha]); auto 6.
      * intros (m & node & Hm & Ht & Hn & Hel & Ha). exists node.
        rewrite <- list_elem_of_In, andb_true_r. split.
        { apply Hadded. by exists m. }
        unfold isInboxRow. rewrite Eo. cbn [negb]. rewrite andb_true_r.
        destruct Ha as [->|[->|[->|[->| ->]]]]; by rewrite ?orb_true_r.
    + intros Hall. f_equal. apply not_true_is_false. rewrite existsb_exists.
      intros (node & Hn & _). rewrite <- list_elem_of_In in Hn.
      apply Hadded in Hn as (m & Hm & Ht & Hn & Hel).
      destruct (Hall m Hm) as [?|Hf]; [done|].
      rewrite Forall_forall in Hf. specialize (Hf node Hn). congruence.
Qed.

(** *** The timers of the observer *)

Lemma NoDup_fmap_filter {A B} (f : A -> B) (P : A -> bool) (l : list A) :
  NoDup (f <$> l) -> NoDup (f <$> List.filter P l).
Proof.
  induction l as [|a l IH]; [done|]. rewrite fmap_cons.
  intros [Ha Hl]%NoDup_cons. cbn [List.filter]. destruct (P a); [|by apply IH].
  rewrite fmap_cons. apply NoDup_cons. split; [|by apply IH].
  intros Hin. apply Ha. apply list_elem_of_fmap in Hin as (x & -> & Hx).
  apply list_elem_of_fmap. exists x. split; [done|].
  apply list_elem_of_In, filter_In in Hx as [Hx _]. by apply list_elem_of_In.
Qed.

Lemma filter_nil_iff {A} (P : A -> bool) (l : list A) :
  List.filter P l = [] <-> forall x, x ∈ l -> P x = false.
Proof.
  induction l as [|a l IH]; cbn [List.filter].
  - split; [|done]. intros _ x Hx. by apply elem_of_nil in Hx.
  - destruct (P a) eqn:E.
    + split; [done|]. intros H. rewrite (H a) in E by left. done.
    + rewrite IH. split.
      * intros H x [->|Hx]%elem_of_cons; [done|by apply H].
      * intros H x Hx. apply H. by right.
Qed.

Lemma filter_all {A} (P : A -> bool) (l : list A) :
  (forall x, x ∈ l -> P x = true) -> List.filter P l = l.
Proof.
  induction l as [|a l IH]; [done|]. intros H. cbn [List.filter].
  rewrite (H a) by left. f_equal. apply IH. intros x Hx. apply H. by right.
Qed.

Lemma filter_comm {A} (P Q : A -> bool) (l : list A) :
  List.filter P (List.filter Q l) = List.filter Q (List.filter P l).
Proof.
  induction l as [|a l IH]; [done|]. cbn [List.filter].
  destruct (P a) eqn:EP, (Q a) eqn:EQ; cbn [List.filter]; rewrite ?EP, ?EQ, IH; done.
Qed.

Lemma clearTimeout_elem t handle w :
  t ∈ activeTimers (clearTimeout handle w)
  <-> t ∈ activeTimers w /\ timerHandle t <> handle.
Proof.
  unfold clearTimeout. cbn [activeTimers].
  rewrite list_elem_of_In, filter_In, <- list_elem_of_In, negb_true_iff, Pos.eqb_neq.
  done.
Qed.

Lemma pending_elem c t w :
  t ∈ pending c w <-> t ∈ activeTimers w /\ timerCallback t = c.
Proof.
  unfold pending.
  by rewrite list_elem_of_In, filter_In, <- list_elem_of_In, bool_decide_eq_true.
Qed.

Lemma pending_setTimeout c c' delay now w :
  pending c' (snd (setTimeout c delay now w))
  = pending c' w ++ (if decide (c = c')
                     then [mkTimer (nextHandle w) (now + delay) c] else []).
Proof.
  unfold pending, setTimeout. cbn [snd activeTimers].
  rewrite List.filter_app. f_equal. cbn [List.filter timerCallback].
  destruct (decide (c = c')) as [E|E].
  - by rewrite bool_decide_eq_true_2.
  - by rewrite bool_decide_eq_false_2.
Qed.

Lemma clearTimeout_inOrder vars handle w :
  timersInOrder (vars, w) -> timersInOrder (vars, clearTimeout handle w).
Proof.
  intros (H1 & H2 & H3 & H4 & H5). cbn [fst snd] in *.
  split; [|split; [|split; [|split]]]; cbn [fst snd].
  - intros t [Ht _]%clearTimeout_elem. by apply H1.
  - by apply NoDup_fmap_filter.
  - intros t [Ht _]%clearTimeout_elem. by apply H3.
  - exact H4.
  - intros c h t Hc [Ht _]%clearTimeout_elem. by apply H5.
Qed.

Lemma setTimeout_fresh c delay now w :
  (forall t, t ∈ activeTimers w -> (timerHandle t < nextHandle w)%positive) ->
  NoDup (timerHandle <$> activeTimers w) ->
  NoDup (timerHandle <$> activeTimers (snd (setTimeout c delay now w))).
Proof.
  intros H1 H2. unfold setTimeout. cbn [snd activeTimers].
  rewrite fmap_app. apply NoDup_app. split; [done|]. split; [|apply NoDup_singleton].
  intros x (t & -> & Ht)%list_elem_of_fmap Hx. cbn in Hx.
  apply list_elem_of_singleton in Hx. specialize (H1 t Ht). lia.
Qed.

Lemma setTimeout_elem t c delay now w :
  t ∈ activeTimers (snd (setTimeout c delay now w))
  <-> t ∈ activeTimers w \/ t = mkTimer (nextHandle w) (now + delay) c.
Proof.
  unfold setTimeout. cbn [snd activeTimers].
  by rewrite elem_of_app, list_elem_of_singleton.
Qed.

Lemma otherTimeout_inOrder vars delay now w :
  timersInOrder (vars, w) ->
  timersInOrder (vars, snd (setTimeout OtherCallback delay now w)).
Proof.
  intros (H1 & H2 & H3 & H4 & H5). cbn [fst snd] in *.
  split; [|split; [|split; [|split]]]; cbn [fst snd].
  - intros t [Ht| ->]%setTimeout_elem; cbn; [specialize (H1 t Ht)|]; lia.
  - by apply setTimeout_fresh.
  - intros t [Ht| ->]%setTimeout_elem; [by apply H3|done].
  - intros c h Hc. specialize (H4 c h Hc). cbn. lia.
  - intros c h t Hc [Ht| ->]%setTimeout_elem; [by apply H5|].
    cbn. intros <-. specialize (H4 c _ Hc). lia.
Qed.

(** One block of the callback: the timer the variable names is cleared and
    a new one is set, whose handle the variable then holds. *)
Lemma debounce_inOrder c delay now vars vars' w :
  c <> OtherCallback ->
  timersInOrder (vars, w) ->
  slot c vars' = Some (nextHandle w) ->
  (forall c', c' <> c -> slot c' vars' = slot c' vars) ->
  let cleared := match slot c vars with
                 | Some handle => clearTimeout handle w
                 | None => w
                 end in
  let w' := snd (setTimeout c delay now cleared) in
  timersInOrder (vars', w') /\
  pending c w' = [mkTimer (nextHandle w) (now + delay) c] /\
  (forall c', c' <> c -> pending c' w' = pending c' w).
Proof.
  intros Hc Hin Hnew Hrest cleared w'.
  assert (Hcl : timersInOrder (vars, cleared)).
  { subst cleared. destruct (slot c vars); [by apply clearTimeout_inOrder|done]. }
  assert (Hnext : nextHandle cleared = nextHandle w).
  { subst cleared. by destruct (slot c vars). }
  assert (Hsub : forall t, t ∈ activeTimers cleared -> t ∈ activeTimers w).
  { subst cleared. destruct (slot c vars); [|done].
    by intros t [Ht _]%clearTimeout_elem. }
  assert (Hnone : pending c cleared = []).
  { apply filter_nil_iff. intros t Ht. apply bool_decide_eq_false. intros E.
    destruct Hin as (_ & _ & H3 & _). cbn [fst snd] in H3.
    specialize (H3 t (Hsub t Ht)). rewrite E in H3. specialize (H3 Hc).
    subst cleared. rewrite H3 in Ht. apply clearTimeout_elem in Ht as [_ Ht]. done. }
  assert (Hkept : forall c', c' <> c -> pending c' cleared = pending c' w).
  { intros c' Hc'. subst cleared. destruct (slot c vars) as [h0|] eqn:E; [|done].
    unfold pending, clearTimeout. cbn [activeTimers]. rewrite filter_comm.
    apply filter_all. intros t Ht. apply negb_true_iff, Pos.eqb_neq. intros Eh.
    apply (pending_elem c' t w) in Ht as [Ht Hcb].
    destruct Hin as (_ & _ & _ & _ & H5). cbn [fst snd] in H5.
    specialize (H5 c h0 t E Ht Eh). congruence. }
  destruct Hcl as (H1 & H2 & H3 & H4 & H5). cbn [fst snd] in *.
  split; [|split].
  - split; [|split; [|split; [|split]]]; cbn [fst snd]; subst w'.
    + intros t [Ht| ->]%setTimeout_elem; cbn; [specialize (H1 t Ht)|]; lia.
    + by apply setTimeout_fresh.
    + intros t [Ht| ->]%setTimeout_elem Hother.
      * destruct (decide (timerCallback t = c)) as [E|E].
        -- exfalso. assert (Hp : t ∈ pending c cleared) by by apply pending_elem.
           rewrite Hnone in Hp. by apply elem_of_nil in Hp.
        -- rewrite Hrest by done. by apply H3.
      * cbn. by rewrite Hnext.
    + intros c' h Hc'. cbn. destruct (decide (c' = c)) as [->|E].
      * rewrite Hnew in Hc'. injection Hc' as <-. lia.
      * rewrite Hrest in Hc' by done. specialize (H4 c' h Hc'). lia.
    + intros c' h t Hc' [Ht| ->]%setTimeout_elem Eh.
      * destruct (decide (c' = c)) as [->|E].
        -- rewrite Hnew in Hc'. injection Hc' as <-. specialize (H1 t Ht). lia.
        -- rewrite Hrest in Hc' by done. by apply (H5 c' h t).
      * cbn in *. destruct (decide (c' = c)) as [->|E]; [done|].
        rewrite Hrest in Hc' by done. specialize (H4 c' h Hc'). lia.
  - subst w'. rewrite pending_setTimeout, Hnone, decide_True by done.
    by rewrite Hnext.
  - intros c' Hc'. subst w'. rewrite pending_setTimeout, decide_False by done.
    rewrite app_nil_r. by apply Hkept.
Qed.

(** What the observer callback does to the timers, block by block. *)
Lemma observerCallback_inOrder h doc mutations now s :
  timersInOrder s ->
  let s' := observerCallback h doc mutations now s in
  timersInOrder s' /\
  (fst (shouldScan h doc mutations) = true ->
     exists handle,
       scanTimeout (fst s') = Some handle /\
       pending ObserverEmailScan (snd s')
       = [mkTimer handle (now + 300) ObserverEmailScan]) /\
  (fst (shouldScan h doc mutations) = false ->
     scanTimeout (fst s') = scanTimeout (fst s) /\
     pending ObserverEmailScan (snd s') = pending ObserverEmailScan (snd s)) /\
  (snd (shouldScan h doc mutations) = true ->
     exists handle,
       inboxScanTimeout (fst s') = Some handle /\
       pending ObserverInboxScan (snd s')
       = [mkTimer handle (now + 500) ObserverInboxScan]) /\
  (snd (shouldScan h doc mutations) = false ->
     inboxScanTimeout (fst s') = inboxScanTimeout (fst s) /\
     pending ObserverInboxScan (snd s') = pending ObserverInboxScan (snd s)) /\
  pending OtherCallback (snd s') = pending OtherCallback (snd s).
Proof.
  destruct s as [vars w]. intros Hin s'. subst s'. unfold observerCallback.
  destruct (shouldScan h doc mutations) as [[] []]; cbn [fst snd].
  - pose proof (debounce_inOrder ObserverEmailScan 300 now vars
                  {| scanTimeout := Some (nextHandle w);
                     inboxScanTimeout := inboxScanTimeout vars |} w
                  ltac:(done) Hin eq_refl) as H.
    destruct H as (Hin1 & He1 & Hk1); [by intros []|].
    cbn [slot] in *. set (cleared := match scanTimeout vars with
                           | Some handle => clearTimeout handle w | None => w end) in *.
    set (w1 := snd (setTimeout ObserverEmailScan 300 now cleared)) in *.
    assert (Hn : nextHandle cleared = nextHandle w).
    { subst cleared. by destruct (scanTimeout vars). }
    change (setTimeout ObserverEmailScan 300 now cleared) with (nextHandle cleared, w1).
    cbn [scanTimeout inboxScanTimeout]. rewrite Hn.
    set (vars1 := {| scanTimeout := Some (nextHandle w);
                     inboxScanTimeout := inboxScanTimeout vars |}) in *.
    pose proof (debounce_inOrder ObserverInboxScan 500 now vars1
                  {| scanTimeout := Some (nextHandle w);
                     inboxScanTimeout := Some (nextHandle w1) |} w1
                  ltac:(done) Hin1 eq_refl) as H.
    destruct H as (Hin2 & He2 & Hk2); [by intros []|].
    cbn [slot vars1 inboxScanTimeout] in *.
    set (cleared2 := match inboxScanTimeout vars with
                     | Some handle => clearTimeout handle w1 | None => w1 end) in *.
    set (w2 := snd (setTimeout ObserverInboxScan 500 now cleared2)) in *.
    assert (Hn2 : nextHandle cleared2 = nextHandle w1).
    { subst cleared2. by destruct (inboxScanTimeout vars). }
    change (setTimeout ObserverInboxScan 500 now cleared2) with (nextHandle cleared2, w2).
    cbn [fst snd scanTimeout inboxScanTimeout]. rewrite Hn2.
    split; [done|]. split.
    { intros _. exists (nextHandle w). split; [done|].
      rewrite (Hk2 ObserverEmailScan) by done. done. }
    split; [done|]. split; [intros _; by exists (nextHandle w1)|].
    split; [done|].
    rewrite (Hk2 OtherCallback), (Hk1 OtherCallback) by done. done.
  - pose proof (debounce_inOrder ObserverEmailScan 300 now vars
                  {| scanTimeout := Some (nextHandle w);
                     inboxScanTimeout := inboxScanTimeout vars |} w
                  ltac:(done) Hin eq_refl) as H.
    destruct H as (Hin1 & He1 & Hk1); [by intros []|].
    cbn [slot] in *. set (cleared := match scanTimeout vars with
                           | Some handle => clearTimeout handle w | None => w end) in *.
    set (w1 := snd (setTimeout ObserverEmailScan 300 now cleared)) in *.
    assert (Hn : nextHandle cleared = nextHandle w).
    { subst cleared. by destruct (scanTimeout vars). }
    change (setTimeout ObserverEmailScan 300 now cleared) with (nextHandle cleared, w1).
    cbn [fst snd scanTimeout inboxScanTimeout]. rewrite Hn.
    split; [done|]. split; [intros _; by exists (nextHandle w)|].
    split; [done|]. split; [done|].
    split; [intros _; split; [done|by apply Hk1]|by apply Hk1].
  - pose proof (debounce_inOrder ObserverInboxScan 500 now vars
                  {| scanTimeout := scanTimeout vars;
                     inboxScanTimeout := Some (nextHandle w) |} w
                  ltac:(done) Hin eq_refl) as H.
    destruct H as (Hin1 & He1 & Hk1); [by intros []|].
    cbn [slot] in *. set (cleared := match inboxScanTimeout vars with
                           | Some handle => clearTimeout handle w | None => w end) in *.
    set (w1 := snd (setTimeout ObserverInboxScan 500 now cleared)) in *.
    assert (Hn : nextHandle cleared = nextHandle w).
    { subst cleared. by destruct (inboxScanTimeout vars). }
    change (setTimeout ObserverInboxScan 500 now cleared) with (nextHandle cleared, w1).
    cbn [fst snd scanTimeout inboxScanTimeout]. rewrite Hn.
    split; [done|]. split; [done|].
    split; [intros _; split; [done|by apply Hk1]|].
    split; [intros _; by exists (nextHandle w)|].
    split; [done|by apply Hk1].
  - split; [done|]. split; [done|]. split; [done|]. split; [done|]. by split.
Qed.

Lemma pageStep_inOrder s e : timersInOrder s -> timersInOrder (pageStep s e).
Proof.
  intros Hin. destruct e as [h doc mutations now|handle|delay now]; cbn [pageStep].
  - apply (observerCallback_inOrder h doc mutations now s Hin).
  - destruct s as [vars w]. by apply clearTimeout_inOrder.
  - destruct s as [vars w]. by apply otherTimeout_inOrder.
Qed.

Lemma pageAfter_inOrder events : timersInOrder (pageAfter events).
Proof.
  unfold pageAfter.
  assert (H : timersInOrder (initObserver {| activeTimers := []; nextHandle := 1 |})).
  { split; [|split; [|split; [|split]]]; cbn.
    - intros t Ht. by apply elem_of_nil in Ht.
    - apply NoDup_nil_2.
    - intros t Ht. by apply elem_of_nil in Ht.
    - by intros [] h.
    - intros c h t _ Ht. by apply elem_of_nil in Ht. }
  revert H. generalize (initObserver {| activeTimers := []; nextHandle := 1 |}).
  induction events as [|e events IH]; [done|].
  intros s Hs. cbn [fold_left]. apply IH. by apply pageStep_inOrder.
Qed.

Lemma pending_at_most_one c s :
  c <> OtherCallback -> timersInOrder s ->
  length (pending c (snd s)) <= 1 /\
  (forall t, t ∈ pending c (snd s) -> slot c (fst s) = Some (timerHandle t)).
Proof.
  intros Hc (_ & H2 & H3 & _).
  assert (Hslot : forall t, t ∈ pending c (snd s) -> slot c (fst s) = Some (timerHandle t)).
  { intros t [Ht E]%pending_elem. specialize (H3 t Ht). rewrite E in H3. by apply H3. }
  split; [|done].
  pose proof (NoDup_fmap_filter timerHandle
                (fun t => bool_decide (timerCallback t = c)) _ H2) as Hnd.
  fold (pending c (snd s)) in Hnd.
  destruct (pending c (snd s)) as [|a [|b l]]; cbn; [lia|lia|]. exfalso.
  pose proof (Hslot a ltac:(left)) as Ha.
  pose proof (Hslot b ltac:(right; left)) as Hb.
  rewrite Ha in Hb. injection Hb as Hb.
  rewrite !fmap_cons in Hnd. apply NoDup_cons in Hnd as [Hnd _].
  apply Hnd. rewrite Hb. left.
Qed.

Lemma pageAfter_snoc events e :
  pageAfter (events ++ [e]) = pageStep (pageAfter events) e.
Proof. unfold pageAfter. by rewrite fold_left_app. Qed.

(** A pending timer of the observer was set by the last batch that asked
    for its scan. *)
Lemma pending_lastBatch c delay events :
  (c = ObserverEmailScan /\ delay = 300%N) \/ (c = ObserverInboxScan /\ delay = 500%N) ->
  forall t, t ∈ pending c (snd (pageAfter events)) ->
            exists now, lastBatchFor c events = Some now /\ timerDue t = (now + delay)%N.
Proof.
  intros Hc. induction events as [|e events IH] using rev_ind.
  - intros t Ht. by apply elem_of_nil in Ht.
  - intros t. rewrite pageAfter_snoc. unfold lastBatchFor. rewrite omap_app.
    pose proof (pageAfter_inOrder events) as Hin.
    destruct e as [h doc mutations now|handle|d now]; cbn [pageStep omap list_omap].
    + destruct (observerCallback_inOrder h doc mutations now _ Hin)
        as (_ & He1 & He0 & Hi1 & Hi0 & _).
      destruct Hc as [[-> ->]|[-> ->]]; cbn [asksFor].
      * destruct (fst (shouldScan h doc mutations)) eqn:E.
        -- destruct (He1 eq_refl) as (hd & _ & ->). intros ->%list_elem_of_singleton.
           exists now. by rewrite last_snoc.
        -- destruct (He0 eq_refl) as (_ & ->). rewrite app_nil_r. apply IH.
      * destruct (snd (shouldScan h doc mutations)) eqn:E.
        -- destruct (Hi1 eq_refl) as (hd & _ & ->). intros ->%list_elem_of_singleton.
           exists now. by rewrite last_snoc.
        -- destruct (Hi0 eq_refl) as (_ & ->). rewrite app_nil_r. apply IH.
    + rewrite app_nil_r. cbn [snd].
      intros [[Ht _]%clearTimeout_elem E]%pending_elem. apply IH.
      by apply pending_elem.
    + rewrite app_nil_r. cbn [snd].
      rewrite pending_setTimeout, decide_False, app_nil_r; [apply IH|].
      by destruct Hc as [[-> _]|[-> _]].
Qed.

(** X21: The debounce timers of the observer.  Whatever batches of mutations
    arrive, whichever timers run off and whatever timers the rest of the
    script sets in between, at most one email-scan timer and at most one
    inbox-scan timer of the observer are pending at any time, each the one
    its variable names.  A batch that asks for the email scan clears the
    pending email-scan timer, whether or not it was about to run, and
    leaves exactly one, due 300 ms after the batch; a batch that does not
    ask for it leaves the pending one alone; so a pending email-scan timer
    is always that of the last batch that asked for the scan.  The same
    holds of the inbox scan with 500 ms; and the callback never clears a
    timer of the rest of the script. *)
Theorem observer_timers_debounced :
  forall events,
    let s := pageAfter events in
    (length (pending ObserverEmailScan (snd s)) <= 1 /\
     forall t, t ∈ pending ObserverEmailScan (snd s) ->
               scanTimeout (fst s) = Some (timerHandle t)) /\
    (length (pending ObserverInboxScan (snd s)) <= 1 /\
     forall t, t ∈ pending ObserverInboxScan (snd s) ->
               inboxScanTimeout (fst s) = Some (timerHandle t)) /\
    (forall t, t ∈ pending ObserverEmailScan (snd s) ->
       exists now, lastBatchFor ObserverEmailScan events = Some now /\
                   timerDue t = (now + 300)%N) /\
    (forall t, t ∈ pending ObserverInboxScan (snd s) ->
       exists now, lastBatchFor ObserverInboxScan events = Some now /\
                   timerDue t = (now + 500)%N) /\
    (forall h doc mutations now,
       let s' := pageStep s (Mutated h doc mutations now) in
       (fst (shouldScan h doc mutations) = true ->
          exists handle,
            scanTimeout (fst s') = Some handle /\
            pending ObserverEmailScan (snd s')
            = [mkTimer handle (now + 300) ObserverEmailScan]) /\
       (fst (shouldScan h doc mutations) = false ->
          scanTimeout (fst s') = scanTimeout (fst s) /\
          pending ObserverEmailScan (snd s') = pending ObserverEmailScan (snd s)) /\
       (snd (shouldScan h doc mutations) = true ->
          exists handle,
            inboxScanTimeout (fst s') = Some handle /\
            pending ObserverInboxScan (snd s')
            = [mkTimer handle (now + 500) ObserverInboxScan]) /\
       (snd (shouldScan h doc mutations) = false ->
          inboxScanTimeout (fst s') = inboxScanTimeout (fst s) /\
          pending ObserverInboxScan (snd s') = pending ObserverInboxScan (snd s)) /\
       pending OtherCallback (snd s') = pending OtherCallback (snd s)).
Proof.
  intros events s. pose proof (pageAfter_inOrder events) as Hin. fold s in Hin.
  split; [by apply (pending_at_most_one ObserverEmailScan)|].
  split; [by apply (pending_at_most_one ObserverInboxScan)|].
  split; [apply pending_lastBatch; by left|].
  split; [apply pending_lastBatch; by right|].
  intros h doc mutations now s'.
  by destruct (observerCallback_inOrder h doc mutations now s Hin) as (_ & H).
Qed.

(** Three batches in an opened message, 200 ms and 250 ms apart, with the
    two start-up timers of [init] pending: the one email-scan timer left is
    that of the last batch. *)
Lemma observer_timers_debounced_witness :
  let h := openMessage "#inbox/E1" in
  let doc := messageView [chip "a.pdf"] in
  let batch := [{| mutationType := childList;
                   addedNodes := [Elem "div" ["aQH"] [] [chip "a.pdf"]] |}] in
  let events := [TimerSet 1000 0; TimerSet 3000 0;
                 Mutated h doc batch 400; Mutated h doc batch 600] in
  let s' := pageStep (pageAfter events) (Mutated h doc batch 850) in
  shouldScan h doc batch = (true, false) /\
  pending ObserverEmailScan (snd (pageAfter events))
  = [mkTimer 4 900 ObserverEmailScan] /\
  pending ObserverEmailScan (snd s') = [mkTimer 5 1150 ObserverEmailScan] /\
  pending OtherCallback (snd s')
  = [mkTimer 1 1000 OtherCallback; mkTimer 2 3000 OtherCallback] /\
  length (pending ObserverEmailScan (snd s')) <= 1.
Proof.
  intros h doc batch events s'.
  split; [reflexivity|]. split; [reflexivity|]. split; [reflexivity|].
  split; [reflexivity|].
  apply (proj1 (proj1 (observer_timers_debounced
                         (events ++ [Mutated h doc batch 850])))).
Defined.

(** ** Inbox overview *)

Lemma shell_classListContains c a b :
  shell a = shell b -> classListContains c a = classListContains c b.
Proof. destruct a, b; simpl; try done. by intros [= -> -> ->]. Qed.

Lemma shell_getAttribute name a b :
  shell a = shell b -> getAttribute name a = getAttribute name b.
Proof. destruct a, b; simpl; try done. by intros [= -> -> ->]. Qed.

Lemma shell_isElement a b : shell a = shell b -> isElement a = isElement b.
Proof. by destruct a, b. Qed.

Lemma shell_matchCompound c a b :
  shell a = shell b -> matchCompound a c = matchCompound b c.
Proof. destruct a, b; simpl; try done. by intros [= -> -> ->]. Qed.

Lemma shell_isInboxChip a b : shell a = shell b -> isInboxChip a = isInboxChip b.
Proof.
  intros H. unfold isInboxChip.
  by rewrite !(shell_matchCompound _ a b H), (shell_classListContains _ a b H).
Qed.

Lemma shell_chipFileName a b : shell a = shell b -> chipFileName a = chipFileName b.
Proof.
  intros H. unfold chipFileName. by rewrite !(shell_getAttribute _ a b H).
Qed.

Lemma shell_classListAdd c a : shell (classListAdd c a) = classListAdd c (shell a).
Proof. destruct a as [|t cl attrs cs]; [done|]. simpl. by destruct (existsb _ cl). Qed.

(** Marking the node at [p] leaves every other node where it is, with its
    tag, classes and attributes. *)
Lemma updateAt_elsewhere c t : forall p doc b,
  nodeAt t doc = Some b -> t <> p ->
  exists b', nodeAt t (updateAt p (classListAdd c) doc) = Some b'
             /\ shell b' = shell b.
Proof.
  induction t as [|j t IH]; intros p doc b Hb Hne.
  - injection Hb as <-. destruct p as [|i p]; [done|].
    eexists. split; [done|]. by destruct doc.
  - destruct doc as [s|tg cl attrs cs]; [done|]. cbn [nodeAt] in Hb.
    destruct (cs !! j) as [c0|] eqn:Ec; [|done]. cbn in Hb.
    destruct p as [|i p].
    + exists b. split; [|done]. cbn [updateAt classListAdd].
      destruct (existsb _ cl); cbn [nodeAt]; by rewrite Ec.
    + cbn [updateAt nodeAt]. destruct (decide (i = j)) as [->|Hij].
      * rewrite list_lookup_alter_eq, Ec. cbn. apply IH; [done|congruence].
      * rewrite list_lookup_alter_ne by done. rewrite Ec. cbn. by exists b.
Qed.

Lemma shiftAfter_length p : forall t, length (shiftAfter p t) = length t.
Proof.
  induction p as [|i p IH]; intros t; [by destruct t|].
  destruct t as [|j t]; [by destruct p|].
  destruct p as [|i' p'].
  - change (shiftAfter [i] (j :: t)) with (if (i <? j)%nat then S j :: t else j :: t).
    by destruct (i <? j)%nat.
  - change (shiftAfter (i :: i' :: p') (j :: t))
      with (if (i =? j)%nat then j :: shiftAfter (i' :: p') t else j :: t).
    destruct (i =? j)%nat; [|done]. cbn [length]. by rewrite IH.
Qed.

Lemma shiftAfter_inj p : forall t1 t2,
  shiftAfter p t1 = shiftAfter p t2 -> t1 = t2.
Proof.
  induction p as [|i p IH]; intros t1 t2; [by destruct t1, t2|].
  destruct p as [|i' p'].
  - destruct t1 as [|j1 t1], t2 as [|j2 t2]; try done.
    + change (shiftAfter [i] (j2 :: t2))
        with (if (i <? j2)%nat then S j2 :: t2 else j2 :: t2).
      by destruct (i <? j2)%nat.
    + change (shiftAfter [i] (j1 :: t1))
        with (if (i <? j1)%nat then S j1 :: t1 else j1 :: t1).
      by destruct (i <? j1)%nat.
    + change (shiftAfter [i] (j1 :: t1))
        with (if (i <? j1)%nat then S j1 :: t1 else j1 :: t1).
      change (shiftAfter [i] (j2 :: t2))
        with (if (i <? j2)%nat then S j2 :: t2 else j2 :: t2).
      destruct (Nat.ltb_spec i j1), (Nat.ltb_spec i j2); intros [= ? ?]; subst;
        try done; lia.
  - destruct t1 as [|j1 t1], t2 as [|j2 t2]; try done.
    + change (shiftAfter (i :: i' :: p') (j2 :: t2))
        with (if (i =? j2)%nat then j2 :: shiftAfter (i' :: p') t2 else j2 :: t2).
      by destruct (i =? j2)%nat.
    + change (shiftAfter (i :: i' :: p') (j1 :: t1))
        with (if (i =? j1)%nat then j1 :: shiftAfter (i' :: p') t1 else j1 :: t1).
      by destruct (i =? j1)%nat.
    + change (shiftAfter (i :: i' :: p') (j1 :: t1))
        with (if (i =? j1)%nat then j1 :: shiftAfter (i' :: p') t1 else j1 :: t1).
      change (shiftAfter (i :: i' :: p') (j2 :: t2))
        with (if (i =? j2)%nat then j2 :: shiftAfter (i' :: p') t2 else j2 :: t2).
      destruct (Nat.eqb_spec i j1), (Nat.eqb_spec i j2); intros [= ? ?]; subst;
        try done.
      f_equal. by apply IH.
Qed.

(** After an insertion behind the node at [p], every node of the document
    is found at its shifted path, with its tag, classes and attributes. *)
Lemma insertAfter_shifted e p : forall t doc a b,
  p <> [] -> nodeAt p doc = Some a -> nodeAt t doc = Some b ->
  exists b', nodeAt (shiftAfter p t) (insertAfter p e doc) = Some b'
             /\ shell b' = shell b.
Proof.
  induction p as [|i p IH]; intros t doc a b Hp Ha Hb; [done|].
  destruct doc as [s|tg cl attrs cs].
  { by destruct p. }
  cbn [nodeAt] in Ha. destruct (cs !! i) as [c1|] eqn:Ei; [|done]. cbn in Ha.
  destruct p as [|i' p'].
  - cbn [insertAfter]. destruct t as [|j t].
    + injection Hb as <-. by eexists.
    + cbn [nodeAt] in Hb. destruct (cs !! j) as [c0|] eqn:Ej; [|done]. cbn in Hb.
      exists b. split; [|done].
      change (shiftAfter [i] (j :: t)) with (if (i <? j)%nat then S j :: t else j :: t).
      apply lookup_lt_Some in Ei as Hi.
      destruct (Nat.ltb_spec i j) as [Hlt|Hge]; cbn [nodeAt].
      * rewrite lookup_app_r by (rewrite length_take; lia).
        rewrite length_take, Nat.min_l by lia.
        replace (S j - S i) with (S (j - S i)) by lia.
        change ((e :: drop (S i) cs) !! S (j - S i)) with (drop (S i) cs !! (j - S i)).
        rewrite lookup_drop. replace (S i + (j - S i)) with j by lia.
        by rewrite Ej.
      * rewrite lookup_app_l by (rewrite length_take; lia).
        rewrite lookup_take_lt by lia. by rewrite Ej.
  - change (insertAfter (i :: i' :: p') e (Elem tg cl attrs cs))
      with (Elem tg cl attrs (alter (insertAfter (i' :: p') e) i cs)).
    destruct t as [|j t].
    + injection Hb as <-. by eexists.
    + cbn [nodeAt] in Hb. destruct (cs !! j) as [c0|] eqn:Ej; [|done]. cbn in Hb.
      change (shiftAfter (i :: i' :: p') (j :: t))
        with (if (i =? j)%nat then j :: shiftAfter (i' :: p') t else j :: t).
      destruct (Nat.eqb_spec i j) as [->|Hij]; cbn [nodeAt].
      * rewrite list_lookup_alter_eq, Ej. cbn. rewrite Ei in Ej. injection Ej as ->.
        by eapply IH.
      * rewrite list_lookup_alter_ne by done. rewrite Ej. cbn. by exists b.
Qed.

Lemma walkChildren_paths up here cs : forall k l,
  l ∈ walkChildren up here k cs ->
  exists j q, k <= j /\ locPath l = here ++ j :: q.
Proof.
  induction cs as [|c cs IH]; intros k l Hl; [by apply elem_of_nil in Hl|].
  cbn [walkChildren] in Hl. apply elem_of_app in Hl as [Hl|Hl].
  - apply walk_nodeAt in Hl as (q & -> & _). exists k, q. split; [done|].
    by rewrite <- app_assoc.
  - apply IH in Hl as (j & q & Hj & ->). exists j, q. split; [lia|done].
Qed.

(** The nodes of a walk have pairwise distinct paths. *)
Lemma walk_NoDup n : forall anc here, NoDup (locPath <$> walk anc here n).
Proof.
  induction n as [s|t cl attrs cs IH] using Node_nested_ind; intros anc here.
  - cbn. apply NoDup_singleton.
  - rewrite walk_Elem, fmap_cons. cbn [locPath]. apply NoDup_cons. split.
    + intros Hin. apply list_elem_of_fmap in Hin as (l & Hp & Hl).
      apply walkChildren_paths in Hl as (j & q & _ & Hq). rewrite Hq in Hp.
      apply (f_equal length) in Hp. rewrite length_app in Hp. cbn in Hp. lia.
    + generalize (Elem t cl attrs cs :: anc). intros up. generalize 0.
      induction IH as [|c cs Hc _ IHcs]; intros k; [constructor|].
      cbn [walkChildren]. rewrite fmap_app. apply NoDup_app.
      split; [apply Hc|]. split; [|apply IHcs].
      intros p Hp1 Hp2.
      apply list_elem_of_fmap in Hp1 as (l1 & -> & Hl1).
      apply list_elem_of_fmap in Hp2 as (l2 & Heq & Hl2).
      apply walk_nodeAt in Hl1 as (q1 & Hq1 & _).
      apply walkChildren_paths in Hl2 as (j & q2 & Hj & Hq2).
      rewrite Hq1, Hq2, <- app_assoc in Heq. apply app_inv_head in Heq.
      injection Heq as Heq _. lia.
Qed.

Lemma shallow_classListContains c : shallow (classListContains c).
Proof. by intros t cl attrs cs cs'. Qed.

Lemma count_classListAdd_other c c' a :
  c <> c' ->
  count (classListContains c') (classListAdd c a) = count (classListContains c') a.
Proof.
  intros Hne. destruct a as [s|t cl attrs cs]; [done|].
  pose proof (classListContains_add c c' (Elem t cl attrs cs) Hne) as H.
  cbn [classListAdd] in *. destruct (existsb _ cl); [done|].
  rewrite !count_Elem. by rewrite H.
Qed.

Lemma count_mark_inbox p doc a :
  nodeAt p doc = Some a ->
  count isIndicator (updateAt p (classListAdd INBOX_PROCESSED) doc)
  = count isIndicator doc.
Proof.
  intros Ha.
  pose proof (count_updateAt isIndicator p (classListAdd INBOX_PROCESSED)
                (shallow_classListContains _) doc a Ha) as H.
  assert (E : count isIndicator (classListAdd INBOX_PROCESSED a) = count isIndicator a)
    by (by apply (count_classListAdd_other INBOX_PROCESSED INBOX_INDICATOR)).
  lia.
Qed.

Lemma count_createInboxIndicator tl f d :
  count isIndicator (createInboxIndicator tl f d) = 1.
Proof. reflexivity. Qed.

#[local] Instance shiftAfter_Inj p : Inj (=) (=) (shiftAfter p).
Proof. intros t1 t2. apply shiftAfter_inj. Qed.

(** The loop of the inbox scan, in terms of the document the chips were
    taken from: the chips, found at their current positions, are judged by
    what they were, and each one that qualifies adds one indicator. *)
Lemma scanChips_count tl ch doc0 : forall rest adj doc,
  NoDup (adj <$> rest) ->
  (forall t, t ∈ rest ->
     length (adj t) = length t /\
     exists b0 b, nodeAt t doc0 = Some b0 /\ nodeAt (adj t) doc = Some b
                  /\ shell b = shell b0) ->
  count isIndicator (scanChips tl ch adj rest doc)
  = count isIndicator doc + length (List.filter (indicated ch doc0) rest).
Proof.
  induction rest as [|first rest IH]; intros adj doc Hnd Hinv; [cbn; lia|].
  rewrite fmap_cons in Hnd. apply NoDup_cons in Hnd as [Hfirst Hnd].
  destruct (Hinv first) as (Hlen & b0 & b & Hb0 & Hb & Hshell); [left|].
  assert (Hrest : forall t, t ∈ rest ->
            length (adj t) = length t /\
            exists b0 b, nodeAt t doc0 = Some b0 /\ nodeAt (adj t) doc = Some b
                         /\ shell b = shell b0).
  { intros t Ht. apply Hinv. by right. }
  assert (Hmarked : forall t, t ∈ rest ->
            length (adj t) = length t /\
            exists b0 b, nodeAt t doc0 = Some b0
              /\ nodeAt (adj t) (updateAt (adj first) (classListAdd INBOX_PROCESSED) doc)
                 = Some b
              /\ shell b = shell b0).
  { intros t Ht. destruct (Hrest t Ht) as (Hl & c0 & c & Hc0 & Hc & Hs).
    split; [done|].
    destruct (updateAt_elsewhere INBOX_PROCESSED (adj t) (adj first) doc c Hc)
      as (c' & Hc' & Hs').
    { intros E. apply Hfirst. rewrite <- E. apply list_elem_of_fmap. by exists t. }
    exists c0, c'. split; [done|]. split; [done|congruence]. }
  assert (Hdec : indicated ch doc0 first
                 = negb (classListContains INBOX_PROCESSED b0)
                   && endsWith ".pdf" (toLowerCase (chipFileName b0))
                   && match CHECK_STATUS_BY_FILENAME ch (chipFileName b0) with
                      | Resolved status => isInBoringTax status
                      | Rejected _ => false
                      end
                   && bool_decide (first <> [])).
  { unfold indicated. by rewrite Hb0. }
  assert (Hskip : count isIndicator
                    (scanChips tl ch adj rest
                       (updateAt (adj first) (classListAdd INBOX_PROCESSED) doc))
                  = count isIndicator doc
                    + length (List.filter (indicated ch doc0) rest)).
  { rewrite IH by done. by rewrite (count_mark_inbox _ _ _ Hb). }
  cbn [scanChips List.filter]. rewrite Hb, Hdec.
  rewrite (shell_classListContains _ b b0 Hshell), (shell_chipFileName b b0 Hshell).
  destruct (classListContains INBOX_PROCESSED b0); cbn [negb andb].
  { by apply IH. }
  destruct (endsWith ".pdf" (toLowerCase (chipFileName b0))); cbn [negb andb]; [|done].
  destruct (CHECK_STATUS_BY_FILENAME ch (chipFileName b0)) as [status|reason]; [|done].
  destruct (isInBoringTax status); cbn [andb]; [|done].
  destruct (decide (first = [])) as [Hroot|Hroot].
  { assert (Hadj : adj first = []).
    { destruct (adj first); [done|]. subst first. done. }
    rewrite (bool_decide_eq_false_2 (adj first <> [])) by (by intros H).
    by rewrite (bool_decide_eq_false_2 (first <> [])) by (by intros H). }
  assert (Hp' : adj first <> []).
  { intros E. rewrite E in Hlen. by destruct first. }
  rewrite (bool_decide_eq_true_2 (adj first <> [])) by done.
  rewrite (bool_decide_eq_true_2 (first <> [])) by done.
  pose proof (nodeAt_updateAt _ (classListAdd INBOX_PROCESSED) _ _ Hb) as Hb1.
  rewrite IH.
  - rewrite (count_insertAfter isIndicator _ _ (shallow_classListContains _) _ _ Hp' Hb1).
    rewrite count_createInboxIndicator, (count_mark_inbox _ _ _ Hb). cbn [length]. lia.
  - change (NoDup ((shiftAfter (adj first) ∘ adj) <$> rest)).
    rewrite list_fmap_compose.
    by apply (NoDup_fmap_2 (shiftAfter (adj first))).
  - intros t Ht. destruct (Hmarked t Ht) as (Hl & c0 & c & Hc0 & Hc & Hs).
    split; [by rewrite shiftAfter_length|].
    edestruct (insertAfter_shifted) as (c' & Hc' & Hs'); [exact Hp'|exact Hb1|exact Hc|].
    exists c0, c'. split; [done|]. split; [exact Hc'|congruence].
Qed.

Lemma indicated_located ch doc (L : list Located) :
  (forall l, l ∈ L -> nodeAt (locPath l) doc = Some (locNode l)) ->
  List.filter (indicated ch doc) (locPath <$> L)
  = locPath <$> List.filter (getsIndicator ch) L.
Proof.
  induction L as [|l L IH]; intros H; [done|].
  rewrite fmap_cons. cbn [List.filter].
  assert (E : indicated ch doc (locPath l) = getsIndicator ch l).
  { unfold indicated. rewrite H by left. by destruct l. }
  rewrite E, IH by (intros x Hx; apply H; by right).
  by destruct (getsIndicator ch l).
Qed.

(** What the inbox scan leaves alone: the number of nodes that satisfy a
    test which looks at the classes only, ignores the inbox marker and
    holds for no node of an indicator. *)
Lemma scanChips_keeps P tl ch :
  shallow P ->
  (forall a, count P (classListAdd INBOX_PROCESSED a) = count P a) ->
  (forall f d, count P (createInboxIndicator tl f d) = 0) ->
  forall chips adj doc, count P (scanChips tl ch adj chips doc) = count P doc.
Proof.
  intros Hs Hmark Hind. induction chips as [|first rest IH]; intros adj doc; [done|].
  cbn [scanChips]. destruct (nodeAt (adj first) doc) as [chip|] eqn:Hc; [|apply IH].
  assert (Hm : count P (updateAt (adj first) (classListAdd INBOX_PROCESSED) doc)
               = count P doc).
  { pose proof (count_updateAt P _ (classListAdd INBOX_PROCESSED) Hs _ _ Hc) as H.
    rewrite Hmark in H. lia. }
  destruct (classListContains INBOX_PROCESSED chip); [apply IH|].
  destruct (negb _); [by rewrite IH|].
  destruct (CHECK_STATUS_BY_FILENAME ch _) as [status|reason]; [|by rewrite IH].
  destruct (isInBoringTax status); cbn [andb]; [|by rewrite IH].
  case_bool_decide as Hp; [|by rewrite IH].
  rewrite IH.
  pose proof (nodeAt_updateAt _ (classListAdd INBOX_PROCESSED) _ _ Hc) as Hc1.
  rewrite (count_insertAfter P _ _ Hs _ _ Hp Hc1), Hind, Hm. lia.
Qed.

Lemma scanInbox_count tl h ch doc :
  isInOpenedEmail h doc = false ->
  count isIndicator (scanInboxForTransferredEmails tl h ch doc)
  = count isIndicator doc
    + length (List.filter (getsIndicator ch)
                (List.filter (fun l => isInboxChip (locNode l)) (walk [] [] doc))).
Proof.
  intros Ho. unfold scanInboxForTransferredEmails. rewrite Ho.
  set (chips := List.filter (fun l => isInboxChip (locNode l)) (walk [] [] doc)).
  assert (Hnodes : forall l, l ∈ chips -> nodeAt (locPath l) doc = Some (locNode l)).
  { intros l Hl. apply list_elem_of_In, filter_In in Hl as [Hl _].
    apply list_elem_of_In, walk_nodeAt in Hl as (q & Hq & Hn). by rewrite Hq. }
  rewrite (scanChips_count tl ch doc).
  - by rewrite (indicated_located ch doc chips Hnodes), length_fmap.
  - rewrite list_fmap_id. apply NoDup_fmap_filter, walk_NoDup.
  - intros t Ht. split; [done|].
    apply list_elem_of_fmap in Ht as (l & -> & Hl).
    exists (locNode l), (locNode l). by rewrite (Hnodes l Hl).
Qed.

(** X22: The inbox scan.  In an opened email it does nothing.  Otherwise the
    number of indicators grows by the number of chips of the list that were
    not yet marked, whose name ends in [.pdf] whatever its case, that the
    worker reports as known, and that have a parent: each of them gets one
    indicator, also when indicators placed earlier have moved it.  A
    rejected status check places nothing.  Buttons and badges are neither
    added nor removed. *)
Theorem scanInbox_indicators :
  forall toLocaleDateString_deDE h ch doc,
    let doc' := scanInboxForTransferredEmails toLocaleDateString_deDE h ch doc in
    let chips := List.filter (fun l => isInboxChip (locNode l)) (walk [] [] doc) in
    (isInOpenedEmail h doc = true -> doc' = doc) /\
    (isInOpenedEmail h doc = false ->
       count isIndicator doc'
       = count isIndicator doc + length (List.filter (getsIndicator ch) chips)) /\
    ((forall name, exists reason, CHECK_STATUS_BY_FILENAME ch name = Rejected reason) ->
       count isIndicator doc' = count isIndicator doc) /\
    count isButton doc' = count isButton doc /\
    count isBadge doc' = count isBadge doc.
Proof.
  intros tl h ch doc doc' chips. subst doc'.
  pose proof (scanInbox_count tl h ch doc) as Hcount. fold chips in Hcount.
  assert (Hkeep : forall c, c <> INBOX_PROCESSED -> c <> INBOX_INDICATOR ->
            count (classListContains c) (scanInboxForTransferredEmails tl h ch doc)
            = count (classListContains c) doc).
  { intros c H1 H2. unfold scanInboxForTransferredEmails.
    destruct (isInOpenedEmail h doc); [done|].
    apply scanChips_keeps; [apply shallow_classListContains| |].
    - intros a. apply count_classListAdd_other. congruence.
    - intros f d. cbn. apply String.eqb_neq in H2. by rewrite H2. }
  split; [|split; [done|split; [|split]]].
  - intros Ho. unfold scanInboxForTransferredEmails. by rewrite Ho.
  - intros Hrej. destruct (isInOpenedEmail h doc) eqn:Ho.
    { unfold scanInboxForTransferredEmails. by rewrite Ho. }
    rewrite Hcount by done.
    assert (E : List.filter (getsIndicator ch) chips = []).
    { clear -Hrej. induction chips as [|l L IH]; [done|]. cbn [List.filter].
      assert (getsIndicator ch l = false) as ->; [|done].
      unfold getsIndicator. destruct (Hrej (chipFileName (locNode l))) as [reason ->].
      by rewrite andb_false_r. }
    rewrite E. cbn. lia.
  - by apply (Hkeep UPLOAD_BUTTON).
  - by apply (Hkeep STATUS_BADGE).
Qed.

(** *** A second inbox scan *)

Lemma walk_complete_path q : forall n m anc here,
  nodeAt q n = Some m ->
  exists l, l ∈ walk anc here n /\ locPath l = here ++ q /\ locNode l = m.
Proof.
  induction q as [|i q IH]; intros n m anc here; cbn [nodeAt].
  - intros [= ->]. exists (mkLocated here anc m). rewrite app_nil_r.
    split; [|done]. destruct m; simpl; left.
  - destruct n as [|t cl attrs cs]; [done|].
    destruct (cs !! i) as [c|] eqn:E; [|done]. cbn [mbind option_bind]. intros H.
    destruct (IH c m (Elem t cl attrs cs :: anc) (here ++ [0 + i]) H)
      as (l & Hl & Hp & El).
    exists l. split; [|split; [|done]].
    + rewrite walk_Elem. right. by eapply walkChildren_lookup.
    + rewrite Hp, <- app_assoc. done.
Qed.

(** A node of a document in which the node at [p] was marked is that node
    with the marker, or a node of the document as it was, with its tag,
    classes and attributes. *)
Lemma updateAt_inverse c t : forall p doc b',
  nodeAt t (updateAt p (classListAdd c) doc) = Some b' ->
  exists b, nodeAt t doc = Some b
            /\ ((t = p /\ b' = classListAdd c b) \/ shell b' = shell b).
Proof.
  induction t as [|j t IH]; intros p doc b' Hb.
  - injection Hb as <-. exists doc. split; [done|].
    destruct p as [|i p]; [by left|]. right. by destruct doc.
  - destruct doc as [s|tg cl attrs cs].
    { by destruct p. }
    destruct p as [|i p].
    + exists b'. split; [|by right]. revert Hb. cbn [updateAt classListAdd].
      by destruct (existsb _ cl).
    + cbn [updateAt nodeAt] in Hb. cbn [nodeAt].
      destruct (decide (i = j)) as [->|Hij].
      * rewrite list_lookup_alter_eq in Hb.
        destruct (cs !! j) as [c0|]; [|done]. cbn in *.
        destruct (IH _ _ _ Hb) as (b & Hb0 & [[-> ->]|Hs]).
        -- exists b. split; [done|]. by left.
        -- exists b. split; [done|]. by right.
      * rewrite list_lookup_alter_ne in Hb by done.
        exists b'. split; [done|]. by right.
Qed.

(** A node of a document into which [e] was inserted behind the node at
    [p] is a node of the document as it was, found at its shifted path, or
    a node of [e]. *)
Lemma insertAfter_inverse e p : forall t' doc a b',
  p <> [] -> nodeAt p doc = Some a ->
  nodeAt t' (insertAfter p e doc) = Some b' ->
  (exists t b, t' = shiftAfter p t /\ nodeAt t doc = Some b /\ shell b' = shell b)
  \/ (exists q, nodeAt q e = Some b').
Proof.
  induction p as [|i p IH]; intros t' doc a b' Hp Ha Hb; [done|].
  destruct doc as [s|tg cl attrs cs].
  { by destruct p. }
  cbn [nodeAt] in Ha. destruct (cs !! i) as [c1|] eqn:Ei; [|done]. cbn in Ha.
  apply lookup_lt_Some in Ei as Hi.
  destruct p as [|i' p'].
  - cbn [insertAfter] in Hb. destruct t' as [|j' r].
    + injection Hb as <-. left. exists [], (Elem tg cl attrs cs). by split.
    + cbn [nodeAt] in Hb.
      destruct (decide (j' <= i)) as [Hle|Hgt].
      * rewrite lookup_app_l in Hb by (rewrite length_take; lia).
        rewrite lookup_take_lt in Hb by lia.
        left. exists (j' :: r), b'. split; [|by split].
        change (shiftAfter [i] (j' :: r))
          with (if (i <? j')%nat then S j' :: r else j' :: r).
        destruct (Nat.ltb_spec i j'); [lia|done].
      * rewrite lookup_app_r in Hb by (rewrite length_take; lia).
        rewrite length_take, Nat.min_l in Hb by lia.
        destruct (j' - S i) as [|k] eqn:Ek.
        -- right. exists r. exact Hb.
        -- change ((e :: drop (S i) cs) !! S k) with (drop (S i) cs !! k) in Hb.
           rewrite lookup_drop in Hb.
           left. exists ((S i + k) :: r), b'. split; [|by split].
           change (shiftAfter [i] ((S i + k) :: r))
             with (if (i <? S i + k)%nat then S (S i + k) :: r else (S i + k) :: r).
           destruct (Nat.ltb_spec i (S i + k)); [|lia]. f_equal. lia.
  - change (insertAfter (i :: i' :: p') e (Elem tg cl attrs cs))
      with (Elem tg cl attrs (alter (insertAfter (i' :: p') e) i cs)) in Hb.
    destruct t' as [|j' r].
    + injection Hb as <-. left. exists [], (Elem tg cl attrs cs). by split.
    + cbn [nodeAt] in Hb. destruct (decide (i = j')) as [<-|Hij].
      * rewrite list_lookup_alter_eq, Ei in Hb. cbn in Hb.
        destruct (IH r c1 a b') as [(t & b & -> & Ht & Hs)|Hq]; [done|done|done| |by right].
        left. exists (i :: t), b. split; [|split; [|done]].
        -- change (shiftAfter (i :: i' :: p') (i :: t))
             with (if (i =? i)%nat then i :: shiftAfter (i' :: p') t else i :: t).
           by rewrite Nat.eqb_refl.
        -- cbn [nodeAt]. by rewrite Ei.
      * rewrite list_lookup_alter_ne in Hb by done.
        left. exists (j' :: r), b'. split; [|by split].
        change (shiftAfter (i :: i' :: p') (j' :: r))
          with (if (i =? j')%nat then j' :: shiftAfter (i' :: p') r else j' :: r).
        destruct (Nat.eqb_spec i j'); done.
Qed.

Lemma length_append (s t : string) :
  String.length (s +:+ t) = String.length s + String.length t.
Proof. induction s as [|c s IH]; [done|]. cbn. by rewrite <- IH. Qed.

Lemma endsWith_app_long p s t :
  String.length p <= String.length t -> endsWith p (s +:+ t) = endsWith p t.
Proof.
  intros Hlen. induction s as [|c s IH]; [done|].
  change (String c s +:+ t) with (String c (s +:+ t)). cbn [endsWith]. rewrite IH.
  destruct (String.eqb_spec p (String c (s +:+ t))) as [->|_]; [|done].
  cbn in Hlen. rewrite length_append in Hlen. lia.
Qed.

Lemma toLowerCase_length s : String.length (toLowerCase s) = String.length s.
Proof. induction s as [|c s IH]; [done|]. cbn. by rewrite IH. Qed.

(** Replaces the comparisons of two given characters by their results. *)
Ltac decide_chars :=
  repeat match goal with
  | |- context [Ascii.eqb ?x ?y] =>
      let r := eval vm_compute in (Ascii.eqb x y) in
      match r with
      | true => change (Ascii.eqb x y) with true
      | false => change (Ascii.eqb x y) with false
      end
  end.

(** The tooltip of an indicator does not end in [.pdf], provided the
    localized date does not. *)
Lemma indicator_name_not_pdf tl f d :
  (forall d', endsWith ".pdf" (toLowerCase (tl d')) = false) ->
  endsWith ".pdf" (toLowerCase (chipFileName (createInboxIndicator tl f d))) = false.
Proof.
  intros Htl.
  assert (Halready :
    endsWith ".pdf" (toLowerCase (f +:+ " - Bereits " +:+ uuml +:+ "bertragen")) = false).
  { rewrite toLowerCase_app. rewrite endsWith_app_long by (vm_compute; lia).
    by vm_compute. }
  destruct d as [d'|]; [|exact Halready].
  destruct (truthy d') eqn:Ed.
  2:{ unfold chipFileName, createInboxIndicator. rewrite Ed. exact Halready. }
  assert (chipFileName (createInboxIndicator tl f (Some d'))
          = f +:+ " - " +:+ String (ascii_of_nat 220) "" +:+ "bertragen am " +:+ tl d')
    as ->.
  { unfold chipFileName, createInboxIndicator. by rewrite Ed. }
  rewrite toLowerCase_app.
  set (x := tl d') in *. specialize (Htl d'). fold x in Htl.
  rewrite endsWith_app_long.
  2:{ rewrite toLowerCase_length, !length_append. cbn [String.length]. lia. }
  rewrite !toLowerCase_app.
  destruct (le_lt_dec 4 (String.length (toLowerCase x))) as [Hlong|Hshort].
  - rewrite !endsWith_app_long; [done|rewrite ?length_append; cbn [String.length]; lia..].
  - destruct (toLowerCase x) as [|a [|b [|c [|e y]]]]; [..|cbn in Hshort; lia];
      cbv -[Ascii.eqb]; decide_chars; cbv -[Ascii.eqb]; try done;
      repeat (destruct (Ascii.eqb _ _); try done).
Qed.

Lemma shell_settled a b : shell a = shell b -> settled a = settled b.
Proof.
  intros H. unfold settled.
  by rewrite (shell_isInboxChip a b H), (shell_classListContains _ a b H),
    (shell_chipFileName a b H).
Qed.

Lemma settled_marked b : settled (classListAdd INBOX_PROCESSED b) = true.
Proof.
  destruct b as [s|t cl attrs cs]; [done|]. unfold settled.
  assert (classListContains INBOX_PROCESSED
            (classListAdd INBOX_PROCESSED (Elem t cl attrs cs)) = true) as ->;
    [|by rewrite orb_true_r].
  cbn [classListAdd]. destruct (existsb _ cl) eqn:E; [exact E|].
  cbn [classListContains]. rewrite existsb_app. cbn. by rewrite orb_true_r.
Qed.

Lemma settled_indicator tl f d q b :
  (forall d', endsWith ".pdf" (toLowerCase (tl d')) = false) ->
  nodeAt q (createInboxIndicator tl f d) = Some b -> settled b = true.
Proof.
  intros Htl Hb. destruct q as [|i q].
  - injection Hb as <-. unfold settled.
    by rewrite (indicator_name_not_pdf tl f d Htl), orb_true_r.
  - assert (isInboxChip b = false) as Hno; [|by unfold settled; rewrite Hno].
    revert Hb. unfold createInboxIndicator. cbn [nodeAt].
    destruct i as [|[|[|i]]]; cbn.
    + destruct q; [|done]. by intros [= <-].
    + destruct q as [|[|[|[|j]]] q]; cbn; try done.
      * by intros [= <-].
      * destruct q; [|done]. by intros [= <-].
      * destruct q as [|? ?]; cbn; [by intros [= <-]|]. by rewrite lookup_nil.
      * destruct q; [|done]. by intros [= <-].
    + destruct q; [|done]. by intros [= <-].
    + done.
Qed.

(** Once the loop over the chips is through, every node of the document is
    settled, if every node that was not is one of the chips. *)
Lemma scanChips_settles tl ch :
  (forall d', endsWith ".pdf" (toLowerCase (tl d')) = false) ->
  forall rest adj doc,
    (forall t b, nodeAt t doc = Some b ->
       settled b = true \/ exists t0, t0 ∈ rest /\ adj t0 = t) ->
    forall t b, nodeAt t (scanChips tl ch adj rest doc) = Some b -> settled b = true.
Proof.
  intros Htl. induction rest as [|first rest IH]; intros adj doc Hinv.
  { intros t b Hb. destruct (Hinv t b Hb) as [?|(t0 & Hin & _)]; [done|].
    by apply elem_of_nil in Hin. }
  cbn [scanChips].
  destruct (nodeAt (adj first) doc) as [chip|] eqn:Hc.
  2:{ apply IH. intros t b Hb. destruct (Hinv t b Hb) as [?|(t0 & Hin & Ht)]; [by left|].
      apply elem_of_cons in Hin as [->|Hin]; [congruence|].
      right. by exists t0. }
  destruct (classListContains INBOX_PROCESSED chip) eqn:Hproc.
  { apply IH. intros t b Hb. destruct (Hinv t b Hb) as [?|(t0 & Hin & Ht)]; [by left|].
    apply elem_of_cons in Hin as [->|Hin].
    - left. assert (b = chip) as -> by congruence.
      unfold settled. by rewrite Hproc, orb_true_r.
    - right. by exists t0. }
  assert (Hmark : forall t b,
            nodeAt t (updateAt (adj first) (classListAdd INBOX_PROCESSED) doc) = Some b ->
            settled b = true \/ exists t0, t0 ∈ rest /\ adj t0 = t).
  { intros t b Hb.
    destruct (updateAt_inverse _ _ _ _ _ Hb) as (b1 & Hb1 & [[-> ->]|Hs]).
    - left. apply settled_marked.
    - destruct (Hinv t b1 Hb1) as [H1|(t0 & Hin & Ht)].
      + left. by rewrite (shell_settled _ _ Hs).
      + apply elem_of_cons in Hin as [->|Hin]; [|right; by exists t0].
        left. subst t. rewrite (nodeAt_updateAt _ _ _ _ Hc) in Hb.
        injection Hb as <-. apply settled_marked. }
  destruct (negb _); [by apply IH|].
  destruct (CHECK_STATUS_BY_FILENAME ch _) as [status|reason]; [|by apply IH].
  destruct (isInBoringTax status); cbn [andb]; [|by apply IH].
  case_bool_decide as Hp; [|by apply IH].
  apply IH. intros t' b' Hb'.
  pose proof (nodeAt_updateAt _ (classListAdd INBOX_PROCESSED) _ _ Hc) as Hc1.
  destruct (insertAfter_inverse _ _ _ _ _ _ Hp Hc1 Hb')
    as [(t & b & -> & Hb & Hs)|(q & Hq)].
  - rewrite (shell_settled _ _ Hs).
    destruct (Hmark t b Hb) as [?|(t0 & Hin & Ht)]; [by left|].
    right. exists t0. split; [done|]. by rewrite Ht.
  - left. by eapply settled_indicator.
Qed.

(** X23: A second inbox scan places no further indicator, whatever the worker
    answers by then: after a scan every chip of the document carries the
    marker or has a name that does not end in [.pdf], the indicators
    included, as long as the localized date does not end in [.pdf]. *)
Theorem scanInbox_rescan :
  forall toLocaleDateString_deDE h ch h2 ch2 doc,
    (forall d, endsWith ".pdf" (toLowerCase (toLocaleDateString_deDE d)) = false) ->
    isInOpenedEmail h doc = false ->
    let doc1 := scanInboxForTransferredEmails toLocaleDateString_deDE h ch doc in
    count isIndicator (scanInboxForTransferredEmails toLocaleDateString_deDE h2 ch2 doc1)
    = count isIndicator doc1 /\
    (forall t b, nodeAt t doc1 = Some b -> isInboxChip b = true ->
       classListContains INBOX_PROCESSED b = true
       \/ endsWith ".pdf" (toLowerCase (chipFileName b)) = false).
Proof.
  intros tl h ch h2 ch2 doc Htl Ho doc1.
  assert (Hsettled : forall t b, nodeAt t doc1 = Some b -> settled b = true).
  { subst doc1. unfold scanInboxForTransferredEmails. rewrite Ho.
    apply scanChips_settles; [done|]. intros t b Hb.
    destruct (isInboxChip b) eqn:Hchip; [|left; by unfold settled; rewrite Hchip].
    right. exists t. split; [|done].
    destruct (walk_complete_path t doc b [] [] Hb) as (l & Hl & Hp & Hn).
    apply list_elem_of_fmap. exists l. split; [done|].
    apply list_elem_of_In, filter_In. rewrite Hn. split; [|done].
    by apply list_elem_of_In. }
  assert (Hchips : forall t b, nodeAt t doc1 = Some b -> isInboxChip b = true ->
            classListContains INBOX_PROCESSED b = true
            \/ endsWith ".pdf" (toLowerCase (chipFileName b)) = false).
  { intros t b Hb Hchip. specialize (Hsettled t b Hb). unfold settled in Hsettled.
    rewrite Hchip in Hsettled. cbn [negb orb] in Hsettled.
    apply orb_true_iff in Hsettled as [?|?%negb_true_iff]; auto. }
  split; [|done].
  destruct (isInOpenedEmail h2 doc1) eqn:Ho2.
  { unfold scanInboxForTransferredEmails at 1. by rewrite Ho2. }
  rewrite scanInbox_count by done.
  assert (E : List.filter (getsIndicator ch2)
                (List.filter (fun l => isInboxChip (locNode l)) (walk [] [] doc1)) = []).
  { assert (Hall : forall l, l ∈ walk [] [] doc1 ->
              isInboxChip (locNode l) = true -> getsIndicator ch2 l = false).
    { intros l Hl Hchip. apply walk_nodeAt in Hl as (q & _ & Hq).
      unfold getsIndicator.
      destruct (Hchips q (locNode l) Hq Hchip) as [-> | ->]; [done|].
      by rewrite andb_false_r. }
    revert Hall. generalize (walk [] [] doc1). intros L Hall.
    induction L as [|l L IH]; [done|]. cbn [List.filter].
    destruct (isInboxChip (locNode l)) eqn:Hchip.
    - cbn [List.filter]. rewrite (Hall l) by (done || left).
      apply IH. intros x Hx. apply Hall. by right.
    - apply IH. intros x Hx. apply Hall. by right. }
  rewrite E. cbn. lia.
Qed.

Lemma scanInbox_rescan_witness :
  let tl := fun _ : string => "01.03.2024" in
  let h := openMessage "#inbox" in
  let ch := serviceWorker (remoteKnows ["a.pdf"; "c.pdf"]) in
  let doc := inboxView [inboxRow ["a.pdf"; "b.pdf"; "c.pdf"]] in
  count isIndicator
    (scanInboxForTransferredEmails tl h ch (scanInboxForTransferredEmails tl h ch doc))
  = count isIndicator (scanInboxForTransferredEmails tl h ch doc).
Proof.
  intros tl h ch doc.
  apply (scanInbox_rescan tl h ch h ch doc); [by intros d|reflexivity].
Defined.

(** ** After an upload *)

Lemma count_isInjected_no_badge n :
  count isBadge n = 0 -> count isInjected n = count isButton n.
Proof.
  induction n as [s|t cl attrs cs IH] using Node_nested_ind; [done|].
  rewrite !count_Elem. intros H.
  assert (Hb : isBadge (Elem t cl attrs cs) = false).
  { destruct (isBadge _); [lia|done]. }
  assert (Hcs : countAll isBadge cs = 0) by (rewrite Hb in H; lia).
  unfold isInjected at 1. rewrite Hb, orb_false_r. f_equal.
  clear -IH Hcs. induction IH as [|c cs Hc _ IHcs]; [done|]. simpl in *.
  rewrite Hc, IHcs by lia. done.
Qed.

(** X24: [replaceButtonWithBadge] on an upload button that holds no further
    button or badge: the button as the click handler passes it, with the
    loading class and the spinner, is such a node, and so is a fresh one.
    The replacement takes one button away and adds one badge, so the number
    of injected nodes stays; the badge stands where the button stood and
    shows the time of the replacement. *)
Theorem replaceButtonWithBadge_swaps :
  (forall anc attachment id subj,
     let fresh := createUploadButton anc attachment id subj in
     (isButton fresh = true /\ count isButton fresh = 1 /\ count isBadge fresh = 0) /\
     (isButton (showLoading fresh) = true /\
      classListContains LOADING (showLoading fresh) = true /\
      count isButton (showLoading fresh) = 1 /\ count isBadge (showLoading fresh) = 0)) /\
  (forall h now animate p doc button,
     p <> [] ->
     nodeAt p doc = Some button ->
     count isButton button = 1 -> count isBadge button = 0 ->
     let doc' := replaceButtonWithBadge h now animate p doc in
     count isButton doc' + 1 = count isButton doc /\
     count isBadge doc' = count isBadge doc + 1 /\
     count isInjected doc' = count isInjected doc /\
     exists badge, nodeAt p doc' = Some badge /\ isBadge badge = true /\
       classListContains "grm-animate-in" badge = animate /\
       (now <> "" ->
        let U := String (ascii_of_nat 220) "" in
        getAttribute "title" badge
        = Some (U +:+ "bertragen am " +:+ toLocaleString_deDE h now))).
Proof.
  split; [done|].
  intros h now animate p doc button Hp Hb Hone Hnone doc'. subst doc'.
  unfold replaceButtonWithBadge. destruct p as [|i p]; [done|].
  set (badge := if animate then classListAdd "grm-animate-in" (createStatusBadge h (Some now))
                else createStatusBadge h (Some now)).
  assert (Hcount : forall P, shallow P ->
            count P (updateAt (i :: p) (fun _ => badge) doc) + count P button
            = count P doc + count P badge).
  { intros P HP. by apply (count_updateAt P (i :: p) (fun _ => badge) HP doc). }
  pose proof (Hcount isButton shallow_isButton) as H1.
  pose proof (Hcount isBadge shallow_isBadge) as H2.
  pose proof (Hcount isInjected shallow_isInjected) as H3.
  assert (Hbadge : count isButton badge = 0 /\ count isBadge badge = 1
                   /\ count isInjected badge = 1).
  { subst badge. by destruct animate. }
  destruct Hbadge as (B1 & B2 & B3).
  assert (Hinj : count isInjected button = 1).
  { rewrite count_isInjected_no_badge by done. done. }
  split; [lia|]. split; [lia|]. split; [lia|].
  exists badge. split; [by apply (nodeAt_updateAt _ (fun _ => badge) _ _ Hb)|].
  split; [subst badge; by destruct animate|].
  split; [subst badge; by destruct animate|].
  intros Hnow. apply truthy_true in Hnow. subst badge.
  destruct animate; cbn; by rewrite Hnow.
Qed.

Lemma replaceButtonWithBadge_swaps_witness :
  let doc := updateAt (locPath firstButton) showLoading afterFirstScan in
  let doc' := replaceButtonWithBadge (openMessage "#inbox/E1") "2024-03-02T10:00:00.000Z"
                true (locPath firstButton) doc in
  nodeAt (locPath firstButton) doc
  = Some (showLoading (createUploadButton [] (chip "b.pdf") "E1" None)) /\
  count isButton doc' + 1 = count isButton doc /\
  count isBadge doc' = count isBadge doc + 1.
Proof.
  intros doc doc'. split; [reflexivity|].
  destruct (proj2 replaceButtonWithBadge_swaps (openMessage "#inbox/E1")
              "2024-03-02T10:00:00.000Z" true (locPath firstButton) doc
              (showLoading (createUploadButton [] (chip "b.pdf") "E1" None)))
    as (H1 & H2 & _); [done | reflexivity | reflexivity | reflexivity |].
  split; [exact H1 | exact H2].
Defined.

(** ** Escaping *)

(** X25: [escapeHtml] works character by character; its result holds no [<] and
    no [>]; and a text without [&], [<], [>] and U+00A0 (a text with
    quotes, say) comes back as it is. *)
Theorem escapeHtml_safe :
  forall text,
    includes "<" (pages.escapeHtml text) = false /\
    includes ">" (pages.escapeHtml text) = false /\
    (forall more, pages.escapeHtml (text +:+ more)
                  = pages.escapeHtml text +:+ pages.escapeHtml more) /\
    (includes "&" text = false -> includes "<" text = false ->
     includes ">" text = false ->
     includes (String (ascii_of_nat 160) "") text = false ->
     pages.escapeHtml text = text).
Proof.
  assert (Hone : forall x c s, includes (String x "") (String c s)
                               = Ascii.eqb x c || includes (String x "") s).
  { intros x c s. cbn [includes startsWith]. by rewrite andb_true_r. }
  assert (Hfree : forall x c s,
            x = "<"%char \/ x = ">"%char ->
            includes (String x "") s = false ->
            includes (String x "")
              ((if Ascii.eqb c "&" then "&amp;"
                else if Ascii.eqb c (ascii_of_nat 160) then "&nbsp;"
                else if Ascii.eqb c "<" then "&lt;"
                else if Ascii.eqb c ">" then "&gt;"
                else String c EmptyString) +:+ s) = false).
  { intros x c s Hx Hs.
    destruct (Ascii.eqb_spec c "&"); [destruct Hx as [-> | ->]; cbv [String.append];
      rewrite !Hone, Hs; by decide_chars|].
    destruct (Ascii.eqb_spec c (ascii_of_nat 160));
      [destruct Hx as [-> | ->]; cbv [String.append]; rewrite !Hone, Hs; by decide_chars|].
    destruct (Ascii.eqb_spec c "<");
      [destruct Hx as [-> | ->]; cbv [String.append]; rewrite !Hone, Hs; by decide_chars|].
    destruct (Ascii.eqb_spec c ">");
      [destruct Hx as [-> | ->]; cbv [String.append]; rewrite !Hone, Hs; by decide_chars|].
    cbv [String.append]. rewrite Hone, Hs, orb_false_r.
    destruct Hx as [-> | ->]; apply Ascii.eqb_neq; congruence. }
  induction text as [|c text (IH1 & IH2 & IH3 & IH4)]; [done|].
  cbn [pages.escapeHtml].
  split; [|split; [|split]].
  - apply Hfree; [by left|done].
  - apply Hfree; [by right|done].
  - intros more. change (String c text +:+ more) with (String c (text +:+ more)).
    cbn [pages.escapeHtml]. rewrite IH3.
    generalize (pages.escapeHtml text) (pages.escapeHtml more). intros a b.
    by repeat (destruct (Ascii.eqb c _)).
  - rewrite !Hone. intros [Ea Ha]%orb_false_iff [El Hl]%orb_false_iff
      [Eg Hg]%orb_false_iff [En Hn]%orb_false_iff.
    rewrite Ascii.eqb_sym in Ea, El, Eg, En. rewrite Ea, En, El, Eg.
    cbv [String.append]. by rewrite IH4.
Qed.

(** ** The date on a badge *)

(** X26: When the status check leads to a badge, the badge placed in the
    document shows the transfer date of the record found by file name; when
    there is none (or its date is empty), that of the record found by email
    id; and when neither check returns a dated record (the file is known
    from the remote listing only) it shows the text without a date. *)
Theorem badge_shows_transfer_date :
  forall h ch p doc c byName byId,
    prepare h p doc = Some (Ready c) ->
    checkStatus ch (candFileName c) (candEmailId c) = Resolved (byName, byId) ->
    isInBoringTax byName || isTransferred byId = true ->
    let U := String (ascii_of_nat 220) "" in
    let dated d := U +:+ "bertragen am " +:+ toLocaleString_deDE h d in
    let nameDate := default "" (transferDate <$> transferInfo byName) in
    let idDate := default "" (transferDate <$> statusTransferInfo byId) in
    exists q badge,
      nodeAt q (fst (render h ch p c)) = Some badge /\
      isBadge badge = true /\
      (nameDate <> "" -> getAttribute "title" badge = Some (dated nameDate)) /\
      (nameDate = "" -> idDate <> "" ->
         getAttribute "title" badge = Some (dated idDate)) /\
      (nameDate = "" -> idDate = "" ->
         getAttribute "title" badge
         = Some ("Bereits an Buchhaltung " +:+ uuml +:+ "bertragen")).
Proof.
  intros h ch p doc c byName byId Hc Hcheck Hknown U dated nameDate idDate.
  destruct (prepare_Ready_placed _ _ _ _ Hc) as [Hnode Helem].
  unfold render. rewrite Hcheck, Hknown. cbn [fst].
  destruct (insertElement_nodeAt h (createStatusBadge h (badgeDate byName byId)) p
              (candAncestors c) (candNode c) (candDocument c) Hnode Helem) as [q Hq].
  exists q, (createStatusBadge h (badgeDate byName byId)).
  split; [exact Hq|]. split; [done|].
  subst nameDate idDate dated U. unfold badgeDate.
  destruct (transferInfo byName) as [r|]; cbn [fmap option_fmap option_map default id].
  - destruct (truthy (transferDate r)) eqn:Er.
    + apply truthy_true in Er as Hr. split; [|by split].
      intros _. cbn. by rewrite Er.
    + apply truthy_false in Er as Hr. split; [done|].
      destruct (statusTransferInfo byId) as [r'|]; cbn [fmap option_fmap option_map default id].
      * split.
        -- intros _ Hd. apply truthy_true in Hd as Ed. cbn. by rewrite Ed.
        -- intros _ Hd. apply truthy_false in Hd as Ed. cbn. by rewrite Ed.
      * by split.
  - split; [done|].
    destruct (statusTransferInfo byId) as [r'|]; cbn [fmap option_fmap option_map default id].
    + split.
      * intros _ Hd. apply truthy_true in Hd as Ed. cbn. by rewrite Ed.
      * intros _ Hd. apply truthy_false in Hd as Ed. cbn. by rewrite Ed.
    + by split.
Qed.

Lemma badge_shows_transfer_date_witness :
  let st := {| apiKey := "key"; orgId := "42";
               transferredEmails := [invoiceRecord "E1" "a.pdf"];
               boringTaxFiles := []; boringTaxLastSync := "" |} in
  exists c q badge,
    prepare (openMessage "#inbox/E9") [0; 0] (messageView [chip "A.PDF"]) = Some (Ready c) /\
    nodeAt q (fst (render (openMessage "#inbox/E9") (serviceWorker st) [0; 0] c))
    = Some badge /\
    isBadge badge = true.
Proof.
  intros st. eexists.
  edestruct (badge_shows_transfer_date (openMessage "#inbox/E9") (serviceWorker st)
               [0; 0] (messageView [chip "A.PDF"]))
    as (q & badge & Hq & Hb & _); [reflexivity|reflexivity|reflexivity|].
  exists q, badge. split; [reflexivity|]. split; [exact Hq|exact Hb].
Defined.
